(** * ZoneJS: the reactive core, the DOM reconciler and the router

    A shallow embedding of [src/reactivity.js] (module [Reactivity]), of the
    description-node constructor of [core.js] and of the reconciler of
    [dom.js] (module [Dom]), and of [render] of [core.js] and [startRouter]
    of [router.js], which join the two (module [App]), with the properties
    of the specification, and further properties of the code, stated and
    proved over them. *)

From stdpp Require Import base option list gmap strings pretty.
From Stdlib Require Import ZArith Lia.

Local Open Scope string_scope.
Local Open Scope list_scope.
Local Open Scope nat_scope.

(* ================================================================== *)
(** * JavaScript values                                                 *)
(* ================================================================== *)

(** The values a signal can hold.  Numbers are kept symbolic: the integers
    ([VInt 0] is [+0]), the negative zero and [NaN] are the cases on which
    the two equalities of the language differ. *)
Inductive value : Type :=
| VUndefined
| VNull
| VBool (b : bool)
| VNaN
| VNegZero
| VInt (z : Z)
| VString (s : string)
| VObject (ref : nat)
| VFunction (ref : nat).

#[global] Instance value_eq_dec : EqDecision value.
Proof. solve_decision. Defined.

(** [Object.is(x, y)]: the SameValue comparison. [NaN] is the same value as
    [NaN], and [+0] and [-0] are different values. *)
Definition Object_is (x y : value) : bool := bool_decide (x = y).

(** [x === y]: strict equality. [NaN] is not equal to anything, itself
    included, and the two zeros are equal. *)
Definition strict_equals (x y : value) : bool :=
  match x, y with
  | VNaN, _ | _, VNaN => false
  | VNegZero, VInt z | VInt z, VNegZero => bool_decide (z = 0%Z)
  | _, _ => bool_decide (x = y)
  end.

(** [v == null]. *)
Definition nullish (v : value) : bool :=
  match v with VUndefined | VNull => true | _ => false end.

(** [String(v)]. A number [VInt z] prints with all its digits, as
    JavaScript prints the integers below [10^21] that a double holds
    exactly; beyond them [String] switches to the exponent notation, which
    is not modelled. The source text of a function is not modelled either:
    a function prints as a fixed marker. *)
Definition toString (v : value) : string :=
  match v with
  | VUndefined => "undefined"
  | VNull => "null"
  | VBool true => "true"
  | VBool false => "false"
  | VNaN => "NaN"
  | VNegZero => "0"
  | VInt z => pretty z
  | VString s => s
  | VObject _ => "[object Object]"
  | VFunction _ => "function"
  end.

(** [toLowerCase] and [toUpperCase] on the ASCII letters, which is what
    [document.createElement], [tagName] and [setAttribute] apply. The method
    [String.prototype.toLowerCase] of [shouldReplace] also changes letters
    beyond ASCII; the two agree on ASCII strings, and the statements that
    depend on the difference ask for ASCII names. *)
Definition lower_ascii (c : Ascii.ascii) : Ascii.ascii :=
  let n := Ascii.nat_of_ascii c in
  if (65 <=? n) && (n <=? 90) then Ascii.ascii_of_nat (n + 32) else c.
Definition upper_ascii (c : Ascii.ascii) : Ascii.ascii :=
  let n := Ascii.nat_of_ascii c in
  if (97 <=? n) && (n <=? 122) then Ascii.ascii_of_nat (n - 32) else c.
Fixpoint map_string (f : Ascii.ascii -> Ascii.ascii) (s : string) : string :=
  match s with
  | EmptyString => EmptyString
  | String c s' => String (f c) (map_string f s')
  end.
Definition toLowerCase : string -> string := map_string lower_ascii.
Definition toUpperCase : string -> string := map_string upper_ascii.

(** [s.startsWith(p)]. *)
Definition startsWith (p s : string) : bool := String.prefix p s.

(* ================================================================== *)
(** * reactivity.js                                                     *)
(* ================================================================== *)

Module Reactivity.

(** A signal is one [createState] call: the pair of closures [get]/[set]
    over the variables [state] and [listeners].  It is named by its index in
    the store.  An effect is one [execute] closure built by [effect(fn)],
    named by its index among the closures created so far. *)
Abbreviation signal := nat (only parsing).
Abbreviation effect_id := nat (only parsing).

(** What user code can do between the calls into the library: the body of a
    function passed to [effect] or [batch]. *)
Inductive cmd : Type :=
| CSkip
| CSeq (c1 c2 : cmd)
| CGet (s : signal)                                  (* get() *)
| CSet (s : signal) (next : value)                   (* set(next) *)
| CSetFrom (dst src : signal) (f : value -> value)   (* setDst(f(getSrc())) *)
| CIf (s : signal) (p : value -> bool) (c1 c2 : cmd) (* if (p(get())) c1 else c2 *)
| CThrow (x : value)                                 (* throw x *)
| CBatch (fn : cmd)                                  (* batch(() => fn) *)
| CEffect (fn : cmd).                                (* effect(() => fn) *)

(** The variables closed over by one [get]/[set] pair. [listeners] is a
    JavaScript [Set]: no duplicates, iterated in insertion order. *)
Record cell : Type := Cell { state : value; listeners : list effect_id }.

(** Observable steps, recorded in program order. *)
Inductive event : Type :=
| EvWrite (s : signal) (next : value)   (* [state = next] in [set] *)
| EvRun (e : effect_id)                 (* entry of the closure [execute] *)
| EvRestore.                            (* [batchQueue = prevQueue] in [batch] *)

#[global] Instance event_eq_dec : EqDecision event.
Proof. solve_decision. Defined.

(** The module state: the three module variables, the signals and effect
    closures allocated so far, and the trace. *)
Record world : Type := World {
  currentEffect : option effect_id;
  batchQueue : list effect_id;
  isBatching : bool;
  signals : list cell;
  closures : list cmd;
  trace : list event
}.

Definition with_currentEffect (ce : option effect_id) (w : world) : world :=
  World ce (batchQueue w) (isBatching w) (signals w) (closures w) (trace w).
Definition with_batchQueue (q : list effect_id) (w : world) : world :=
  World (currentEffect w) q (isBatching w) (signals w) (closures w) (trace w).
Definition with_isBatching (b : bool) (w : world) : world :=
  World (currentEffect w) (batchQueue w) b (signals w) (closures w) (trace w).
Definition with_signals (sg : list cell) (w : world) : world :=
  World (currentEffect w) (batchQueue w) (isBatching w) sg (closures w) (trace w).
Definition with_closures (cl : list cmd) (w : world) : world :=
  World (currentEffect w) (batchQueue w) (isBatching w) (signals w) cl (trace w).
Definition emit (ev : event) (w : world) : world :=
  World (currentEffect w) (batchQueue w) (isBatching w) (signals w) (closures w)
        (trace w ++ [ev]).

(** The module as loaded: [currentEffect = null], [batchQueue = []],
    [isBatching = false]. *)
Definition initial : world := World None [] false [] [] [].

Inductive outcome : Type :=
| Normal
| Throws (x : value)
| OutOfFuel.

#[global] Instance outcome_eq_dec : EqDecision outcome.
Proof. solve_decision. Defined.

(** [Set.prototype.add]. *)
Definition set_add (e : effect_id) (l : list effect_id) : list effect_id :=
  if bool_decide (e ∈ l) then l else l ++ [e].

(** [[...new Set(queue)]]: the elements in order of first occurrence. *)
Definition unique (queue : list effect_id) : list effect_id :=
  foldl (fun acc e => set_add e acc) [] queue.

Definition listenersOf (w : world) (s : signal) : list effect_id :=
  default [] (listeners <$> signals w !! s).
Definition stateOf (w : world) (s : signal) : value :=
  default VUndefined (state <$> signals w !! s).

(** [createState(initial)]: a new cell with no listener; the result is the
    name of the new [get]/[set] pair. *)
Definition createState (init : value) (w : world) : world * signal :=
  (with_signals (signals w ++ [Cell init []]) w, length (signals w)).

(** [get()]. *)
Definition get (s : signal) (w : world) : world * value :=
  match signals w !! s with
  | None => (w, VUndefined)
  | Some c =>
      match currentEffect w with
      | Some e =>
          (with_signals (<[s := Cell (state c) (set_add e (listeners c))]> (signals w)) w,
           state c)
      | None => (w, state c)
      end
  end.

Section Calls.
(** [run] executes a function body; it stands for the interpreter one unit
    of fuel down. *)
Variable run : cmd -> world -> world * outcome.

(** The closure [execute] of [effect(fn)]. There is no [try]: when [fn]
    throws, the assignment [currentEffect = null] is not reached. *)
Definition execute (e : effect_id) (w : world) : world * outcome :=
  let fn := default CSkip (closures w !! e) in
  let w1 := with_currentEffect (Some e) (emit (EvRun e) w) in
  let '(w2, o) := run fn w1 in
  match o with
  | Normal => (with_currentEffect None w2, Normal)
  | _ => (w2, o)
  end.

(** [effect(fn)]. *)
Definition effect (fn : cmd) (w : world) : world * outcome :=
  execute (length (closures w)) (with_closures (closures w ++ [fn]) w).

(** [uniqueEffects.forEach(effect => effect())]: an array, not touched
    while it is walked. *)
Fixpoint forEach (l : list effect_id) (w : world) : world * outcome :=
  match l with
  | [] => (w, Normal)
  | e :: l' =>
      let '(w1, o) := execute e w in
      match o with
      | Normal => forEach l' w1
      | _ => (w1, o)
      end
  end.

(** [listeners.forEach(fn => fn())]: a [Set] walked in insertion order;
    an element added during the walk is visited too. [i] is the position
    reached, [k] bounds the number of elements visited. *)
Fixpoint forEachListener (k : nat) (s : signal) (i : nat) (w : world)
  : world * outcome :=
  match listenersOf w s !! i with
  | None => (w, Normal)
  | Some e =>
      match k with
      | 0 => (w, OutOfFuel)
      | S k' =>
          let '(w1, o) := execute e w in
          match o with
          | Normal => forEachListener k' s (S i) w1
          | _ => (w1, o)
          end
      end
  end.

(** [batch(fn)], with [fn] given as its effect on the world. *)
Definition batch (fn : world -> world * outcome) (w : world) : world * outcome :=
  if isBatching w then fn w
  else
    let prevQueue := batchQueue w in
    let '(w2, o) := fn (with_batchQueue [] (with_isBatching true w)) in
    match o with
    | OutOfFuel => (w2, OutOfFuel)
    | _ =>
        (* finally *)
        let uniqueEffects := unique (batchQueue w2) in
        let w3 := emit EvRestore (with_batchQueue prevQueue (with_isBatching false w2)) in
        let '(w4, o') := forEach uniqueEffects w3 in
        match o' with
        | Normal => (w4, o)
        | _ => (w4, o')
        end
    end.

(** [set(next)]. *)
Definition set (k : nat) (s : signal) (next : value) (w : world) : world * outcome :=
  match signals w !! s with
  | None => (w, Normal)
  | Some c =>
      if Object_is (state c) next then (w, Normal)
      else
        let w1 := emit (EvWrite s next)
                    (with_signals (<[s := Cell next (listeners c)]> (signals w)) w) in
        if isBatching w1
        then (with_batchQueue (batchQueue w1 ++ listeners c) w1, Normal)
        else batch (forEachListener k s 0) w1
  end.

(** One layer of the interpreter of user code. *)
Definition step (k : nat) (c : cmd) (w : world) : world * outcome :=
  match c with
  | CSkip => (w, Normal)
  | CSeq c1 c2 =>
      let '(w1, o) := run c1 w in
      match o with
      | Normal => run c2 w1
      | _ => (w1, o)
      end
  | CGet s => ((get s w).1, Normal)
  | CSet s next => set k s next w
  | CSetFrom dst src f =>
      let '(w1, v) := get src w in set k dst (f v) w1
  | CIf s p c1 c2 =>
      let '(w1, v) := get s w in
      if p v then run c1 w1 else run c2 w1
  | CThrow x => (w, Throws x)
  | CBatch fn => batch (run fn) w
  | CEffect fn => effect fn w
  end.
End Calls.

(** The interpreter: [n] bounds the depth of nested calls and the length of
    every walk over a listener set. *)
Fixpoint exec (n : nat) (c : cmd) (w : world) : world * outcome :=
  match n with
  | 0 => (w, OutOfFuel)
  | S n' => step (exec n') n' c w
  end.


(** ** Vocabulary of the statements *)

(** A body that only reads signals. *)
Fixpoint reads_only (c : cmd) : bool :=
  match c with
  | CSkip | CGet _ => true
  | CSeq c1 c2 | CIf _ _ c1 c2 => reads_only c1 && reads_only c2
  | _ => false
  end.

(** The nesting depth of a body: the fuel it needs when no listener runs. *)
Fixpoint depth (c : cmd) : nat :=
  match c with
  | CSeq c1 c2 | CIf _ _ c1 c2 => S (depth c1 `max` depth c2)
  | CBatch fn | CEffect fn => S (depth fn)
  | _ => 1
  end.

(** [fn] of effect [e]. *)
Definition body (w : world) (e : effect_id) : cmd := default CSkip (closures w !! e).

(** An effect that observes: its body only reads. *)
Definition observer (w : world) (e : effect_id) : Prop := reads_only (body w e) = true.

(** [() => { setS1(v1); ...; setSn(vn) }]. *)
Definition writes (ws : list (signal * value)) : cmd :=
  foldr (fun sv c => CSeq (CSet sv.1 sv.2) c) CSkip ws.

(** The writes of [ws] that change the value of their signal when the
    writes are performed in order on the store [sg]. *)
Fixpoint changing_writes (sg : list cell) (ws : list (signal * value))
  : list (signal * value) :=
  match ws with
  | [] => []
  | (s, v) :: ws' =>
      match sg !! s with
      | None => changing_writes sg ws'
      | Some c =>
          if Object_is (state c) v then changing_writes sg ws'
          else (s, v) :: changing_writes (<[s := Cell v (listeners c)]> sg) ws'
      end
  end.

Definition write_event (sv : signal * value) : event := EvWrite sv.1 sv.2.

(** [w'] is a later world than [w]: listener sets, closures and the trace
    have only been appended to. *)
Definition extends (w w' : world) : Prop :=
  (∀ s, listenersOf w s `prefix_of` listenersOf w' s) ∧
  closures w `prefix_of` closures w' ∧
  trace w `prefix_of` trace w'.

(** [run'] reaches every result that [run] reaches. *)
Definition refines (run run' : cmd -> world -> world * outcome) : Prop :=
  ∀ c w w' o, run c w = (w', o) -> o ≠ OutOfFuel -> run' c w = (w', o).

(** Between [w] and [w'] the closure of effect [e] was entered. *)
Definition ran (e : effect_id) (w w' : world) : Prop :=
  ∃ pre post, trace w' = trace w ++ pre ++ EvRun e :: post.

(** The events recorded between [w] and [w'], and the number of times the
    closure of [e] was entered among them. *)
Definition since (w w' : world) : list event := drop (length (trace w)) (trace w').
Definition reruns (e : effect_id) (w w' : world) : nat :=
  length (filter (fun ev => ev = EvRun e) (since w w')).

(** Every rerun of the trace comes before every restoration of the queue. *)
Definition reruns_before_restore (evs : list event) : Prop :=
  ∀ i j e, evs !! i = Some (EvRun e) -> evs !! j = Some EvRestore -> i < j.

(** ** Sample worlds *)

Definition two_cells : world :=
  (createState (VInt 0) (createState (VInt 0) initial).1).1.

(** Signals [0] and [1], both read by the effect [0]. *)
Definition observed_pair : world :=
  Eval vm_compute in (exec 5 (CEffect (CSeq (CGet 0) (CGet 1))) two_cells).1.

(** The effect [0] reads the signals [1] and [0] and stores the value of
    [0] in [1]. *)
Definition derived_pair : world :=
  Eval vm_compute in
    (exec 5 (CEffect (CSeq (CGet 1) (CSetFrom 1 0 (fun v => v)))) two_cells).1.

(** One signal holding [+0], read by the effect [0]. *)
Definition observed_zero : world :=
  Eval vm_compute in (exec 5 (CEffect (CGet 0)) (createState (VInt 0) initial).1).1.

(** One signal holding [NaN], read by the effect [0]. *)
Definition observed_nan : world :=
  Eval vm_compute in (exec 5 (CEffect (CGet 0)) (createState VNaN initial).1).1.

(** [batch(() => { set0(1); throw null })] in [observed_pair]: the world in
    which [fn] has thrown, before the [finally] block. *)
Definition throwing_fn : cmd := CSeq (CSet 0 (VInt 1)) (CThrow VNull).
Definition thrown_pair : world :=
  Eval vm_compute in
    (exec 5 throwing_fn (with_batchQueue [] (with_isBatching true observed_pair))).1.

(** The effect [0] reads signal [1] only while signal [0] holds [0]. *)
Definition is_zero (v : value) : bool := bool_decide (v = VInt 0).
Definition conditional_reader : world :=
  Eval vm_compute in (exec 5 (CEffect (CIf 0 is_zero (CGet 1) CSkip)) two_cells).1.

(** The effect [0] reads signal [0] and throws unless it holds [0]; the
    effect [1] reads signal [0]. *)
Definition throws_unless_zero : cmd := CIf 0 is_zero CSkip (CThrow VNull).
Definition guarded_pair : world :=
  Eval vm_compute in
    (exec 6 (CSeq (CEffect throws_unless_zero) (CEffect (CGet 0))) two_cells).1.

(** ** Vocabulary of the further properties *)

(** What a completed call leaves of the two batching variables: outside a
    batch they are as before; inside a batch the flag is still set and the
    queue has only been appended to. *)
Definition batching_kept (w w' : world) : Prop :=
  isBatching w' = isBatching w
  ∧ if isBatching w then batchQueue w `prefix_of` batchQueue w'
    else batchQueue w' = batchQueue w.

(** [succ] on numbers, the identity elsewhere. *)
Definition plus_one (v : value) : value :=
  match v with VInt n => VInt (n + 1) | _ => v end.

(** Two signals holding [0]; the effect [0] stores in the signal [1] the
    value of the signal [0] plus one, and the effect [1] reads the signal
    [1]. *)
Definition derived_chain : world :=
  (exec 6 (CSeq (CEffect (CSetFrom 1 0 plus_one)) (CEffect (CGet 1))) two_cells).1.

End Reactivity.

(* ================================================================== *)
(** * core.js and dom.js                                                *)
(* ================================================================== *)

Module Dom.

(** ** The document *)

Inductive payload : Type :=
| Text (nodeValue : string)
| Element (tagName : string) (attributes : gmap string string) (props : gmap string value)
| Fragment.

(** A node of the retained tree; references are indices in the heap. *)
Record dnode : Type := DNode {
  payload_of : payload;
  childNodes : list nat;
  parentNode : option nat
}.

(** Calls out of the reconciler: a [ref] attribute, an [onMount] hook, a
    focus request handed to [requestAnimationFrame]. The callees are not
    modelled; they are taken not to touch the tree. *)
Inductive call : Type :=
| CallRef (f : nat) (el : nat)
| CallOnMount (f : nat) (el : nat)
| RequestFocus (el : nat).

Record dom : Type := Document {
  nodes : list dnode;
  body : option nat;
  calls : list call
}.

Inductive exn : Type :=
| TypeError
| HierarchyRequestError
| NotFoundError
| InvalidCharacterError
| DanglingReference.   (* a reference outside the heap: not a JavaScript state *)

Inductive result (A : Type) : Type :=
| Ok (a : A) (st : dom)
| Raise (e : exn).
Arguments Ok {A} a st.
Arguments Raise {A} e.

Definition M (A : Type) : Type := dom -> result A.

Definition ret {A} (a : A) : M A := fun st => Ok a st.
Definition raise {A} (e : exn) : M A := fun _ => Raise e.
Definition bind {A B} (m : M A) (k : A -> M B) : M B :=
  fun st => match m st with Ok a st' => k a st' | Raise e => Raise e end.

Notation "'let*' x ':=' m 'in' k" := (bind m (fun x => k))
  (at level 10, x name, m at level 100, k at level 200).
Notation "'do' m 'then' k" := (bind m (fun _ => k))
  (at level 10, m at level 100, k at level 200).

Definition node (r : nat) : M dnode :=
  fun st => match nodes st !! r with Some n => Ok n st | None => Raise DanglingReference end.

Definition modify (r : nat) (f : dnode -> dnode) : M unit :=
  fun st => Ok tt (Document (alter f r (nodes st)) (body st) (calls st)).

Definition record (c : call) : M unit :=
  fun st => Ok tt (Document (nodes st) (body st) (calls st ++ [c])).

Definition alloc (p : payload) : M nat :=
  fun st => Ok (length (nodes st))
               (Document (nodes st ++ [DNode p [] None]) (body st) (calls st)).

Definition createTextNode (data : string) : M nat := alloc (Text data).
Definition createDocumentFragment : M nat := alloc Fragment.

(** Names. [document.createElement] and [setAttribute] throw an
    [InvalidCharacterError] on a string that is not a name: the empty
    string, a string with a space, a string that starts with a digit. On
    the ASCII characters the rule is that of the production [Name] of XML:
    letters, digits and [- _ . :], the first character a letter, [_] or
    [:]. Which characters beyond ASCII a name may hold is not modelled:
    their bytes are let through. *)
Definition nameStart (c : Ascii.ascii) : bool :=
  let n := Ascii.nat_of_ascii c in
  (65 <=? n) && (n <=? 90) || (97 <=? n) && (n <=? 122) || (n =? 95) || (n =? 58).
Definition nameChar (c : Ascii.ascii) : bool :=
  let n := Ascii.nat_of_ascii c in
  nameStart c || (48 <=? n) && (n <=? 57) || (n =? 45) || (n =? 46).
Definition beyondAscii (c : Ascii.ascii) : bool := 128 <=? Ascii.nat_of_ascii c.
Definition validName (s : string) : bool :=
  match s with
  | EmptyString => false
  | String c s' =>
      (nameStart c || beyondAscii c)
      && forallb (fun c => nameChar c || beyondAscii c) (String.list_ascii_of_string s')
  end.

(** The names made of ASCII characters only. *)
Definition attributeName (s : string) : bool :=
  match s with
  | EmptyString => false
  | String c s' => nameStart c && forallb nameChar (String.list_ascii_of_string s')
  end.

(** [document.createElement(tag)] in an HTML document: the local name is
    the tag with its ASCII letters in lower case and [tagName] is its
    upper-case form. *)
Definition document_createElement (tag : string) : M nat :=
  if validName tag then alloc (Element (toUpperCase (toLowerCase tag)) ∅ ∅)
  else raise InvalidCharacterError.
Definition document_body : M (option nat) := fun st => Ok (body st) st.

(** [nodeType === 3], [nodeType === 1]. *)
Definition isText (n : dnode) : bool :=
  match payload_of n with Text _ => true | _ => false end.
Definition isElement (n : dnode) : bool :=
  match payload_of n with Element _ _ _ => true | _ => false end.

(** [a] is [x] or one of its ancestors. *)
Fixpoint inclusive_ancestor (fuel : nat) (st : dom) (a x : nat) : bool :=
  if bool_decide (a = x) then true
  else match fuel with
       | 0 => false
       | S fuel' =>
           match nodes st !! x ≫= parentNode with
           | Some p => inclusive_ancestor fuel' st a p
           | None => false
           end
       end.

(** [parent.contains(other)]. *)
Definition contains (parent other : nat) : M bool :=
  fun st => Ok (inclusive_ancestor (length (nodes st)) st parent other) st.

Definition index_of (r : nat) (l : list nat) : option nat :=
  fst <$> list_find (fun x => x = r) l.

Definition nextSibling (r : nat) : M (option nat) :=
  let* n := node r in
  match parentNode n with
  | None => ret None
  | Some p =>
      let* pn := node p in
      ret (i ← index_of r (childNodes pn); childNodes pn !! S i)
  end.

(** Removal of a node from its parent, if it has one. *)
Definition detach (r : nat) : M unit :=
  let* n := node r in
  match parentNode n with
  | None => ret tt
  | Some p =>
      do modify p (fun pn => DNode (payload_of pn) (filter (fun x => x ≠ r) (childNodes pn))
                                   (parentNode pn)) then
      modify r (fun n => DNode (payload_of n) (childNodes n) None)
  end.

Definition insert_at (parent r : nat) (before : option nat) : M unit :=
  do modify parent (fun pn =>
    let cs := childNodes pn in
    let i := default (length cs) (before ≫= fun b => index_of b cs) in
    DNode (payload_of pn) (take i cs ++ r :: drop i cs) (parentNode pn)) then
  modify r (fun n => DNode (payload_of n) (childNodes n) (Some parent)).

Fixpoint insert_all (parent : nat) (rs : list nat) (before : option nat) : M unit :=
  match rs with
  | [] => ret tt
  | r :: rs' =>
      do detach r then do insert_at parent r before then insert_all parent rs' before
  end.

(** The insertion of the DOM standard: a fragment gives up its children,
    any other node is first removed from where it is. *)
Definition insert (r parent : nat) (before : option nat) : M unit :=
  let* n := node r in
  match payload_of n with
  | Fragment => insert_all parent (childNodes n) before
  | _ => insert_all parent [r] before
  end.

Definition ensure_parent_can_hold (parent r : nat) : M unit :=
  let* pn := node parent in
  if isText pn then raise HierarchyRequestError
  else
    let* inside := contains r parent in
    if inside then raise HierarchyRequestError else ret tt.

Definition ensure_child_of (parent child : nat) : M unit :=
  let* cn := node child in
  if bool_decide (parentNode cn = Some parent) then ret tt else raise NotFoundError.

(** [parent.insertBefore(node, child)]. *)
Definition insertBefore (parent : nat) (r : option nat) (child : option nat) : M nat :=
  match r with
  | None => raise TypeError
  | Some r =>
      do ensure_parent_can_hold parent r then
      do (match child with Some c => ensure_child_of parent c | None => ret tt end) then
      let* before := (if bool_decide (child = Some r) then nextSibling r else ret child) in
      do insert r parent before then
      ret r
  end.

(** [parent.appendChild(node)]. *)
Definition appendChild (parent : nat) (r : option nat) : M nat :=
  insertBefore parent r None.

(** [parent.replaceChild(node, child)]. *)
Definition replaceChild (parent r child : nat) : M nat :=
  do ensure_parent_can_hold parent r then
  do ensure_child_of parent child then
  let* next := nextSibling child in
  let* before := (if bool_decide (next = Some r) then nextSibling r else ret next) in
  do detach child then
  do insert r parent before then
  ret child.

(** [parent.removeChild(child)]. *)
Definition removeChild (parent : nat) (child : option nat) : M nat :=
  match child with
  | None => raise TypeError
  | Some c => do ensure_child_of parent c then do detach c then ret c
  end.

(** [el.getAttribute(name)], [el.setAttribute(name, value)],
    [el.removeAttribute(name)]: on an HTML element the name is lower-cased.
    [setAttribute] throws [InvalidCharacterError] on a name that is not
    well-formed. *)
Definition getAttribute (n : dnode) (name : string) : option string :=
  match payload_of n with
  | Element _ attributes _ => attributes !! toLowerCase name
  | _ => None
  end.

Definition setAttribute (el : nat) (name : string) (v : string) : M unit :=
  let* n := node el in
  match payload_of n with
  | Element t attributes props =>
      if validName name
      then modify el (fun n => DNode (Element t (<[toLowerCase name := v]> attributes) props)
                                     (childNodes n) (parentNode n))
      else raise InvalidCharacterError
  | _ => raise TypeError
  end.

Definition removeAttribute (el : nat) (name : string) : M unit :=
  let* n := node el in
  match payload_of n with
  | Element t attributes props =>
      modify el (fun n => DNode (Element t (delete (toLowerCase name) attributes) props)
                                (childNodes n) (parentNode n))
  | _ => raise TypeError
  end.

(** [el[name] = v]. The model keeps what was assigned: what the property
    gives back when it is read is up to the element (an [input] turns the
    [value] assigned to it into a string) and is not modelled. *)
Definition setProperty (el : nat) (name : string) (v : value) : M unit :=
  let* n := node el in
  match payload_of n with
  | Element t attributes props =>
      modify el (fun n => DNode (Element t attributes (<[name := v]> props))
                                (childNodes n) (parentNode n))
  | _ => ret tt
  end.


(** ** Description nodes (core.js) *)

Record hooks : Type := Hooks { onMount : option nat }.

#[local] Unset Elimination Schemes.
Inductive vnode : Type :=
| VPrim (v : value)
| VArray (items : list vnode)
| VObj (tag : tag) (attrs : option (list (string * value))) (children : list vnode)
       (hks : hooks)
with tag : Type :=
| TagName (name : string)
| TagFn (component : option (list (string * value)) -> vnode).
#[local] Set Elimination Schemes.

(** [items.flat()]. *)
Definition flat (items : list vnode) : list vnode :=
  items ≫= (fun c => match c with VArray l => l | _ => [c] end).

(** [Vnode(tag, attrs = {}, children = [])]. An argument left out or
    [undefined] is [None] for [attrs] and [VPrim VUndefined] for [children];
    [Some None] is an [attrs] that is [null]. *)
Definition Vnode (t : tag) (attrs : option (option (list (string * value))))
    (children : vnode) : vnode :=
  VObj t (default (Some []) attrs)
       (match children with
        | VPrim VUndefined => flat []
        | VArray l => flat l
        | c => [c]
        end)
       (Hooks None).

(** ** The reconciler (dom.js) *)

(** [child !== false && child !== null && child !== undefined]. *)
Definition present (child : vnode) : bool :=
  match child with
  | VPrim (VBool false) | VPrim VNull | VPrim VUndefined => false
  | _ => true
  end.

(** [function patchText(parent, oldNode, text)]. *)
Definition patchText (parent : nat) (oldNode : option nat) (text : value)
  : M (option nat) :=
  let* oldValue := (match oldNode with
                    | None => ret None
                    | Some o =>
                        let* n := node o in
                        ret (match payload_of n with Text v => Some v | _ => None end)
                    end) in
  if (match oldValue with Some v => String.eqb v (toString text) | None => false end)
  then ret oldNode
  else
    let* newText := createTextNode (toString text) in
    let* attached := (match oldNode with
                      | None => ret false
                      | Some o => contains parent o
                      end) in
    do (match oldNode with
        | Some o => if attached then replaceChild parent newText o
                    else appendChild parent (Some newText)
        | None => appendChild parent (Some newText)
        end) then
    ret (Some newText).

(** [typeof newNode === 'string' || typeof newNode === 'number']. *)
Definition isNewText (newNode : vnode) : bool :=
  match newNode with
  | VPrim (VString _) | VPrim (VInt _) | VPrim VNaN | VPrim VNegZero => true
  | _ => false
  end.

(** [function shouldReplace(oldNode, newNode)]. A node that is neither a
    text nor an element has no [tagName]: the call on it throws. *)
Definition shouldReplace (oldNode : nat) (newNode : vnode) : M bool :=
  let* n := node oldNode in
  if negb (Bool.eqb (isText n) (isNewText newNode)) then ret true
  else if isNewText newNode then ret false
  else match payload_of n with
       | Element tagName _ _ =>
           ret (match newNode with
                | VObj (TagName t) _ _ _ => negb (String.eqb (toLowerCase tagName) t)
                | _ => true
                end)
       | _ => raise TypeError
       end.

(** [function getKeyedNodes(nodes)]. *)
Fixpoint getKeyedNodes_from (keyed : gmap string nat) (rs : list nat)
  : M (gmap string nat) :=
  match rs with
  | [] => ret keyed
  | r :: rs' =>
      let* n := node r in
      getKeyedNodes_from
        (if isElement n
         then match getAttribute n "key" with
              | Some key => <[key := r]> keyed
              | None => keyed
              end
         else keyed) rs'
  end.
Definition getKeyedNodes (rs : list nat) : M (gmap string nat) :=
  getKeyedNodes_from ∅ rs.

(** One iteration of the loop over [Object.entries(vnode.attrs)] in
    [updateElement]. *)
Definition applyAttr (el : nat) (key : string) (v : value) : M unit :=
  let* n := node el in
  let isInput := match payload_of n with
                 | Element t _ _ => String.eqb t "INPUT"
                 | _ => false
                 end in
  if String.eqb key "ref" then
    match v with VFunction f => record (CallRef f el) | _ => raise TypeError end
  else if String.eqb key "focus" && bool_decide (v = VBool true) then
    record (RequestFocus el)
  else if startsWith "on" key && (match v with VFunction _ => true | _ => false end) then
    setProperty el (toLowerCase key) v
  else if String.eqb key "value" && isInput then setProperty el "value" v
  else if String.eqb key "checked" && isInput then setProperty el "checked" v
  else if bool_decide (v = VBool true) then setAttribute el key ""
  else if bool_decide (v = VBool false) then removeAttribute el key
  else if negb (nullish v) then setAttribute el key (toString v)
  else ret tt.

Fixpoint applyAttrs (el : nat) (attrs : list (string * value)) : M unit :=
  match attrs with
  | [] => ret tt
  | (key, v) :: attrs' => do applyAttr el key v then applyAttrs el attrs'
  end.

(** [child.attrs?.key] for a child with [typeof child === 'object'], and
    [null] for any other child. *)
Definition keyOf (child : vnode) : value :=
  match child with
  | VPrim _ => VNull
  | VArray _ => VUndefined
  | VObj _ None _ _ => VUndefined
  | VObj _ (Some attrs) _ _ =>
      default VUndefined ((fun found => found.2.2) <$> list_find (fun kv => kv.1 = "key") attrs)
  end.

(** [key != null && keyedOld.has(key) ? keyedOld.get(key) : oldChildren[i]]:
    the index holds strings, so only a string can be found in it. *)
Definition comparisonTarget (keyedOld : gmap string nat) (oldChildren : list nat)
    (i : nat) (child : vnode) : option nat :=
  let key := keyOf child in
  let has := match key with
             | VString k => bool_decide (is_Some (keyedOld !! k))
             | _ => false
             end in
  if negb (nullish key) && has
  then match key with VString k => keyedOld !! k | _ => None end
  else oldChildren !! i.

(** The second loop of [reconcileChildren]: [newOrder.forEach((node, i) => ...)]. *)
Fixpoint reinsert (el : nat) (i : nat) (newOrder : list (option nat)) : M unit :=
  match newOrder with
  | [] => ret tt
  | r :: rest =>
      let* n := node el in
      let current := childNodes n !! i in
      do (if bool_decide (is_Some r ∧ current = r) then ret tt
          else do insertBefore el r current then ret tt) then
      reinsert el (S i) rest
  end.

(** [while (el.childNodes.length > len) el.removeChild(el.lastChild)]; every
    turn removes one child, so [fuel] turns are enough when [fuel] is the
    number of children at the start. *)
Fixpoint trim (fuel : nat) (el : nat) (len : nat) : M unit :=
  match fuel with
  | 0 => ret tt
  | S fuel' =>
      let* n := node el in
      if len <? length (childNodes n)
      then do removeChild el (last (childNodes n)) then trim fuel' el len
      else ret tt
  end.

Section Recursion.
(** The recursive calls to [patch]. *)
Variable patch : option nat -> option nat -> vnode -> M (option nat).

(** [children.filter(present).forEach(child =>
      fragment.appendChild(patch(parent, null, child)))]. *)
Fixpoint patchFragment_loop (fragment : nat) (parent : option nat)
    (children : list vnode) : M unit :=
  match children with
  | [] => ret tt
  | child :: rest =>
      if present child
      then let* r := patch parent None child in
           do appendChild fragment r then
           patchFragment_loop fragment parent rest
      else patchFragment_loop fragment parent rest
  end.

(** [function patchFragment(parent, oldNode, children)]. *)
Definition patchFragment (parent : option nat) (oldNode : option nat)
    (children : list vnode) : M nat :=
  let* fragment := createDocumentFragment in
  do patchFragment_loop fragment parent children then
  ret fragment.

(** The first loop of [reconcileChildren]:
    [children.filter(present).forEach((child, i) => ...)]; [i] counts the
    children that passed the filter. *)
Fixpoint reconcile_loop (el : nat) (keyedOld : gmap string nat)
    (oldChildren : list nat) (i : nat) (children : list vnode)
  : M (list (option nat)) :=
  match children with
  | [] => ret []
  | child :: rest =>
      if present child
      then let* r := patch (Some el) (comparisonTarget keyedOld oldChildren i child) child in
           let* newOrder := reconcile_loop el keyedOld oldChildren (S i) rest in
           ret (r :: newOrder)
      else reconcile_loop el keyedOld oldChildren i rest
  end.

(** [function reconcileChildren(el, children)]. *)
Definition reconcileChildren (el : nat) (children : list vnode) : M unit :=
  let* n := node el in
  let oldChildren := childNodes n in
  let* keyedOld := getKeyedNodes oldChildren in
  let* newOrder := reconcile_loop el keyedOld oldChildren 0 children in
  do reinsert el 0 newOrder then
  let* n' := node el in
  trim (length (childNodes n')) el (length newOrder).

(** [function updateElement(el, vnode)]. *)
Definition updateElement (el : nat) (attrs : option (list (string * value)))
    (children : list vnode) : M unit :=
  match attrs with
  | None => ret tt
  | Some attrs => do applyAttrs el attrs then reconcileChildren el children
  end.

(** [function createElement(vnode)]. [hk] is [vnode.hooks]. [replaceNode]
    is the only caller and hands over an object whose tag is a string:
    [patch] has dispatched [null], arrays, primitives and components
    before. In the array branch the source filters the array and
    [patchFragment] filters it again. *)
Definition createElement (hk : hooks) (vnode : vnode) : M nat :=
  match vnode with
  | VPrim (VObject _) => raise TypeError
  | VPrim v => if nullish v then createTextNode "" else createTextNode (toString v)
  | VArray items => patchFragment None None items
  | VObj (TagFn _) _ _ _ => raise InvalidCharacterError
  | VObj (TagName t) attrs children _ =>
      let create :=
        let* el := document_createElement t in
        do (match onMount hk with
            | Some f => record (CallOnMount f el)
            | None => ret tt
            end) then
        do updateElement el attrs children then
        ret el in
      if String.eqb t "body" then
        let* existingBody := document_body in
        match existingBody with
        | Some b =>
            do (match onMount hk with
                | Some f => record (CallOnMount f b)
                | None => ret tt
                end) then
            do updateElement b attrs children then
            ret b
        | None => create
        end
      else create
  end.

(** [function replaceNode(parent, oldNode, newNode)]. *)
Definition replaceNode (parent : nat) (oldNode : option nat) (hk : hooks)
    (newNode : vnode) : M nat :=
  let* newDOM := createElement hk newNode in
  let* attached := (match oldNode with
                    | None => ret false
                    | Some o => contains parent o
                    end) in
  do (match oldNode with
      | Some o => if attached then replaceChild parent newDOM o
                  else appendChild parent (Some newDOM)
      | None => appendChild parent (Some newDOM)
      end) then
  ret newDOM.
End Recursion.

(** [function patch(parent, oldNode, newNode)]. [hk] carries the hooks that
    the component branch assigns to the node it is about to patch
    ([componentVNode.hooks = newNode.hooks]). *)
Fixpoint patch_with (hk : option hooks) (parent : option nat) (oldNode : option nat)
    (newNode : vnode) {struct newNode} : M (option nat) :=
  match parent with
  | None => ret None
  | Some p =>
      match newNode with
      | VPrim v =>
          if nullish v then let* r := createTextNode "" in ret (Some r)
          else match v with
               | VObject _ => raise TypeError
               | _ => patchText p oldNode v
               end
      | VArray children =>
          let* r := patchFragment (patch_with None) parent oldNode children in ret (Some r)
      | VObj (TagFn component) attrs _ own =>
          match component attrs with
          | VPrim (VObject _) =>
              (* the object gets the hooks; it has no [tag] and no [attrs]:
                 [shouldReplace] never finds its tag on an element, and
                 [document.createElement(undefined)] builds an element named
                 [undefined] that [updateElement] leaves empty *)
              do (match oldNode with
                  | None => ret tt
                  | Some o =>
                      let* n := node o in
                      match payload_of n with
                      | Fragment => raise TypeError
                      | _ => ret tt
                      end
                  end) then
              let* r := replaceNode (patch_with None) p oldNode (default own hk)
                          (VObj (TagName "undefined") None [] (default own hk)) in
              ret (Some r)
          | VPrim (VFunction f) =>
              (* a function takes the property [hooks] and is then a
                 primitive for [patch]: [typeof] is not ['object'] *)
              patchText p oldNode (VFunction f)
          | VPrim _ => raise TypeError
          | _ => patch_with (Some (default own hk)) parent oldNode (component attrs)
          end
      | VObj (TagName t) attrs children own =>
          let* replace := (match oldNode with
                           | None => ret true
                           | Some o => shouldReplace o newNode
                           end) in
          if replace
          then let* r := replaceNode (patch_with None) p oldNode (default own hk) newNode in
               ret (Some r)
          else match oldNode with
               | Some o => do updateElement (patch_with None) o attrs children then ret oldNode
               | None => ret oldNode
               end
      end
  end.

Definition patch : option nat -> option nat -> vnode -> M (option nat) :=
  patch_with None.


(** ** Vocabulary of the statements *)

(** Every parent pointer of a node below [bound] points below [bound]. *)
Definition parents_below (bound : nat) (l : list dnode) : Prop :=
  ∀ y n p, y < bound -> l !! y = Some n -> parentNode n = Some p -> p < bound.

(** [x] is [a] or lies below [a] in the tree of the heap [l]. *)
Inductive descends (l : list dnode) (a : nat) : nat -> Prop :=
| descends_refl : descends l a a
| descends_step x n p :
    l !! x = Some n -> parentNode n = Some p -> descends l a p -> descends l a x.


(** A description that [patch] sends down the text path. *)
Definition textual (v : value) : bool :=
  negb (nullish v) && match v with VObject _ => false | _ => true end.

(** A plain description: a text, or an element with a lower-case tag other
    than [body], no attribute, no hook, and children that are absent or
    plain. *)
Fixpoint plain (d : vnode) : bool :=
  match d with
  | VPrim v => textual v
  | VArray _ => false
  | VObj (TagFn _) _ _ _ => false
  | VObj (TagName t) attrs children hk =>
      String.eqb (toLowerCase t) t && negb (String.eqb t "body")
      && match attrs with Some [] => true | _ => false end
      && match onMount hk with None => true | Some _ => false end
      && (fix all (l : list vnode) : bool :=
            match l with
            | [] => true
            | c :: l' => (negb (present c) || plain c) && all l'
            end) children
  end.

(** A bare description: a plain description but for the hooks, which are
    free. *)
Fixpoint bare (d : vnode) : bool :=
  match d with
  | VPrim v => textual v
  | VArray _ => false
  | VObj (TagFn _) _ _ _ => false
  | VObj (TagName t) attrs children _ =>
      String.eqb (toLowerCase t) t && negb (String.eqb t "body")
      && match attrs with Some [] => true | _ => false end
      && (fix all (l : list vnode) : bool :=
            match l with
            | [] => true
            | c :: l' => (negb (present c) || bare c) && all l'
            end) children
  end.

(** Every tag of the description is a name made of ASCII characters. *)
Fixpoint named (d : vnode) : bool :=
  match d with
  | VPrim _ => true
  | VArray items =>
      (fix all (l : list vnode) : bool :=
         match l with [] => true | c :: l' => named c && all l' end) items
  | VObj (TagFn _) _ _ _ => true
  | VObj (TagName t) _ children _ =>
      attributeName t
      && (fix all (l : list vnode) : bool :=
            match l with [] => true | c :: l' => named c && all l' end) children
  end.

(** [r] is the root of a rendering of [d] in the heap [l]: a text node with
    the text of [d], or an element with the tag of [d] whose children, all
    allocated after it, render the present children of [d] in order. *)
Fixpoint rendered (l : list dnode) (r : nat) (d : vnode) : Prop :=
  match d with
  | VPrim v => ∃ p, l !! r = Some (DNode (Text (toString v)) [] p)
  | VArray _ => False
  | VObj (TagFn _) _ _ _ => False
  | VObj (TagName t) _ children _ =>
      ∃ T a pr cs p,
        l !! r = Some (DNode (Element T a pr) cs p)
        ∧ toLowerCase T = t
        ∧ (fix each (cs : list nat) (children : list vnode) : Prop :=
             match children with
             | [] => cs = []
             | c :: children' =>
                 if present c
                 then match cs with
                      | [] => False
                      | r' :: cs' => r < r' ∧ rendered l r' c ∧ each cs' children'
                      end
                 else each cs children'
             end) cs children
  end.

Fixpoint vsize (d : vnode) : nat :=
  match d with
  | VPrim _ => 1
  | VArray items => S ((fix sum (l : list vnode) : nat :=
                          match l with [] => 0 | c :: l' => vsize c + sum l' end) items)
  | VObj _ _ children _ =>
      S ((fix sum (l : list vnode) : nat :=
            match l with [] => 0 | c :: l' => vsize c + sum l' end) children)
  end.

(** The list forms of [plain], [rendered] and [vsize]. *)
Definition all_plain : list vnode -> bool :=
  fix all (l : list vnode) : bool :=
    match l with
    | [] => true
    | c :: l' => (negb (present c) || plain c) && all l'
    end.
Definition all_bare : list vnode -> bool :=
  fix all (l : list vnode) : bool :=
    match l with
    | [] => true
    | c :: l' => (negb (present c) || bare c) && all l'
    end.
Definition all_named : list vnode -> bool :=
  fix all (l : list vnode) : bool :=
    match l with [] => true | c :: l' => named c && all l' end.
Definition each_rendered (l : list dnode) (r : nat) : list nat -> list vnode -> Prop :=
  fix each (cs : list nat) (children : list vnode) : Prop :=
    match children with
    | [] => cs = []
    | c :: children' =>
        if present c
        then match cs with
             | [] => False
             | r' :: cs' => r < r' ∧ rendered l r' c ∧ each cs' children'
             end
        else each cs children'
    end.
Definition sum_vsize : list vnode -> nat :=
  fix sum (l : list vnode) : nat :=
    match l with [] => 0 | c :: l' => vsize c + sum l' end.

(** [st1] is [st] after [d] has been mounted in the container [c], which was
    [cn] in [st]: the rendering is the node allocated first, it is the new
    last child of the container, and no other node of [st] has changed. *)
Definition mounted (st : dom) (c : nat) (cn : dnode) (d : vnode) (st1 : dom) : Prop :=
  let r := length (nodes st) in
  rendered (nodes st1) r d
  ∧ nodes st1 !! c = Some (DNode (payload_of cn) (childNodes cn ++ [r]) (parentNode cn))
  ∧ (∀ y, y < r -> y ≠ c -> nodes st1 !! y = nodes st !! y)
  ∧ r < length (nodes st1)
  ∧ parents_below (length (nodes st1)) (nodes st1).

(** What is left of a result when only the tree is looked at. *)
Definition documentOf {A} (r : result A) (default : dom) : dom :=
  match r with Ok _ st => st | Raise _ => default end.

(** ** Sample documents *)

(** A document whose body (node 0) holds one empty [div] (node 1), the
    container. *)
Definition page : dom :=
  Document [DNode (Element "BODY" ∅ ∅) [1] None; DNode (Element "DIV" ∅ ∅) [] (Some 0)]
           (Some 0) [].

(** The container holds one text node (node 2) with the text [5]. *)
Definition counter_page : dom :=
  Document [DNode (Element "BODY" ∅ ∅) [1] None;
            DNode (Element "DIV" ∅ ∅) [2] (Some 0);
            DNode (Text "5") [] (Some 1)]
           (Some 0) [].

(** [Vnode('div', {}, ['a'])] and [Vnode('DIV', {}, ['a'])]. *)
Definition div_a : vnode :=
  Vnode (TagName "div") (Some (Some [])) (VArray [VPrim (VString "a")]).
Definition DIV_a : vnode :=
  Vnode (TagName "DIV") (Some (Some [])) (VArray [VPrim (VString "a")]).

(** [Vnode('li', { key }, text)] and [Vnode('ul', {}, items)]. *)
Definition li (key : value) (text : string) : vnode :=
  Vnode (TagName "li") (Some (Some [("key", key)])) (VPrim (VString text)).
Definition ul (items : list vnode) : vnode :=
  Vnode (TagName "ul") (Some (Some [])) (VArray items).

Definition abc (k1 k2 k3 : value) : vnode := ul [li k1 "A"; li k2 "B"; li k3 "C"].
Definition cba (k1 k2 k3 : value) : vnode := ul [li k3 "C"; li k2 "B"; li k1 "A"].

(** The page after the list [A, B, C] with the keys ["1"], ["2"], ["3"] has
    been rendered into the container: the [ul] is node 2 and the items are
    the nodes 3, 5 and 7. *)
Definition keyed_list_page : dom :=
  Eval vm_compute in
    documentOf (patch (Some 1) None (abc (VString "1") (VString "2") (VString "3")) page) page.

(** The container holds a [span] (node 2) that holds the text [5] (node 3). *)
Definition nested_text_page : dom :=
  Document [DNode (Element "BODY" ∅ ∅) [1] None;
            DNode (Element "DIV" ∅ ∅) [2] (Some 0);
            DNode (Element "SPAN" ∅ ∅) [3] (Some 1);
            DNode (Text "5") [] (Some 2)]
           (Some 0) [].

(** Two items under one key; a [body] that holds a [div]; an element
    without a name; an item without a key. *)
Definition twins : vnode := ul [li (VString "k") "A"; li (VString "k") "B"].
Definition body_div : vnode :=
  Vnode (TagName "body") (Some (Some []))
        (VArray [Vnode (TagName "div") (Some (Some [])) (VArray [])]).
Definition nameless : vnode := Vnode (TagName "") (Some (Some [])) (VArray []).
Definition item (text : string) : vnode :=
  Vnode (TagName "li") (Some (Some [])) (VPrim (VString text)).

(** [Vnode('div', {}, ['a'])] with an [onMount] hook. *)
Definition hooked_div_a : vnode :=
  VObj (TagName "div") (Some []) [VPrim (VString "a")] (Hooks (Some 9)).

(** ** Vocabulary of the further properties *)

(** The node [r] is an element whose [key] attribute is [k]. *)
Definition carries_key (st : dom) (k : string) (r : nat) : bool :=
  match nodes st !! r with
  | Some n => isElement n && bool_decide (getAttribute n "key" = Some k)
  | None => false
  end.

(** [el.getAttribute(name)] and the children of [el] in the document [st]. *)
Definition attributeOf (st : dom) (el : nat) (name : string) : option string :=
  nodes st !! el ≫= fun n => getAttribute n name.
Definition childrenOf (st : dom) (el : nat) : list nat :=
  default [] (childNodes <$> nodes st !! el).

(** The text of the text node [r]. *)
Definition textOf (st : dom) (r : nat) : option string :=
  nodes st !! r ≫= fun n => match payload_of n with Text s => Some s | _ => None end.

(** A computation that makes no call out of the reconciler: when it
    returns, the recorded calls are those it found. *)
Definition quiet {A} (m : M A) : Prop :=
  ∀ st a st', m st = Ok a st' -> calls st' = calls st.

(** An attribute that [updateElement] hands to [setAttribute] as a text: a
    string or a number under a name other than [ref], [value] and
    [checked]. *)
Definition textAttribute (kv : string * value) : bool :=
  attributeName kv.1
  && match kv.2 with
     | VString _ | VInt _ | VNaN | VNegZero =>
         negb (String.eqb kv.1 "ref") && negb (String.eqb kv.1 "value")
         && negb (String.eqb kv.1 "checked")
     | _ => false
     end.

(** The calls that the attribute loop of [updateElement] makes on the
    element [el]: the [ref] functions and the requests for focus, in the
    order of the attributes. *)
Definition attrCalls (el : nat) (attrs : list (string * value)) : list call :=
  attrs ≫= (fun kv =>
    if String.eqb kv.1 "ref"
    then match kv.2 with VFunction f => [CallRef f el] | _ => [] end
    else if String.eqb kv.1 "focus" && bool_decide (kv.2 = VBool true)
         then [RequestFocus el]
         else []).
Definition descriptionCalls (el : nat) (attrs : option (list (string * value)))
  : list call :=
  match attrs with Some l => attrCalls el l | None => [] end.
Definition hookCalls (own : hooks) (el : nat) : list call :=
  match onMount own with Some f => [CallOnMount f el] | None => [] end.

End Dom.

(* ================================================================== *)
(** * core.js (render) and router.js                                    *)
(* ================================================================== *)

Module App.
Import Reactivity Dom.

(** [render] of [core.js] and [startRouter] of [router.js] bring the two
    halves together: the function they pass to [effect] calls a component,
    which reads signals, and patches the document with what the component
    returns. The state is the module state of [reactivity.js] next to the
    document; the effects are these closures (the field [closures] of the
    reactive state is not used here). *)

(** What JavaScript code can throw: a value, or one of the exceptions of
    the platform. *)
Inductive thrown : Type :=
| ThrownValue (x : value)
| ThrownError (e : exn).

(** A component or view function, as far as its calls into the library
    go: it reads signals and returns a description, or throws. *)
Inductive view : Type :=
| Give (d : vnode)                         (* return d *)
| Read (s : signal) (k : value -> view)    (* const v = get(); ... *)
| Fail (x : thrown).                       (* throw x *)

(** [component()], run on the reactive state: every [get] is that of
    [reactivity.js]. *)
Fixpoint call (v : view) (w : world) : world * (vnode + thrown) :=
  match v with
  | Give d => (w, inl d)
  | Read s k => let '(w1, x) := get s w in call (k x) w1
  | Fail x => (w, inr x)
  end.

(** The function that [render] and [startRouter] pass to [effect],
    [() => { currentDOM = patch(container, currentDOM, component()) }],
    with the variable [currentDOM] that it closes over. *)
Record renderer : Type := Renderer {
  component : view;
  container : option nat;
  currentDOM : option nat
}.

Record app : Type := Application {
  rx : world;                   (* the variables of reactivity.js *)
  doc : dom;                    (* the document *)
  renderers : list renderer;    (* the effects, in order of creation *)
  hash : string;                (* window.location.hash *)
  hashchange : list signal      (* the listeners of hashchange, each
                                   () => setHash(window.location.hash) *)
}.

Definition with_rx (w : world) (a : app) : app :=
  Application w (doc a) (renderers a) (hash a) (hashchange a).
Definition with_hash (h : string) (a : app) : app :=
  Application (rx a) (doc a) (renderers a) h (hashchange a).

Inductive outcome : Type :=
| Normal
| Throws (x : thrown)
| OutOfFuel.

(** A call ends in a state and an outcome, unless [patch] stops it with an
    exception of the DOM: the document that an interrupted [patch] leaves
    behind is not modelled, and neither is what runs after it. *)
Inductive result : Type :=
| Went (a : app) (o : outcome)
| Broke (e : exn).

(** One run of the function passed to [effect]. *)
Definition rerender (e : effect_id) (a : app) : result :=
  match renderers a !! e with
  | None => Went a Normal
  | Some u =>
      let '(w1, r) := call (component u) (rx a) in
      match r with
      | inr x => Went (with_rx w1 a) (Throws x)
      | inl d =>
          match patch (container u) (currentDOM u) d (doc a) with
          | Ok r st =>
              Went (Application w1 st
                      (<[e := Renderer (component u) (container u) r]> (renderers a))
                      (hash a) (hashchange a))
                   Normal
          | Raise ex => Broke ex
          end
      end
  end.

(** The closure [execute] of [effect(fn)]. *)
Definition execute (e : effect_id) (a : app) : result :=
  let a1 := with_rx (with_currentEffect (Some e) (emit (EvRun e) (rx a))) a in
  match rerender e a1 with
  | Went a2 Normal => Went (with_rx (with_currentEffect None (rx a2)) a2) Normal
  | r => r
  end.

(** [effect(fn)]. *)
Definition effect (u : renderer) (a : app) : result :=
  execute (length (renderers a))
    (Application (rx a) (doc a) (renderers a ++ [u]) (hash a) (hashchange a)).

(** [uniqueEffects.forEach(effect => effect())]. *)
Fixpoint forEach (l : list effect_id) (a : app) : result :=
  match l with
  | [] => Went a Normal
  | e :: l' =>
      match execute e a with
      | Went a1 Normal => forEach l' a1
      | r => r
      end
  end.

(** [listeners.forEach(fn => fn())]: a [Set] walked in insertion order;
    [i] is the position reached, [k] bounds the number of elements
    visited. *)
Fixpoint forEachListener (k : nat) (s : signal) (i : nat) (a : app) : result :=
  match listenersOf (rx a) s !! i with
  | None => Went a Normal
  | Some e =>
      match k with
      | 0 => Went a OutOfFuel
      | S k' =>
          match execute e a with
          | Went a1 Normal => forEachListener k' s (S i) a1
          | r => r
          end
      end
  end.

(** [batch(fn)]. *)
Definition batch (fn : app -> result) (a : app) : result :=
  if isBatching (rx a) then fn a
  else
    let prevQueue := batchQueue (rx a) in
    match fn (with_rx (with_batchQueue [] (with_isBatching true (rx a))) a) with
    | Broke ex => Broke ex
    | Went a2 OutOfFuel => Went a2 OutOfFuel
    | Went a2 o =>
        (* finally *)
        let uniqueEffects := unique (batchQueue (rx a2)) in
        let a3 := with_rx (emit EvRestore
                             (with_batchQueue prevQueue (with_isBatching false (rx a2)))) a2 in
        match forEach uniqueEffects a3 with
        | Went a4 Normal => Went a4 o
        | r => r
        end
    end.

(** [set(next)]. *)
Definition set (k : nat) (s : signal) (next : value) (a : app) : result :=
  match signals (rx a) !! s with
  | None => Went a Normal
  | Some c =>
      if Object_is (state c) next then Went a Normal
      else
        let w1 := emit (EvWrite s next)
                    (with_signals (<[s := Cell next (listeners c)]> (signals (rx a))) (rx a)) in
        if isBatching w1
        then Went (with_rx (with_batchQueue (batchQueue w1 ++ listeners c) w1) a) Normal
        else batch (forEachListener k s 0) (with_rx w1 a)
  end.

(** [fn] of a batch that performs writes: [() => { setS1(v1); ... }]. *)
Fixpoint sets (k : nat) (ws : list (signal * value)) (a : app) : result :=
  match ws with
  | [] => Went a Normal
  | (s, v) :: ws' =>
      match set k s v a with
      | Went a1 Normal => sets k ws' a1
      | r => r
      end
  end.

(** ** core.js: [render] *)

(** [function render(component, container)]. *)
Definition render (component : view) (container : option nat) (a : app) : result :=
  match container with
  | None => Went a Normal
  | Some c => effect (Renderer component (Some c) None) a
  end.

(** ** router.js *)

(** [s.slice(1)]. *)
Definition slice1 (s : string) : string :=
  match s with
  | EmptyString => EmptyString
  | String _ s' => s'
  end.

(** [getHash().slice(1) || '/']. *)
Definition pathOf (h : string) : string :=
  match slice1 h with
  | EmptyString => "/"
  | p => p
  end.

(** The default of the parameter [fallback]: the 404 page. *)
Definition notFound : view :=
  Give (Vnode (TagName "div") (Some (Some [("class", VString "error-404-container")]))
          (VArray [
             Vnode (TagName "div") (Some (Some [("class", VString "error-404-title")]))
                   (VPrim (VString "404"));
             Vnode (TagName "div") (Some (Some [("class", VString "error-404-message")]))
                   (VPrim (VString "Page Not Found"));
             Vnode (TagName "a") (Some (Some [("class", VString "error-404-link");
                                              ("href", VString "#/")]))
                   (VPrim (VString "Go Home"))])).

(** The component that [startRouter] renders:
    [path = getHash().slice(1) || '/'; view = routes[path] || fallback;
    view()]. [routes p] is what the property [p] of the object [routes]
    holds, own or inherited, when this is a view function, and [None] when
    it is absent or falsy. The signal only ever holds the strings that
    [startRouter] puts in it; on anything else [slice] is not a function. *)
Definition routed (routes : string -> option view) (fallback : view) (s : signal) : view :=
  Read s (fun h =>
    match h with
    | VString h => default fallback (routes (pathOf h))
    | _ => Fail (ThrownError TypeError)
    end).

(** [function startRouter(routes, container, fallback = ...)]. The
    container is not tested: a falsy one reaches [patch], which returns
    [null] for it. *)
Definition startRouter (routes : string -> option view) (container : option nat)
    (fallback : option view) (a : app) : result :=
  let '(w1, s) := createState (VString (hash a)) (rx a) in
  let a1 := Application w1 (doc a) (renderers a) (hash a) (hashchange a ++ [s]) in
  effect (Renderer (routed routes (default notFound fallback) s) container None) a1.

(** The listener [() => setHash(window.location.hash)] that [startRouter]
    has registered for the signal [s], run for a [hashchange] event. *)
Definition onHashchange (k : nat) (s : signal) (a : app) : result :=
  set k s (VString (hash a)) a.

(** ** Vocabulary of the statements *)

(** The module as loaded, with a document. *)
Definition start (st : dom) (h : string) : app :=
  Application initial st [] h [].

(** What a component returns on a store: its reads answered by [σ]. *)
Fixpoint answer (v : view) (σ : signal -> value) : vnode + thrown :=
  match v with
  | Give d => inl d
  | Read s k => answer (k (σ s)) σ
  | Fail x => inr x
  end.

(** The signals that a component reads on a store, in order. *)
Fixpoint reads (v : view) (σ : signal -> value) : list signal :=
  match v with
  | Read s k => s :: reads (k (σ s)) σ
  | _ => []
  end.

(** The store [σ] with [next] written to [s], and the store after the
    writes [ws], one after the other. *)
Definition update (s : signal) (next : value) (σ : signal -> value) : signal -> value :=
  fun s' => if bool_decide (s' = s) then next else σ s'.
Definition written (ws : list (signal * value)) (σ : signal -> value) : signal -> value :=
  foldl (fun σ sv => update sv.1 sv.2 σ) σ ws.

End App.

(* ================================================================== *)
(** * Properties of the reactive core                                   *)
(* ================================================================== *)

Module ReactivityTheory.
Import Reactivity.



#[local] Instance extends_preorder : PreOrder extends.
Proof.
  split.
  - intros w. repeat split; reflexivity.
  - intros w1 w2 w3 (L1 & C1 & T1) (L2 & C2 & T2).
    repeat split; [intros s; etrans; [apply L1 | apply L2] | by etrans | by etrans].
Qed.

Lemma set_add_prefix e l : l `prefix_of` set_add e l.
Proof. unfold set_add. case_bool_decide; [done | by apply prefix_app_r]. Qed.

Lemma listenersOf_insert w s s' c :
  listenersOf (with_signals (<[s := c]> (signals w)) w) s' =
  if bool_decide (s = s' ∧ s < length (signals w)) then listeners c else listenersOf w s'.
Proof.
  unfold listenersOf; simpl. case_bool_decide as H.
  - destruct H as [-> H]. by rewrite list_lookup_insert_eq.
  - destruct (decide (s = s')) as [->|Hne].
    + rewrite list_insert_ge; [done | lia].
    + by rewrite list_lookup_insert_ne.
Qed.

Lemma extends_insert w s c c' :
  signals w !! s = Some c ->
  listeners c `prefix_of` listeners c' ->
  extends w (with_signals (<[s := c']> (signals w)) w).
Proof.
  intros Hs Hp. repeat split; try done. intros s'.
  rewrite listenersOf_insert. case_bool_decide as H; [|done].
  destruct H as [? _]; subst s'. unfold listenersOf. by rewrite Hs.
Qed.

Lemma extends_emit ev w : extends w (emit ev w).
Proof. repeat split; try done. simpl. by apply prefix_app_r. Qed.

Lemma extends_with_currentEffect ce w : extends w (with_currentEffect ce w).
Proof. by repeat split. Qed.
Lemma extends_with_batchQueue q w : extends w (with_batchQueue q w).
Proof. by repeat split. Qed.
Lemma extends_with_isBatching b w : extends w (with_isBatching b w).
Proof. by repeat split. Qed.
Lemma extends_alloc fn w : extends w (with_closures (closures w ++ [fn]) w).
Proof. repeat split; try done. simpl. by apply prefix_app_r. Qed.

Lemma get_extends s w : extends w (get s w).1.
Proof.
  unfold get. destruct (signals w !! s) as [c|] eqn:Hs; [|done].
  destruct (currentEffect w); [|done]. simpl.
  eapply extends_insert; [done|]. apply set_add_prefix.
Qed.

Lemma createState_extends v w : extends w (createState v w).1.
Proof.
  repeat split; try done. intros s. unfold listenersOf; simpl.
  destruct (signals w !! s) as [c|] eqn:Hs.
  - by rewrite (lookup_app_l_Some _ _ _ _ Hs).
  - apply prefix_nil.
Qed.

Section Extends.
Variable run : cmd -> world -> world * outcome.
Hypothesis run_extends : ∀ c w, extends w (run c w).1.

Lemma execute_extends e w : extends w (execute run e w).1.
Proof.
  unfold execute.
  destruct (run _ _) as [w2 o] eqn:Hr.
  pose proof (run_extends (default CSkip (closures w !! e))
                (with_currentEffect (Some e) (emit (EvRun e) w))) as H.
  rewrite Hr in H. simpl in H.
  assert (extends w w2).
  { etrans; [apply (extends_emit (EvRun e))|]. etrans; [|exact H]. apply extends_with_currentEffect. }
  destruct o; simpl; done.
Qed.

Lemma effect_extends fn w : extends w (effect run fn w).1.
Proof. unfold effect. etrans; [apply (extends_alloc fn)|]. apply execute_extends. Qed.

Lemma forEach_extends l w : extends w (forEach run l w).1.
Proof.
  revert w. induction l as [|e l IH]; intros w; simpl; [done|].
  pose proof (execute_extends e w) as H.
  destruct (execute run e w) as [w1 o]. simpl in H.
  destruct o; simpl; first [done | etrans; [done|]; apply IH].
Qed.

Lemma forEachListener_extends k s i w : extends w (forEachListener run k s i w).1.
Proof.
  revert i w. induction k as [|k IH]; intros i w; simpl.
  - by destruct (listenersOf w s !! i).
  - destruct (listenersOf w s !! i) as [e|]; [|done].
    pose proof (execute_extends e w) as H.
    destruct (execute run e w) as [w1 o]. simpl in H.
    destruct o; simpl; first [done | etrans; [done|]; apply IH].
Qed.

Lemma batch_extends fn w :
  (∀ w, extends w (fn w).1) -> extends w (batch run fn w).1.
Proof.
  intros Hfn. unfold batch. destruct (isBatching w); [apply Hfn|].
  pose proof (Hfn (with_batchQueue [] (with_isBatching true w))) as H.
  destruct (fn _) as [w2 o]. simpl in H.
  assert (extends w w2) as H2.
  { etrans; [|exact H]. etrans; [apply (extends_with_isBatching true)|apply extends_with_batchQueue]. }
  set (w3 := emit EvRestore _).
  assert (extends w w3) as H3.
  { etrans; [exact H2|]. unfold w3. etrans; [apply (extends_with_isBatching false)|].
    etrans; [apply (extends_with_batchQueue (batchQueue w))|]. apply extends_emit. }
  pose proof (forEach_extends (unique (batchQueue w2)) w3) as H4.
  destruct (forEach _ _ _) as [w4 o'].
  destruct o; simpl; try done; destruct o'; simpl; by etrans.
Qed.

Lemma set_extends k s next w : extends w (set run k s next w).1.
Proof.
  unfold set. destruct (signals w !! s) as [c|] eqn:Hs; [|done].
  destruct (Object_is _ _); [done|].
  set (w1 := emit _ _).
  assert (extends w w1) as H1.
  { unfold w1. etrans; [|apply extends_emit]. by eapply extends_insert. }
  destruct (isBatching w1).
  - simpl. etrans; [exact H1|]. apply extends_with_batchQueue.
  - etrans; [exact H1|]. apply batch_extends. intros w'. apply forEachListener_extends.
Qed.

Lemma step_extends k c w : extends w (step run k c w).1.
Proof.
  destruct c; simpl; try done.
  - pose proof (run_extends c1 w) as H. destruct (run c1 w) as [w1 o]. simpl in H.
    destruct o; simpl; first [done | etrans; [done|]; apply run_extends].
  - apply get_extends.
  - apply set_extends.
  - pose proof (get_extends src w) as H. destruct (get src w) as [w1 v]. simpl in H.
    etrans; [done|]. apply set_extends.
  - pose proof (get_extends s w) as H. destruct (get s w) as [w1 v]. simpl in H.
    etrans; [done|]. destruct (p v); apply run_extends.
  - apply batch_extends. apply run_extends.
  - apply effect_extends.
Qed.
End Extends.

Lemma exec_extends n : ∀ c w, extends w (exec n c w).1.
Proof.
  induction n as [|n IH]; intros c w; simpl; [done|]. by apply step_extends.
Qed.



Section Refines.
Variables run run' : cmd -> world -> world * outcome.
Hypothesis run_refines : refines run run'.

Lemma execute_refines e w w' o :
  execute run e w = (w', o) -> o ≠ OutOfFuel -> execute run' e w = (w', o).
Proof.
  unfold execute. destruct (run _ _) as [w2 o2] eqn:Hr. intros H Ho.
  assert (o2 ≠ OutOfFuel) as Ho2 by (destruct o2; simplify_eq; done).
  by rewrite (run_refines _ _ _ _ Hr Ho2).
Qed.

Lemma forEach_refines l : ∀ w w' o,
  forEach run l w = (w', o) -> o ≠ OutOfFuel -> forEach run' l w = (w', o).
Proof.
  induction l as [|e l IH]; intros w w' o; simpl; [done|].
  destruct (execute run e w) as [w1 o1] eqn:He. intros H Ho.
  assert (o1 ≠ OutOfFuel) as Ho1 by (destruct o1; simplify_eq; done).
  rewrite (execute_refines _ _ _ _ He Ho1).
  destruct o1; try done. by apply IH.
Qed.

Lemma forEachListener_refines k k' s : k ≤ k' -> ∀ i w w' o,
  forEachListener run k s i w = (w', o) -> o ≠ OutOfFuel ->
  forEachListener run' k' s i w = (w', o).
Proof.
  revert k'. induction k as [|k IH]; intros k' Hk i w w' o; simpl.
  - destruct (listenersOf w s !! i) eqn:Hl; intros H Ho; simplify_eq.
    destruct k'; simpl; by rewrite Hl.
  - destruct k' as [|k']; [lia|]. simpl.
    destruct (listenersOf w s !! i) as [e|]; [|done].
    destruct (execute run e w) as [w1 o1] eqn:He. intros H Ho.
    assert (o1 ≠ OutOfFuel) as Ho1 by (destruct o1; simplify_eq; done).
    rewrite (execute_refines _ _ _ _ He Ho1).
    destruct o1; try done. apply IH; [lia|done..].
Qed.

Lemma batch_refines fn fn' w w' o :
  (∀ w w' o, fn w = (w', o) -> o ≠ OutOfFuel -> fn' w = (w', o)) ->
  batch run fn w = (w', o) -> o ≠ OutOfFuel -> batch run' fn' w = (w', o).
Proof.
  intros Hfn. unfold batch. destruct (isBatching w); [apply Hfn|].
  destruct (fn _) as [w2 o2] eqn:Hf. intros H Ho.
  assert (o2 ≠ OutOfFuel) as Ho2 by (destruct o2; simplify_eq; done).
  rewrite (Hfn _ _ _ Hf Ho2).
  destruct (forEach run _ _) as [w4 o4] eqn:Hfe.
  assert (o4 ≠ OutOfFuel) as Ho4 by (destruct o2, o4; simplify_eq; done).
  by rewrite (forEach_refines _ _ _ _ Hfe Ho4).
Qed.

Lemma set_refines k k' s next w w' o : k ≤ k' ->
  set run k s next w = (w', o) -> o ≠ OutOfFuel -> set run' k' s next w = (w', o).
Proof.
  intros Hk. unfold set. destruct (signals w !! s) as [c|]; [|done].
  destruct (Object_is _ _); [done|].
  destruct (isBatching _); [done|].
  apply batch_refines. intros ???. by apply forEachListener_refines.
Qed.

Lemma step_refines k k' c w w' o : k ≤ k' ->
  step run k c w = (w', o) -> o ≠ OutOfFuel -> step run' k' c w = (w', o).
Proof.
  intros Hk. destruct c; simpl; try done.
  - destruct (run c1 w) as [w1 o1] eqn:H1. intros H Ho.
    assert (o1 ≠ OutOfFuel) as Ho1 by (destruct o1; simplify_eq; done).
    rewrite (run_refines _ _ _ _ H1 Ho1). destruct o1; try done. by apply run_refines.
  - by apply set_refines.
  - destruct (get src w). by apply set_refines.
  - destruct (get s w). destruct (p _); apply run_refines.
  - apply batch_refines. apply run_refines.
  - unfold effect. apply execute_refines.
Qed.
End Refines.

Lemma exec_S_refines n : refines (exec n) (exec (S n)).
Proof.
  induction n as [|n IH]; intros c w w' o H Ho.
  - simpl in H. by simplify_eq.
  - change (step (exec (S n)) (S n) c w = (w', o)).
    eapply step_refines; [exact IH| |exact H|exact Ho]. lia.
Qed.

(** More fuel does not change a result that was reached. *)
Lemma exec_fuel_mono n m c w w' o :
  n ≤ m -> exec n c w = (w', o) -> o ≠ OutOfFuel -> exec m c w = (w', o).
Proof.
  induction 1 as [|m Hle IH]; [done|]. intros H Ho.
  apply exec_S_refines; auto.
Qed.


Lemma get_signals s w :
  ∃ sg, get s w = (with_signals sg w, stateOf w s) ∧ state <$> sg = state <$> signals w.
Proof.
  unfold get, stateOf. destruct (signals w !! s) as [c|] eqn:Hs; simpl.
  - destruct (currentEffect w) as [e|].
    + eexists; split; [done|]. rewrite list_fmap_insert. simpl.
      apply list_insert_id. by rewrite list_lookup_fmap, Hs.
    + exists (signals w). by destruct w.
  - exists (signals w). by destruct w.
Qed.

Lemma exec_reads_only c : ∀ n w,
  reads_only c = true -> depth c ≤ n ->
  ∃ sg, exec n c w = (with_signals sg w, Normal) ∧ state <$> sg = state <$> signals w.
Proof.
  induction c; intros n w Hro Hn; simpl in Hro, Hn; try done;
    (destruct n as [|n]; [lia|]); simpl.
  - exists (signals w). by destruct w.
  - apply andb_prop in Hro as [Hr1 Hr2].
    destruct (IHc1 n w Hr1) as (sg1 & -> & E1); [lia|].
    destruct (IHc2 n (with_signals sg1 w) Hr2) as (sg2 & -> & E2); [lia|].
    exists sg2. split; [done|]. by rewrite E2.
  - destruct (get_signals s w) as (sg & -> & E). by exists sg.
  - apply andb_prop in Hro as [Hr1 Hr2].
    destruct (get_signals s w) as (sg & -> & E).
    destruct (p _).
    + destruct (IHc1 n (with_signals sg w) Hr1) as (sg1 & -> & E1); [lia|].
      exists sg1. split; [done|]. by rewrite E1.
    + destruct (IHc2 n (with_signals sg w) Hr2) as (sg2 & -> & E2); [lia|].
      exists sg2. split; [done|]. by rewrite E2.
Qed.

(** Rerunning an effect whose body only reads: one [EvRun], the cursor
    cleared, and nothing else changed but listener sets. *)
Lemma execute_observer n e w :
  observer w e -> depth (body w e) ≤ n ->
  ∃ sg, execute (exec n) e w =
          (World None (batchQueue w) (isBatching w) sg (closures w) (trace w ++ [EvRun e]),
           Normal)
        ∧ state <$> sg = state <$> signals w.
Proof.
  intros Ho Hn. unfold execute. fold (body w e).
  destruct (exec_reads_only (body w e) n
              (with_currentEffect (Some e) (emit (EvRun e) w)) Ho Hn) as (sg & -> & E).
  by exists sg.
Qed.

Lemma forEach_observers n l : ∀ w,
  (∀ e, e ∈ l -> observer w e ∧ depth (body w e) ≤ n) ->
  ∃ sg ce, forEach (exec n) l w =
          (World ce (batchQueue w) (isBatching w) sg (closures w)
                 (trace w ++ (EvRun <$> l)), Normal)
        ∧ state <$> sg = state <$> signals w.
Proof.
  induction l as [|e l IH]; intros w H; simpl.
  - exists (signals w), (currentEffect w). rewrite app_nil_r. by destruct w.
  - destruct (H e) as [Ho Hn]; [left|].
    destruct (execute_observer n e w Ho Hn) as (sg & -> & E).
    set (w1 := World _ _ _ _ _ _).
    destruct (IH w1) as (sg' & ce & -> & E').
    { intros e' He'. apply H. by right. }
    exists sg', ce. simpl. rewrite <- app_assoc. split; [done|]. by rewrite E'.
Qed.



Lemma elem_of_set_add x e l : x ∈ set_add e l ↔ x = e ∨ x ∈ l.
Proof.
  unfold set_add. case_bool_decide as H.
  - split; [by right|]. by intros [->|?].
  - rewrite elem_of_app, list_elem_of_singleton. tauto.
Qed.

Lemma NoDup_set_add e l : NoDup l -> NoDup (set_add e l).
Proof.
  unfold set_add. case_bool_decide; [done|]. intros Hl.
  apply NoDup_app. split_and!; [done| |apply NoDup_singleton].
  intros x Hx ->%list_elem_of_singleton. done.
Qed.

Lemma unique_snoc q x : unique (q ++ [x]) = set_add x (unique q).
Proof. unfold unique. by rewrite foldl_snoc. Qed.

Lemma elem_of_unique x q : x ∈ unique q ↔ x ∈ q.
Proof.
  induction q as [|y q IH] using rev_ind; [done|].
  rewrite unique_snoc, elem_of_set_add, elem_of_app, list_elem_of_singleton. tauto.
Qed.

Lemma NoDup_unique q : NoDup (unique q).
Proof.
  induction q as [|y q IH] using rev_ind; [constructor|].
  rewrite unique_snoc. by apply NoDup_set_add.
Qed.

(** [unique q] lists the elements of [q] in the order in which they first
    occur: when [e1] comes before [e2] in [unique q], some occurrence of [e1]
    in [q] comes before every occurrence of [e2]. *)
Lemma unique_first_order q : ∀ i j e1 e2,
  unique q !! i = Some e1 -> unique q !! j = Some e2 -> i < j ->
  ∃ i', q !! i' = Some e1 ∧ ∀ j', q !! j' = Some e2 -> i' < j'.
Proof.
  induction q as [|x q IH] using rev_ind; intros i j e1 e2; [done|].
  rewrite unique_snoc. unfold set_add. case_bool_decide as Hx.
  - intros H1 H2 Hij. destruct (IH _ _ _ _ H1 H2 Hij) as (i' & Hi' & Hlt).
    exists i'. split; [by apply lookup_app_l_Some|].
    intros j' Hj'. apply lookup_app_Some in Hj' as [Hj'|[Hge Hj']]; [by apply Hlt|].
    apply lookup_lt_Some in Hi'. lia.
  - intros H1 H2 Hij.
    assert (i < length (unique q)) as Hi.
    { apply lookup_lt_Some in H2. rewrite length_app in H2. simpl in H2. lia. }
    rewrite lookup_app_l in H1 by done.
    apply lookup_app_Some in H2 as [H2|[Hge H2]].
    + destruct (IH _ _ _ _ H1 H2 Hij) as (i' & Hi' & Hlt).
      exists i'. split; [by apply lookup_app_l_Some|].
      intros j' Hj'. apply lookup_app_Some in Hj' as [Hj'|[Hge Hj']]; [by apply Hlt|].
      apply lookup_lt_Some in Hi'. lia.
    + apply list_lookup_singleton_Some in H2 as [_ <-].
      assert (e1 ∈ q) as [i' Hi']%list_elem_of_lookup.
      { apply elem_of_unique. by eapply list_elem_of_lookup_2. }
      exists i'. split; [by apply lookup_app_l_Some|].
      intros j' Hj'. apply lookup_app_Some in Hj' as [Hj'|[Hge' Hj']].
      * exfalso. apply Hx, elem_of_unique. by eapply list_elem_of_lookup_2.
      * apply lookup_lt_Some in Hi'. lia.
Qed.

Lemma filter_eq_not_elem_of `{EqDecision A} (x : A) (l : list A) :
  x ∉ l -> filter (λ y, y = x) l = [].
Proof.
  induction l as [|y l IH]; [done|]. intros Hx.
  apply not_elem_of_cons in Hx as [Hne Hx].
  rewrite filter_cons. destruct (decide (y = x)); [congruence|]. by apply IH.
Qed.

Lemma filter_eq_NoDup `{EqDecision A} (x : A) (l : list A) :
  NoDup l -> x ∈ l -> filter (λ y, y = x) l = [x].
Proof.
  induction 1 as [|y l Hy Hl IH]; [by intros ?%elem_of_nil|].
  intros Hx. rewrite filter_cons. destruct (decide (y = x)) as [->|Hne].
  - f_equal. by apply filter_eq_not_elem_of.
  - apply elem_of_cons in Hx as [->|Hx]; [done|]. by apply IH.
Qed.


(** A write while a batch is open: the value is stored and the listeners
    are pushed on the queue; nothing runs. *)
Lemma set_batching run k s next w c :
  isBatching w = true -> signals w !! s = Some c -> Object_is (state c) next = false ->
  set run k s next w =
    (World (currentEffect w) (batchQueue w ++ listeners c) true
           (<[s := Cell next (listeners c)]> (signals w)) (closures w)
           (trace w ++ [EvWrite s next]), Normal).
Proof. intros Hb Hs Hne. unfold set. rewrite Hs, Hne. simpl. rewrite Hb.
  unfold with_batchQueue, emit, with_signals; simpl. by rewrite Hb. Qed.

Lemma set_same run k s next w c :
  signals w !! s = Some c -> Object_is (state c) next = true ->
  set run k s next w = (w, Normal).
Proof. intros Hs He. unfold set. by rewrite Hs, He. Qed.

Lemma changing_writes_subseteq ws : ∀ sg sv, sv ∈ changing_writes sg ws -> sv ∈ ws.
Proof.
  induction ws as [|[s v] ws IH]; intros sg sv; simpl; [done|].
  destruct (sg !! s) as [c|]; [destruct (Object_is _ _)|].
  - intros ?%IH. by right.
  - intros [->|?%IH]%elem_of_cons; [left|by right].
  - intros ?%IH. by right.
Qed.

Lemma writes_batching ws : ∀ n w,
  isBatching w = true -> S (length ws) ≤ n ->
  ∃ w2, exec n (writes ws) w = (w2, Normal)
    ∧ isBatching w2 = true ∧ closures w2 = closures w
    ∧ listeners <$> signals w2 = listeners <$> signals w
    ∧ trace w2 = trace w ++ (write_event <$> changing_writes (signals w) ws)
    ∧ batchQueue w2 =
        batchQueue w ++ mjoin ((λ sv, listenersOf w sv.1) <$> changing_writes (signals w) ws).
Proof.
  induction ws as [|[s v] ws IH]; intros n w Hb Hn; simpl in Hn;
    (destruct n as [|n]; [lia|]).
  - simpl. exists w. by rewrite !app_nil_r.
  - destruct n as [|n]; [lia|].
    change (exec (S (S n)) (writes ((s, v) :: ws)) w) with
      (let '(w1, o) := set (exec n) n s v w in
       match o with Normal => exec (S n) (writes ws) w1 | _ => (w1, o) end).
    destruct (signals w !! s) as [c|] eqn:Hs; [destruct (Object_is (state c) v) eqn:Ho|].
    + rewrite (set_same _ _ _ _ _ _ Hs Ho).
      destruct (IH (S n) w Hb) as (w2 & -> & ?); [lia|].
      exists w2. simpl. by rewrite Hs, Ho.
    + rewrite (set_batching _ _ _ _ _ _ Hb Hs Ho).
      set (w1 := World _ _ _ _ _ _).
      destruct (IH (S n) w1 eq_refl) as (w2 & -> & Hb2 & Hc2 & Hl2 & Ht2 & Hq2); [lia|].
      exists w2. simpl. rewrite Hs, Ho. split_and!; try done.
      * rewrite Hl2. simpl. rewrite list_fmap_insert. simpl.
        apply list_insert_id. by rewrite list_lookup_fmap, Hs.
      * rewrite Ht2. simpl. by rewrite <- app_assoc.
      * rewrite Hq2. simpl. rewrite <- app_assoc. f_equal.
        assert (listenersOf w s = listeners c) as -> by (unfold listenersOf; by rewrite Hs).
        f_equal. f_equal. apply list_fmap_ext. intros _ [s' v'] _. simpl.
        unfold listenersOf, w1; simpl.
        destruct (decide (s = s')) as [<-|Hne].
        -- rewrite list_lookup_insert_eq by (by eapply lookup_lt_Some). by rewrite Hs.
        -- by rewrite list_lookup_insert_ne.
    + unfold set. rewrite Hs.
      destruct (IH (S n) w Hb) as (w2 & -> & ?); [lia|].
      exists w2. simpl. by rewrite Hs.
Qed.


Lemma body_depth w e : depth (body w e) ≤ 1 `max` max_list (depth <$> closures w).
Proof.
  unfold body. destruct (closures w !! e) as [c|] eqn:Hc; simpl; [|lia].
  assert (depth c ≤ max_list (depth <$> closures w)); [|lia].
  apply max_list_elem_of_le, list_elem_of_fmap. exists c. split; [done|].
  by eapply list_elem_of_lookup_2.
Qed.

Lemma listenersOf_fmap w w' s :
  listeners <$> signals w' = listeners <$> signals w -> listenersOf w' s = listenersOf w s.
Proof.
  intros H. unfold listenersOf. by rewrite <- !list_lookup_fmap, H.
Qed.





Lemma ran_extends_l e w0 w w' : extends w0 w -> ran e w w' -> ran e w0 w'.
Proof.
  intros (_ & _ & [k Hk]) (pre & post & H). exists (k ++ pre), post.
  by rewrite H, Hk, <- !app_assoc.
Qed.

Lemma ran_extends_r e w w' w1 : ran e w w' -> extends w' w1 -> ran e w w1.
Proof.
  intros (pre & post & H) (_ & _ & [k Hk]). exists pre, (post ++ k).
  by rewrite Hk, H, <- !app_assoc.
Qed.

Section Visits.
Variable run : cmd -> world -> world * outcome.
Hypothesis run_extends : ∀ c w, extends w (run c w).1.

Lemma execute_ran e w : ran e w (execute run e w).1.
Proof.
  unfold execute.
  pose proof (run_extends (default CSkip (closures w !! e))
                (with_currentEffect (Some e) (emit (EvRun e) w))) as (_ & _ & [k Hk]).
  destruct (run _ _) as [w2 o]. simpl in Hk.
  exists [], k. destruct o; simpl; by rewrite Hk, <- app_assoc.
Qed.

Lemma forEachListener_visits k s : ∀ i w w',
  forEachListener run k s i w = (w', Normal) ->
  ∀ j e, i ≤ j -> listenersOf w s !! j = Some e -> ran e w w'.
Proof.
  induction k as [|k IH]; intros i w w'; simpl.
  - destruct (listenersOf w s !! i) eqn:Hi; [done|].
    intros _ j e Hij Hj. apply lookup_ge_None in Hi. apply lookup_lt_Some in Hj. lia.
  - destruct (listenersOf w s !! i) as [ei|] eqn:Hi.
    + pose proof (execute_ran ei w) as Hran.
      pose proof (execute_extends run run_extends ei w) as Hext.
      destruct (execute run ei w) as [w1 o1]. simpl in Hran, Hext.
      destruct o1; try done. intros Hrest j e Hij Hj.
      destruct (decide (i = j)) as [->|Hne].
      * assert (e = ei) as -> by congruence.
        eapply ran_extends_r; [exact Hran|].
        pose proof (forEachListener_extends run run_extends k s (S j) w1) as H.
        by rewrite Hrest in H.
      * eapply ran_extends_l; [exact Hext|].
        eapply (IH _ _ _ Hrest j); [lia|].
        eapply prefix_lookup_Some; [exact Hj|]. apply Hext.
    + intros _ j e Hij Hj. apply lookup_ge_None in Hi. apply lookup_lt_Some in Hj. lia.
Qed.

(** A value-changing write outside a batch that returns normally has
    entered the closure of every listener. *)
Lemma set_notifies k s next w c w' :
  signals w !! s = Some c -> Object_is (state c) next = false ->
  isBatching w = false ->
  set run k s next w = (w', Normal) ->
  ∃ evs, trace w' = trace w ++ EvWrite s next :: evs
         ∧ ∀ e, e ∈ listeners c -> ∃ pre post, evs = pre ++ EvRun e :: post.
Proof.
  intros Hs Hne Hb. unfold set. rewrite Hs, Hne. simpl. rewrite Hb.
  set (w1 := emit _ _). unfold batch. simpl. rewrite Hb.
  set (w1' := with_batchQueue _ _).
  destruct (forEachListener run k s 0 w1') as [w2 o] eqn:Hfe.
  set (w3 := emit EvRestore _).
  pose proof (forEach_extends run run_extends (unique (batchQueue w2)) w3) as Hext3.
  destruct (forEach run _ w3) as [w4 o'].
  intros H. assert (o = Normal ∧ w4 = w') as [-> ->].
  { destruct o, o'; by simplify_eq. }
  clear H. simpl in Hext3.
  assert (extends w2 w3) as Hext2.
  { unfold w3. etrans; [|apply extends_emit]. by repeat split. }
  assert (extends w1' w') as (_ & _ & [evs Hevs]).
  { etrans; [|etrans; [exact Hext2|exact Hext3]].
    pose proof (forEachListener_extends run run_extends k s 0 w1') as H.
    by rewrite Hfe in H. }
  exists evs. split.
  { rewrite Hevs. unfold w1', w1; simpl. by rewrite <- app_assoc. }
  intros e [j Hj]%list_elem_of_lookup.
  assert (ran e w1' w') as (pre & post & Hran).
  { eapply ran_extends_r; [|etrans; [exact Hext2|exact Hext3]].
    eapply (forEachListener_visits _ _ _ _ _ Hfe j); [lia|].
    unfold listenersOf, w1', w1; simpl.
    rewrite list_lookup_insert_eq by (by eapply lookup_lt_Some). done. }
  exists pre, post. rewrite Hran in Hevs. by apply app_inv_head in Hevs.
Qed.
End Visits.

(** ** Effects that only read *)

Lemma get_keeps_subscribed s0 w e s :
  currentEffect w = Some e -> e ∈ listenersOf w s ->
  listenersOf (get s0 w).1 s = listenersOf w s.
Proof.
  intros Hce He. unfold get. destruct (signals w !! s0) as [c0|] eqn:Hs0; [|done].
  rewrite Hce. simpl. rewrite listenersOf_insert. case_bool_decide as H; [|done].
  destruct H as [<- _]. unfold listenersOf in He |- *. rewrite Hs0 in He |- *. simpl in *.
  unfold set_add. by rewrite bool_decide_eq_true_2.
Qed.

Lemma get_currentEffect s w : currentEffect (get s w).1 = currentEffect w.
Proof. unfold get. destruct (signals w !! s); [|done].
  by destruct (currentEffect w) eqn:E. Qed.

(** A body that only reads, run for an effect that is already subscribed to
    [s]: the listeners of [s] stay as they are. *)
Lemma exec_reads_only_keeps c : ∀ n w,
  reads_only c = true ->
  currentEffect (exec n c w).1 = currentEffect w
  ∧ ∀ e s, currentEffect w = Some e -> e ∈ listenersOf w s ->
           listenersOf (exec n c w).1 s = listenersOf w s.
Proof.
  induction c as [|c1 IH1 c2 IH2|s0|s0 next|dst src f|s0 p c1 IH1 c2 IH2|x|fn _|fn _];
    intros n w Hro; simpl in Hro; try done; (destruct n as [|n]; [done|]); simpl.
  - done.
  - apply andb_prop in Hro as [Hr1 Hr2].
    destruct (IH1 n w Hr1) as [Hce1 Hl1].
    destruct (exec n c1 w) as [w1 o1]. simpl in Hce1, Hl1.
    destruct o1; simpl; [|done..].
    destruct (IH2 n w1 Hr2) as [Hce2 Hl2]. split; [congruence|].
    intros e s Hce He. rewrite (Hl2 e s); [by apply (Hl1 e)|congruence|]. by rewrite (Hl1 e s).
  - split; [apply get_currentEffect|]. intros e s. apply get_keeps_subscribed.
  - apply andb_prop in Hro as [Hr1 Hr2].
    pose proof (get_currentEffect s0 w) as Hce0.
    pose proof (get_keeps_subscribed s0 w) as Hl0.
    destruct (get s0 w) as [w1 v]. simpl in Hce0, Hl0.
    assert (∀ c', reads_only c' = true ->
              (∀ n w, reads_only c' = true ->
                 currentEffect (exec n c' w).1 = currentEffect w
                 ∧ ∀ e s, currentEffect w = Some e -> e ∈ listenersOf w s ->
                     listenersOf (exec n c' w).1 s = listenersOf w s) ->
              currentEffect (exec n c' w1).1 = currentEffect w
              ∧ ∀ e s, currentEffect w = Some e -> e ∈ listenersOf w s ->
                  listenersOf (exec n c' w1).1 s = listenersOf w s) as Hbr.
    { intros c' Hr' IH'. destruct (IH' n w1 Hr') as [Hce Hl]. split; [congruence|].
      intros e s Hc He. rewrite (Hl e s); [by apply (Hl0 e)|congruence|]. by rewrite (Hl0 e s). }
    destruct (p v); by apply Hbr.
Qed.

Lemma execute_observer_keeps n e w s :
  observer w e -> e ∈ listenersOf w s ->
  listenersOf (execute (exec n) e w).1 s = listenersOf w s.
Proof.
  intros Ho He. unfold execute. fold (body w e).
  destruct (exec_reads_only_keeps (body w e) n
              (with_currentEffect (Some e) (emit (EvRun e) w)) Ho) as [_ Hl].
  specialize (Hl e s eq_refl He).
  destruct (exec n _ _) as [w2 o]. simpl in Hl. by destruct o.
Qed.

(** The walk of [set] over the listeners of [s] when they all observe:
    they are entered one after the other, in the order of the set. *)
Lemma forEachListener_observers n s l : ∀ k i w,
  listenersOf w s = l ->
  (∀ e, e ∈ l -> observer w e ∧ depth (body w e) ≤ n) ->
  length l ≤ i + k ->
  ∃ sg ce, forEachListener (exec n) k s i w =
             (World ce (batchQueue w) (isBatching w) sg (closures w)
                    (trace w ++ (EvRun <$> drop i l)), Normal)
           ∧ state <$> sg = state <$> signals w.
Proof.
  induction k as [|k IH]; intros i w Hl Hobs Hlen.
  - assert (listenersOf w s !! i = None) as Hi by (rewrite Hl; apply lookup_ge_None; lia).
    simpl. rewrite Hi. exists (signals w), (currentEffect w).
    rewrite drop_ge by lia. simpl. rewrite app_nil_r. by destruct w.
  - simpl. destruct (listenersOf w s !! i) as [e|] eqn:Hi.
    + rewrite Hl in Hi.
      assert (e ∈ l) as He by (by eapply list_elem_of_lookup_2).
      destruct (Hobs e He) as [Ho Hn].
      pose proof (execute_observer_keeps n e w s Ho ltac:(by rewrite Hl)) as Hkeep.
      destruct (execute_observer n e w Ho Hn) as (sg & Hex & E).
      rewrite Hex in Hkeep |- *. simpl in Hkeep.
      set (w1 := World _ _ _ _ _ _) in *.
      destruct (IH (S i) w1) as (sg' & ce & -> & E'); [congruence|done|lia|].
      exists sg', ce. simpl. split; [|by rewrite E'].
      rewrite <- app_assoc. simpl. by rewrite (drop_S _ _ _ Hi).
    + exists (signals w), (currentEffect w).
      rewrite drop_ge by (rewrite <- Hl; by apply lookup_ge_None). simpl.
      rewrite app_nil_r. by destruct w.
Qed.

Lemma stateOf_fmap w w' s :
  state <$> signals w' = state <$> signals w -> stateOf w' s = stateOf w s.
Proof.
  intros H. unfold stateOf.
  rewrite <- !list_lookup_fmap. by rewrite H.
Qed.

(** The walk of [set] over the listeners of [s] reaches the listener [e]
    when the listeners before it only read: they are entered one after the
    other, and then [e] is, whatever its run and the rest of the walk do. *)
Lemma execute_enters n e w :
  (trace w ++ [EvRun e]) `prefix_of` trace (execute (exec n) e w).1.
Proof.
  unfold execute.
  pose proof (exec_extends n (default CSkip (closures w !! e))
                (with_currentEffect (Some e) (emit (EvRun e) w))) as (_ & _ & H).
  destruct (exec n _ _) as [w2 o]. simpl in H. by destruct o.
Qed.

Lemma forEachListener_reaches n s e post : ∀ pre done k w,
  listenersOf w s = done ++ pre ++ e :: post ->
  (∀ e', e' ∈ pre -> observer w e' ∧ depth (body w e') ≤ n) ->
  length pre < k ->
  (trace w ++ (EvRun <$> pre) ++ [EvRun e])
    `prefix_of` trace (forEachListener (exec n) k s (length done) w).1.
Proof.
  induction pre as [|e' pre IH]; intros done k w Hl Hobs Hk;
    (destruct k as [|k]; [simpl in Hk; lia|]); cbn [forEachListener].
  - rewrite Hl. simpl. rewrite list_lookup_middle by done.
    pose proof (execute_enters n e w) as He.
    pose proof (forEachListener_extends (exec n) (exec_extends n) k s (S (length done))
                  (execute (exec n) e w).1) as (_ & _ & Hext).
    destruct (execute (exec n) e w) as [w1 o]. simpl in He, Hext.
    destruct o; simpl; [by etrans|done..].
  - change ((e' :: pre) ++ e :: post) with (e' :: (pre ++ e :: post)) in Hl.
    rewrite Hl. rewrite list_lookup_middle by done.
    destruct (Hobs e') as [Ho Hn]; [left|].
    assert (e' ∈ listenersOf w s) as Hin.
    { rewrite Hl. apply elem_of_app. right. left. }
    pose proof (execute_observer_keeps n e' w s Ho Hin) as Hkeep.
    destruct (execute_observer n e' w Ho Hn) as (sg & Hex & E).
    rewrite Hex in Hkeep |- *. simpl in Hkeep.
    set (w1 := World _ _ _ _ _ _) in *.
    specialize (IH (done ++ [e']) k w1).
    rewrite length_app, Nat.add_1_r in IH. simpl in IH.
    assert (trace w ++ (EvRun <$> e' :: pre) ++ [EvRun e]
            = trace w1 ++ (EvRun <$> pre) ++ [EvRun e]) as ->.
    { unfold w1. simpl. by rewrite <- app_assoc. }
    apply IH.
    + rewrite Hkeep, Hl. by rewrite <- app_assoc.
    + intros e0 He0. apply (Hobs e0). by right.
    + simpl in Hk. lia.
Qed.

Lemma listenersOf_Some w s e :
  e ∈ listenersOf w s -> ∃ c, signals w !! s = Some c ∧ e ∈ listeners c.
Proof.
  unfold listenersOf. destruct (signals w !! s) as [c|]; simpl;
    [eauto|by intros ?%elem_of_nil].
Qed.

(** ** Batches *)

(** C1 (amended). A batch that is opened while no batch is open, whose
    callback performs N >= 1 value-changing writes to signals [a] and [b]
    that are both subscribed to by the effect [E], reruns [E] exactly once,
    after all the writes ([w2] is the world in which the callback returns):
    provided the subscribers of [a] and [b] only read signals. *)
Theorem batch_single_rerun (w : world) (a b : signal) (E : effect_id)
    (ws : list (signal * value)) :
  isBatching w = false ->
  E ∈ listenersOf w a -> E ∈ listenersOf w b ->
  (∀ sv, sv ∈ ws -> sv.1 = a ∨ sv.1 = b) ->
  1 ≤ length (changing_writes (signals w) ws) ->
  (∀ e, e ∈ listenersOf w a ∨ e ∈ listenersOf w b -> observer w e) ->
  ∃ n0, ∀ n, n0 ≤ n ->
    ∃ w2 w' rs,
      exec n (writes ws) (with_batchQueue [] (with_isBatching true w)) = (w2, Normal)
      ∧ exec (S n) (CBatch (writes ws)) w = (w', Normal)
      ∧ trace w2 = trace w ++ (write_event <$> changing_writes (signals w) ws)
      ∧ trace w' = trace w2 ++ [EvRestore] ++ (EvRun <$> rs)
      ∧ filter (λ e, e = E) rs = [E]
      ∧ state <$> signals w' = state <$> signals w2.
Proof.
  intros Hb Ha Hb' Hws Hn Hobs.
  exists (S (length ws) `max` (1 `max` max_list (depth <$> closures w))).
  intros n Hfuel.
  set (w1 := with_batchQueue [] (with_isBatching true w)).
  destruct (writes_batching ws n w1 eq_refl) as (w2 & Hfn & Hb2 & Hc2 & Hl2 & Ht2 & Hq2); [lia|].
  change (exec (S n) (CBatch (writes ws)) w)
    with (batch (exec n) (exec n (writes ws)) w).
  unfold batch. rewrite Hb. fold w1. rewrite Hfn.
  set (w3 := emit EvRestore _).
  assert (∀ e, e ∈ batchQueue w2 -> e ∈ listenersOf w a ∨ e ∈ listenersOf w b) as Hin.
  { intros e. rewrite Hq2. simpl. intros (l & Hel & Hl)%list_elem_of_join.
    apply list_elem_of_fmap in Hl as (sv & -> & Hsv).
    change (e ∈ listenersOf w sv.1) in Hel.
    apply changing_writes_subseteq, Hws in Hsv as [Hs|Hs]; rewrite Hs in Hel; [by left|by right]. }
  destruct (forEach_observers n (unique (batchQueue w2)) w3) as (sg & ce & -> & Hst).
  { intros e He. apply (proj1 (elem_of_unique _ _)) in He. split.
    - unfold observer, body, w3; simpl. rewrite Hc2.
      change (observer w e). by apply Hobs, Hin.
    - etrans; [apply body_depth|]. unfold w3; simpl. rewrite Hc2. simpl. lia. }
  eexists w2, _, (unique (batchQueue w2)). split_and!; try done.
  - unfold w3; simpl. by rewrite <- app_assoc.
  - apply filter_eq_NoDup; [apply NoDup_unique|]. apply elem_of_unique.
    rewrite Hq2. simpl.
    destruct (changing_writes (signals w) ws) as [|sv cw] eqn:Hcw; [simpl in Hn; lia|].
    simpl. apply elem_of_app. left. change (E ∈ listenersOf w sv.1).
    assert (sv ∈ ws) as Hsv by (apply (changing_writes_subseteq _ (signals w)); rewrite Hcw; left).
    apply Hws in Hsv as [Hs|Hs]; by rewrite Hs.
Qed.

Lemma batch_single_rerun_witness :
  ∃ n0, ∀ n, n0 ≤ n ->
    ∃ w2 w' rs,
      exec n (writes [(0, VInt 1); (1, VInt 2)])
           (with_batchQueue [] (with_isBatching true observed_pair)) = (w2, Normal)
      ∧ exec (S n) (CBatch (writes [(0, VInt 1); (1, VInt 2)])) observed_pair = (w', Normal)
      ∧ trace w2 = trace observed_pair
                   ++ (write_event <$> changing_writes (signals observed_pair)
                                         [(0, VInt 1); (1, VInt 2)])
      ∧ trace w' = trace w2 ++ [EvRestore] ++ (EvRun <$> rs)
      ∧ filter (λ e, e = 0) rs = [0]
      ∧ state <$> signals w' = state <$> signals w2.
Proof.
  apply (batch_single_rerun observed_pair 0 1 0 [(0, VInt 1); (1, VInt 2)]).
  - reflexivity.
  - by apply (bool_decide_unpack _).
  - by apply (bool_decide_unpack _).
  - intros sv Hsv. apply elem_of_cons in Hsv as [->|Hsv]; [by left|].
    apply elem_of_cons in Hsv as [->|Hsv]; [by right|]. by apply elem_of_nil in Hsv.
  - vm_compute. lia.
  - intros e [He|He]; vm_compute in He; apply list_elem_of_singleton in He; subst e;
      reflexivity.
Defined.

(** C1 as stated fails. In [derived_pair] the effect [0] subscribes to both
    signals and the batch performs one value-changing write, yet the effect
    is rerun twice: its rerun by the flush writes signal [1], and that write,
    made when no batch is open, notifies it again. And a batch called inside
    an open batch reruns nothing: in [observed_pair] the only rerun comes
    when the enclosing batch closes, after a write that the inner batch did
    not make. *)
Lemma batch_rerun_counterexample :
  (isBatching derived_pair = false
   ∧ 0 ∈ listenersOf derived_pair 0 ∧ 0 ∈ listenersOf derived_pair 1
   ∧ length (changing_writes (signals derived_pair) [(0, VInt 1)]) = 1
   ∧ ∀ n, 10 ≤ n ->
       ∃ w', exec n (CBatch (writes [(0, VInt 1)])) derived_pair = (w', Normal)
             ∧ since derived_pair w' =
                 [EvWrite 0 (VInt 1); EvRestore; EvRun 0;
                  EvWrite 1 (VInt 1); EvRun 0; EvRestore]
             ∧ reruns 0 derived_pair w' = 2)
  ∧ (0 ∈ listenersOf observed_pair 0 ∧ 0 ∈ listenersOf observed_pair 1
     ∧ ∀ n, 10 ≤ n ->
       ∃ w', exec n (CBatch (CSeq (CBatch (writes [(0, VInt 1); (1, VInt 2)]))
                                  (CSet 0 (VInt 5))))
               observed_pair = (w', Normal)
             ∧ since observed_pair w' =
                 [EvWrite 0 (VInt 1); EvWrite 1 (VInt 2); EvWrite 0 (VInt 5);
                  EvRestore; EvRun 0]).
Proof.
  split.
  - split_and!; [reflexivity | by apply (bool_decide_unpack _)
                 | by apply (bool_decide_unpack _) | reflexivity |].
    intros n Hn. eexists. split_and!.
    + eapply (exec_fuel_mono 10); [exact Hn| |done]. vm_compute. reflexivity.
    + reflexivity.
    + reflexivity.
  - split_and!; [by apply (bool_decide_unpack _) | by apply (bool_decide_unpack _) |].
    intros n Hn. eexists. split.
    + eapply (exec_fuel_mono 10); [exact Hn| |done]. vm_compute. reflexivity.
    + reflexivity.
Qed.

(** C4 (amended). When the callback of a batch that opens a fresh batch
    throws [x] (in the world [w2]), the queue is deduplicated, the queue that
    was pending on entry is restored, and then each pending effect is rerun
    exactly once, in the order in which the effects were first enqueued;
    only then does [x] reach the caller. The restoration comes first, not
    last. The pending effects are taken to only read signals. *)
Theorem batch_flushes_when_fn_throws (w : world) (fn : cmd) (n : nat) (w2 : world)
    (x : value) :
  isBatching w = false ->
  exec n fn (with_batchQueue [] (with_isBatching true w)) = (w2, Throws x) ->
  (∀ e, e ∈ batchQueue w2 -> observer w2 e) ->
  ∃ n0, ∀ m, n0 ≤ m ->
    ∃ w', exec (S m) (CBatch fn) w = (w', Throws x)
      ∧ trace w' = trace w2 ++ [EvRestore] ++ (EvRun <$> unique (batchQueue w2))
      ∧ NoDup (unique (batchQueue w2))
      ∧ (∀ e, e ∈ unique (batchQueue w2) ↔ e ∈ batchQueue w2)
      ∧ (∀ i j e1 e2,
           unique (batchQueue w2) !! i = Some e1 -> unique (batchQueue w2) !! j = Some e2 ->
           i < j ->
           ∃ i', batchQueue w2 !! i' = Some e1
                 ∧ ∀ j', batchQueue w2 !! j' = Some e2 -> i' < j')
      ∧ batchQueue w' = batchQueue w ∧ isBatching w' = false.
Proof.
  intros Hb Hfn Hobs.
  exists (n `max` (1 `max` max_list (depth <$> closures w2))). intros m Hm.
  change (exec (S m) (CBatch fn) w) with (batch (exec m) (exec m fn) w).
  unfold batch. rewrite Hb.
  rewrite (exec_fuel_mono n m _ _ _ _ ltac:(lia) Hfn ltac:(done)).
  set (w3 := emit EvRestore _).
  destruct (forEach_observers m (unique (batchQueue w2)) w3) as (sg & ce & -> & Hst).
  { intros e He. apply (proj1 (elem_of_unique _ _)) in He. split.
    - by apply Hobs.
    - etrans; [apply body_depth|]. unfold w3; simpl. lia. }
  eexists. split_and!; try done.
  - unfold w3; simpl. by rewrite <- app_assoc.
  - apply NoDup_unique.
  - intros e. apply elem_of_unique.
  - apply unique_first_order.
Qed.

Lemma batch_flushes_when_fn_throws_witness :
  ∃ n0, ∀ m, n0 ≤ m ->
    ∃ w', exec (S m) (CBatch throwing_fn) observed_pair = (w', Throws VNull)
      ∧ trace w' = trace thrown_pair ++ [EvRestore]
                   ++ (EvRun <$> unique (batchQueue thrown_pair))
      ∧ NoDup (unique (batchQueue thrown_pair))
      ∧ (∀ e, e ∈ unique (batchQueue thrown_pair) ↔ e ∈ batchQueue thrown_pair)
      ∧ (∀ i j e1 e2,
           unique (batchQueue thrown_pair) !! i = Some e1 ->
           unique (batchQueue thrown_pair) !! j = Some e2 ->
           i < j ->
           ∃ i', batchQueue thrown_pair !! i' = Some e1
                 ∧ ∀ j', batchQueue thrown_pair !! j' = Some e2 -> i' < j')
      ∧ batchQueue w' = batchQueue observed_pair ∧ isBatching w' = false.
Proof.
  apply (batch_flushes_when_fn_throws observed_pair throwing_fn 5 thrown_pair VNull).
  - reflexivity.
  - vm_compute. reflexivity.
  - intros e He. vm_compute in He. apply list_elem_of_singleton in He. subst e.
    reflexivity.
Defined.

(** C4 as stated fails in two ways. In [observed_pair] the batch whose
    callback writes signal [0] and throws restores the queue before it
    reruns the effect. And a pending effect is not always rerun exactly
    once: in [derived_pair] the pending effect writes signal [1], which it
    reads, and that write, made when the batch is closed, reruns it a
    second time. *)
Lemma batch_restore_order_counterexample :
  (∃ w', exec 10 (CBatch throwing_fn) observed_pair = (w', Throws VNull)
         ∧ since observed_pair w' = [EvWrite 0 (VInt 1); EvRestore; EvRun 0]
         ∧ ¬ reruns_before_restore (since observed_pair w'))
  ∧ (∃ w', exec 10 (CBatch throwing_fn) derived_pair = (w', Throws VNull)
           ∧ since derived_pair w'
             = [EvWrite 0 (VInt 1); EvRestore; EvRun 0; EvWrite 1 (VInt 1); EvRun 0; EvRestore]
           ∧ reruns 0 derived_pair w' = 2).
Proof.
  split.
  - eexists. split_and!; [vm_compute; reflexivity | reflexivity |].
    intros H. specialize (H 2 1 0 eq_refl eq_refl). lia.
  - eexists. split_and!; [vm_compute; reflexivity | reflexivity..].
Qed.

(** ** Signals *)







(** In [conditional_reader], once signal [0] no longer holds [0] the effect
    stops reading signal [1]; a write to signal [1] reruns it all the same. *)
Example stale_subscription_still_notifies :
  ∃ w1 w2,
    exec 10 (CSet 0 (VInt 1)) conditional_reader = (w1, Normal)
    ∧ since conditional_reader w1 = [EvWrite 0 (VInt 1); EvRun 0; EvRestore]
    ∧ exec 10 (CSet 1 (VInt 7)) w1 = (w2, Normal)
    ∧ since w1 w2 = [EvWrite 1 (VInt 7); EvRun 0; EvRestore].
Proof.
  eexists _, _. split_and!; [vm_compute; reflexivity | reflexivity
                             | vm_compute; reflexivity | reflexivity].
Qed.

(** ** Effects *)

(** C5 fails on the code. [effect(() => { throw x })] lets [x] through and
    leaves the cursor on the effect it has just created; the next read of
    any signal outside every effect subscribes that effect to it. *)
Theorem effect_throw_leaves_cursor (n : nat) (w : world) (x : value) :
  let e := length (closures w) in
  let r := exec (S (S n)) (CEffect (CThrow x)) w in
  r.2 = Throws x
  ∧ currentEffect r.1 = Some e
  ∧ ∀ s c, signals w !! s = Some c ->
      listenersOf (get s r.1).1 s = set_add e (listeners c).
Proof.
  simpl. unfold effect, execute; simpl.
  rewrite lookup_app_r by done. rewrite Nat.sub_diag. simpl.
  split_and!; try done.
  intros s c Hs. unfold get; simpl. rewrite Hs.
  unfold listenersOf; simpl.
  rewrite list_lookup_insert_eq by (by eapply lookup_lt_Some). done.
Qed.

(** ** The batching variables *)

Lemma batching_kept_refl w : batching_kept w w.
Proof. split; [done|]. by destruct (isBatching w). Qed.

Lemma batching_kept_trans w1 w2 w3 :
  batching_kept w1 w2 -> batching_kept w2 w3 -> batching_kept w1 w3.
Proof.
  intros [Hb1 Hq1] [Hb2 Hq2]. rewrite Hb1 in Hb2, Hq2. split; [done|].
  destruct (isBatching w1); [by etrans | congruence].
Qed.

Section Batching.
Variable run : cmd -> world -> world * outcome.
Hypothesis run_kept : ∀ c w w' o,
  run c w = (w', o) -> o ≠ OutOfFuel -> batching_kept w w'.

Lemma execute_kept e w w' o :
  execute run e w = (w', o) -> o ≠ OutOfFuel -> batching_kept w w'.
Proof.
  unfold execute. destruct (run _ _) as [w2 o2] eqn:Hr. intros H Ho.
  assert (o2 ≠ OutOfFuel) as Ho2 by (destruct o2; simplify_eq; done).
  pose proof (run_kept _ _ _ _ Hr Ho2) as [Hb Hq]. simpl in Hb, Hq.
  destruct o2; simplify_eq; by split.
Qed.

Lemma forEach_kept l : ∀ w w' o,
  forEach run l w = (w', o) -> o ≠ OutOfFuel -> batching_kept w w'.
Proof.
  induction l as [|e l IH]; intros w w' o; simpl.
  - intros [= <- <-] _. apply batching_kept_refl.
  - destruct (execute run e w) as [w1 o1] eqn:He. intros H Ho.
    assert (o1 ≠ OutOfFuel) as Ho1 by (destruct o1; simplify_eq; done).
    pose proof (execute_kept _ _ _ _ He Ho1) as H1.
    destruct o1; simplify_eq; [|done].
    eapply batching_kept_trans; [exact H1|]. by eapply IH.
Qed.

Lemma forEachListener_kept k s : ∀ i w w' o,
  forEachListener run k s i w = (w', o) -> o ≠ OutOfFuel -> batching_kept w w'.
Proof.
  induction k as [|k IH]; intros i w w' o; simpl.
  - destruct (listenersOf w s !! i); intros [= <- <-] Ho; [done|].
    apply batching_kept_refl.
  - destruct (listenersOf w s !! i) as [e|].
    + destruct (execute run e w) as [w1 o1] eqn:He. intros H Ho.
      assert (o1 ≠ OutOfFuel) as Ho1 by (destruct o1; simplify_eq; done).
      pose proof (execute_kept _ _ _ _ He Ho1) as H1.
      destruct o1; simplify_eq; [|done].
      eapply batching_kept_trans; [exact H1|]. by eapply IH.
    + intros [= <- <-] _. apply batching_kept_refl.
Qed.

Lemma batch_kept fn w w' o :
  (∀ w w' o, fn w = (w', o) -> o ≠ OutOfFuel -> batching_kept w w') ->
  batch run fn w = (w', o) -> o ≠ OutOfFuel -> batching_kept w w'.
Proof.
  intros Hfn. unfold batch. destruct (isBatching w) eqn:Hb; [apply Hfn|].
  destruct (fn _) as [w2 o2] eqn:Hf.
  destruct (decide (o2 = OutOfFuel)) as [->|Ho2]; [by intros [= <- <-]|].
  pose proof (Hfn _ _ _ Hf Ho2) as [Hb2 _]. simpl in Hb2.
  destruct (forEach _ _ _) as [w4 o4] eqn:Hfl. intros H Ho.
  assert (o4 ≠ OutOfFuel) as Ho4 by (destruct o2, o4; simplify_eq; done).
  pose proof (forEach_kept _ _ _ _ Hfl Ho4) as [Hb4 Hq4]. simpl in Hb4, Hq4.
  assert (w' = w4) as -> by (destruct o2, o4; simplify_eq; done).
  split; rewrite Hb; done.
Qed.

Lemma set_kept k s next w w' o :
  set run k s next w = (w', o) -> o ≠ OutOfFuel -> batching_kept w w'.
Proof.
  unfold set. destruct (signals w !! s) as [c|];
    [|intros [= <- <-] _; apply batching_kept_refl].
  destruct (Object_is _ _); [intros [= <- <-] _; apply batching_kept_refl|].
  cbn [isBatching emit with_signals]. destruct (isBatching w) eqn:Hb.
  - intros [= <- <-] _. split; simpl; rewrite Hb; [done|]. by apply prefix_app_r.
  - intros H Ho.
    eapply (batching_kept_trans _ (emit (EvWrite s next)
              (with_signals (<[s:=Cell next (listeners c)]> (signals w)) w))).
    + split; simpl; rewrite Hb; done.
    + eapply batch_kept; [|exact H|exact Ho]. apply forEachListener_kept.
Qed.

Lemma get_kept s w : batching_kept w (get s w).1.
Proof.
  unfold get. destruct (signals w !! s); [|apply batching_kept_refl].
  destruct (currentEffect w); [|apply batching_kept_refl].
  split; simpl; [done|]. by destruct (isBatching w).
Qed.

Lemma step_kept k c w w' o :
  step run k c w = (w', o) -> o ≠ OutOfFuel -> batching_kept w w'.
Proof.
  destruct c as [|c1 c2|s|s next|dst src f|s p c1 c2|x|fn|fn]; simpl.
  - intros [= <- <-] _. apply batching_kept_refl.
  - destruct (run c1 w) as [w1 o1] eqn:H1. intros H Ho.
    assert (o1 ≠ OutOfFuel) as Ho1 by (destruct o1; simplify_eq; done).
    pose proof (run_kept _ _ _ _ H1 Ho1) as K1.
    destruct o1; simplify_eq; [|done].
    eapply batching_kept_trans; [exact K1|]. by eapply run_kept.
  - intros [= <- <-] _. apply get_kept.
  - apply set_kept.
  - pose proof (get_kept src w) as K. destruct (get src w) as [w1 v]. intros H Ho.
    eapply batching_kept_trans; [exact K|]. by eapply set_kept.
  - pose proof (get_kept s w) as K. destruct (get s w) as [w1 v]. intros H Ho.
    eapply batching_kept_trans; [exact K|]. destruct (p v); by eapply run_kept.
  - intros [= <- <-] _. apply batching_kept_refl.
  - apply batch_kept. apply run_kept.
  - unfold effect. intros H Ho.
    eapply (batching_kept_trans _ (with_closures (closures w ++ [fn]) w)).
    + split; simpl; [done|]. by destruct (isBatching w).
    + by eapply execute_kept.
Qed.
End Batching.

(** Whatever a call does, and whether it returns or throws, it leaves the
    batching variables in order: a call made outside a batch ends outside a
    batch with the queue it found, a call made inside a batch ends inside it
    and has at most appended to the queue. *)
Theorem batching_state_is_restored (n : nat) (c : cmd) (w w' : world) (o : outcome) :
  exec n c w = (w', o) -> o ≠ OutOfFuel -> batching_kept w w'.
Proof.
  revert c w w' o. induction n as [|n IH]; intros c w w' o; simpl.
  - by intros [= <- <-].
  - by apply step_kept.
Qed.

Lemma batching_state_is_restored_witness :
  batching_kept observed_pair (exec 10 (CBatch throwing_fn) observed_pair).1.
Proof.
  apply (batching_state_is_restored 10 (CBatch throwing_fn) observed_pair _ (Throws VNull)).
  - vm_compute. reflexivity.
  - discriminate.
Defined.

(** ** Writes outside a batch *)

(** A write outside a batch to a signal whose subscribers only read: the
    value is stored, every subscriber is rerun once in the order of
    subscription, inside a batch that the write opens and closes, and no
    other signal changes its value. *)
Theorem set_reruns_subscribers_in_order (s : signal) (next : value) (w : world) (c : cell) :
  signals w !! s = Some c -> Object_is (state c) next = false ->
  isBatching w = false ->
  (∀ e, e ∈ listeners c -> observer w e) ->
  ∃ n0, ∀ n, n0 ≤ n ->
    ∃ w', exec (S n) (CSet s next) w = (w', Normal)
      ∧ since w w' = EvWrite s next :: (EvRun <$> listeners c) ++ [EvRestore]
      ∧ stateOf w' s = next
      ∧ ∀ s', s' ≠ s -> stateOf w' s' = stateOf w s'.
Proof.
  intros Hs Hne Hb Hobs.
  exists (length (listeners c) `max` (1 `max` max_list (depth <$> closures w))).
  intros n Hn. simpl. unfold set. rewrite Hs, Hne.
  set (w1 := emit _ _). cbn [isBatching w1 emit with_signals]. rewrite Hb.
  unfold batch. cbn [isBatching w1 emit with_signals]. rewrite Hb.
  set (w0 := with_batchQueue [] (with_isBatching true w1)).
  assert (listenersOf w0 s = listeners c) as Hl0.
  { unfold listenersOf, w0, w1. simpl.
    rewrite list_lookup_insert_eq by (by eapply lookup_lt_Some). done. }
  destruct (forEachListener_observers n s (listeners c) n 0 w0 Hl0)
    as (sg & ce & -> & E); [|lia|].
  { intros e He. split; [by apply Hobs|].
    pose proof (body_depth w e). change (body w0 e) with (body w e). lia. }
  simpl. eexists. split; [done|]. split_and!.
  - unfold since. simpl. rewrite <- !app_assoc. by rewrite drop_app_length.
  - unfold stateOf. simpl. rewrite <- list_lookup_fmap, E. simpl.
    rewrite list_fmap_insert, list_lookup_insert_eq; [done|].
    rewrite length_fmap. by eapply lookup_lt_Some.
  - intros s' Hne'. unfold stateOf. simpl. rewrite <- !list_lookup_fmap, E. simpl.
    by rewrite list_fmap_insert, list_lookup_insert_ne.
Qed.

Lemma set_reruns_subscribers_in_order_witness :
  ∃ n0, ∀ n, n0 ≤ n ->
    ∃ w', exec (S n) (CSet 0 (VInt 5)) observed_pair = (w', Normal)
      ∧ since observed_pair w' = EvWrite 0 (VInt 5) :: (EvRun <$> [0]) ++ [EvRestore]
      ∧ stateOf w' 0 = VInt 5
      ∧ ∀ s', s' ≠ 0 -> stateOf w' s' = stateOf observed_pair s'.
Proof.
  apply (set_reruns_subscribers_in_order 0 (VInt 5) observed_pair (Cell (VInt 0) [0])).
  - reflexivity.
  - reflexivity.
  - reflexivity.
  - intros e ->%list_elem_of_singleton. reflexivity.
Defined.

(** ** How batches and effects compose *)

Lemma batch_inner run fn fn' w w' o :
  (∀ w0 w' o, isBatching w0 = true -> fn w0 = (w', o) -> o ≠ OutOfFuel ->
              fn' w0 = (w', o)) ->
  batch run fn w = (w', o) -> o ≠ OutOfFuel -> batch run fn' w = (w', o).
Proof.
  intros Hfn. unfold batch. destruct (isBatching w) eqn:Hb; [by apply Hfn|].
  destruct (fn _) as [w2 o2] eqn:Hf. intros H Ho.
  assert (o2 ≠ OutOfFuel) as Ho2 by (destruct o2; simplify_eq; done).
  by rewrite (Hfn (with_batchQueue [] (with_isBatching true w)) _ _ eq_refl Hf Ho2).
Qed.

(** A batch opened inside a batch adds nothing: [batch(() => { batch(fn);
    g })] does what [batch(() => { fn; g })] does, the effects that [fn]
    has made pending are run when the outer batch closes. *)
Theorem nested_batch_is_flattened (n : nat) (fn g : cmd) (w w' : world) (o : outcome) :
  o ≠ OutOfFuel ->
  (exec n (CBatch (CSeq (CBatch fn) g)) w = (w', o) ->
   exec n (CBatch (CSeq fn g)) w = (w', o))
  ∧ (exec n (CBatch (CSeq fn g)) w = (w', o) ->
     exec (S n) (CBatch (CSeq (CBatch fn) g)) w = (w', o)).
Proof.
  intros Ho. split.
  - destruct n as [|n]; [by intros [= <- <-]|]. simpl. intros H.
    eapply batch_inner; [|exact H|exact Ho].
    clear. intros w0 w' o Hb H Ho.
    destruct n as [|n]; [by simplify_eq/=|]. simpl in H |- *.
    destruct (exec n (CBatch fn) w0) as [w1 o1] eqn:H1.
    assert (o1 ≠ OutOfFuel) as Ho1 by (destruct o1; simplify_eq; done).
    assert (exec n fn w0 = (w1, o1)) as ->; [|done].
    destruct n as [|n]; [by simplify_eq/=|]. simpl in H1. unfold batch in H1.
    rewrite Hb in H1. by apply (exec_fuel_mono n (S n)); [lia|..].
  - destruct n as [|n]; [by intros [= <- <-]|]. intros H.
    change (batch (exec (S n)) (exec (S n) (CSeq (CBatch fn) g)) w = (w', o)).
    simpl in H.
    assert (batch (exec (S n)) (exec n (CSeq fn g)) w = (w', o)) as H'.
    { eapply batch_refines; [apply exec_S_refines| |exact H|exact Ho]. by intros. }
    eapply batch_inner; [|exact H'|exact Ho].
    clear. intros w0 w' o Hb H Ho.
    destruct n as [|n]; [by simplify_eq/=|]. simpl in H.
    change (exec (S (S n)) (CSeq (CBatch fn) g) w0)
      with (let '(w1, o1) := exec (S n) (CBatch fn) w0 in
            match o1 with Normal => exec (S n) g w1 | _ => (w1, o1) end).
    destruct (exec n fn w0) as [w1 o1] eqn:H1.
    assert (o1 ≠ OutOfFuel) as Ho1 by (destruct o1; simplify_eq; done).
    assert (exec (S n) (CBatch fn) w0 = (w1, o1)) as ->.
    { simpl. unfold batch. by rewrite Hb. }
    destruct o1; simplify_eq; [|done].
    by apply (exec_fuel_mono n (S n)); [lia|..].
Qed.

Lemma nested_batch_is_flattened_witness :
  exec 11 (CBatch (CSeq (CBatch (CSet 0 (VInt 1))) (CSet 1 (VInt 2)))) observed_pair
  = ((exec 10 (CBatch (CSeq (CSet 0 (VInt 1)) (CSet 1 (VInt 2)))) observed_pair).1, Normal).
Proof.
  apply (proj2 (nested_batch_is_flattened 10 (CSet 0 (VInt 1)) (CSet 1 (VInt 2))
                  observed_pair _ Normal ltac:(discriminate))).
  vm_compute. reflexivity.
Defined.

(** [effect(fn)] ends with [currentEffect = null], whatever the cursor was
    when it was called: called from the body of another effect, it leaves
    the rest of that body untracked, and a read that follows it subscribes
    nobody. *)
Theorem effect_leaves_no_cursor (n : nat) (fn : cmd) (s : signal) (w w1 : world) :
  exec n (CEffect fn) w = (w1, Normal) ->
  currentEffect w1 = None
  ∧ exec (S n) (CSeq (CEffect fn) (CGet s)) w = (w1, Normal).
Proof.
  intros H.
  assert (currentEffect w1 = None) as Hce.
  { destruct n as [|n]; [done|]. simpl in H. unfold effect, execute in H.
    destruct (exec n _ _) as [w2 o]. destruct o; by simplify_eq. }
  split; [done|].
  change (exec (S n) (CSeq (CEffect fn) (CGet s)) w)
    with (let '(w1, o1) := exec n (CEffect fn) w in
          match o1 with Normal => exec n (CGet s) w1 | _ => (w1, o1) end).
  rewrite H. destruct n as [|n]; [done|]. simpl.
  unfold get. rewrite Hce. by destruct (signals w1 !! s).
Qed.

Lemma effect_leaves_no_cursor_witness :
  currentEffect (exec 5 (CEffect (CGet 0))
                   (with_currentEffect (Some 0) observed_pair)).1 = None
  ∧ exec 6 (CSeq (CEffect (CGet 0)) (CGet 1)) (with_currentEffect (Some 0) observed_pair)
    = ((exec 5 (CEffect (CGet 0)) (with_currentEffect (Some 0) observed_pair)).1, Normal).
Proof.
  apply (effect_leaves_no_cursor 5 (CGet 0) 1 (with_currentEffect (Some 0) observed_pair)).
  vm_compute. reflexivity.
Defined.

Lemma forEach_app run l1 l2 w :
  forEach run (l1 ++ l2) w =
  let '(w1, o) := forEach run l1 w in
  match o with Normal => forEach run l2 w1 | _ => (w1, o) end.
Proof.
  revert w. induction l1 as [|e l1 IH]; intros w; simpl.
  - by destruct (forEach run l2 w).
  - destruct (execute run e w) as [w1 o]. destruct o; [apply IH|done..].
Qed.

(** The flush of a batch whose pending effects only read signals, up to one
    that reads signals and then throws: the flush stops at that effect, the
    effects queued behind it are not run, the exception takes the place of
    the outcome of [fn] (an exception of [fn] is lost), and the cursor
    stays on the effect that threw (it has started no effect of its own,
    which would have cleared the cursor). The batching variables are
    restored all the same. *)
Theorem flush_stops_at_first_throw (w : world) (fn : cmd) (n : nat) (w2 : world)
    (o : outcome) (pre rest : list effect_id) (e : effect_id) (r : cmd) (x : value) :
  isBatching w = false ->
  exec n fn (with_batchQueue [] (with_isBatching true w)) = (w2, o) -> o ≠ OutOfFuel ->
  unique (batchQueue w2) = pre ++ e :: rest ->
  (∀ e', e' ∈ pre -> observer w2 e') ->
  body w2 e = CSeq r (CThrow x) -> reads_only r = true ->
  ∃ n0, ∀ m, n0 ≤ m ->
    ∃ w', exec (S m) (CBatch fn) w = (w', Throws x)
      ∧ trace w' = trace w2 ++ [EvRestore] ++ (EvRun <$> pre) ++ [EvRun e]
      ∧ currentEffect w' = Some e
      ∧ isBatching w' = false ∧ batchQueue w' = batchQueue w.
Proof.
  intros Hb Hfn Ho Hq Hobs Hthrow Hr.
  exists (n `max` (S (1 `max` max_list (depth <$> closures w2)))). intros m Hm.
  simpl. unfold batch. rewrite Hb.
  rewrite (exec_fuel_mono n m _ _ _ _ ltac:(lia) Hfn Ho).
  assert (∀ A (a b : A), match o with OutOfFuel => a | _ => b end = b) as -> by (by destruct o).
  rewrite Hq, forEach_app.
  set (w3 := emit EvRestore _).
  destruct (forEach_observers m pre w3) as (sg & ce & -> & E).
  { intros e' He'. split; [by apply Hobs|].
    pose proof (body_depth w2 e'). change (body w3 e') with (body w2 e'). lia. }
  set (w4 := World _ _ _ _ _ _).
  cbn [forEach]. unfold execute. change (closures w4) with (closures w2).
  fold (body w2 e).
  pose proof (body_depth w2 e) as Hd. rewrite Hthrow in Hd |- *. simpl in Hd.
  destruct m as [|m]; [lia|]. cbn [exec step].
  destruct (exec_reads_only r m (with_currentEffect (Some e) (emit (EvRun e) w4)) Hr)
    as (sg' & -> & E'); [lia|].
  destruct m as [|m]; [lia|]. simpl.
  eexists. split; [by destruct o|]. simpl. split_and!; try done.
  by rewrite <- !app_assoc.
Qed.

Lemma flush_stops_at_first_throw_witness :
  ∃ n0, ∀ m, n0 ≤ m ->
    ∃ w', exec (S m) (CBatch (CSeq (CSet 0 (VInt 1)) (CThrow VNull)))
               (exec 5 (CEffect (CSeq (CGet 0) (CThrow (VInt 7)))) two_cells).1
          = (w', Throws (VInt 7))
      ∧ trace w' = trace (exec 5 (CSeq (CSet 0 (VInt 1)) (CThrow VNull))
                            (with_batchQueue [] (with_isBatching true
                               (exec 5 (CEffect (CSeq (CGet 0) (CThrow (VInt 7))))
                                  two_cells).1))).1
                   ++ [EvRestore] ++ (EvRun <$> []) ++ [EvRun 0]
      ∧ currentEffect w' = Some 0
      ∧ isBatching w' = false
      ∧ batchQueue w' = batchQueue (exec 5 (CEffect (CSeq (CGet 0) (CThrow (VInt 7))))
                                      two_cells).1.
Proof.
  eapply (flush_stops_at_first_throw _ _ 5 _ (Throws VNull) [] [] 0 (CGet 0) (VInt 7)).
  - reflexivity.
  - vm_compute. reflexivity.
  - discriminate.
  - reflexivity.
  - intros e' He'. by apply elem_of_nil in He'.
  - reflexivity.
  - reflexivity.
Defined.

(** ** A signal derived from another *)

(** One run, inside a batch, of an effect that stores [f] of the signal [a]
    in the signal [b] and is subscribed to [a] already: [b] is written and
    its subscribers are queued. *)
Lemma execute_derived m e a b f w va la cb :
  a ≠ b -> isBatching w = true ->
  closures w !! e = Some (CSetFrom b a f) ->
  signals w !! a = Some (Cell va la) -> e ∈ la ->
  signals w !! b = Some cb ->
  Object_is (state cb) (f va) = false ->
  execute (exec (S m)) e w
  = (World None (batchQueue w ++ listeners cb) true
           (<[b := Cell (f va) (listeners cb)]> (signals w)) (closures w)
           (trace w ++ [EvRun e; EvWrite b (f va)]), Normal).
Proof.
  intros Hab Hbat He Ha Hin Hb Hnb.
  unfold execute. rewrite He. cbn [default from_option id exec step].
  unfold get. cbn [signals currentEffect with_currentEffect emit]. rewrite Ha.
  cbn [state listeners]. unfold set_add. rewrite bool_decide_eq_true_2 by done.
  rewrite list_insert_id by done.
  unfold set. cbn [signals with_signals]. rewrite Hb, Hnb.
  set (w1 := emit _ _). change (isBatching w1) with (isBatching w). rewrite Hbat.
  unfold w1, with_currentEffect, with_batchQueue, emit, with_signals. cbn.
  rewrite Hbat, <- app_assoc. done.
Qed.

(** The effect [e] keeps the signal [b] at [f] of the signal [a]
    ([effect(() => setB(f(getA())))]) and is the only subscriber of [a];
    the subscribers of [b] only read. A write to [a] outside a batch that
    changes [a] and, through [e], [b]: when the write returns both signals
    hold their new values; [e] has run once, inside the batch of the write,
    and the subscribers of [b] have run once each, after that batch was
    closed. *)
Theorem derived_signal_follows (a b : signal) (f : value -> value) (next : value)
    (e : effect_id) (w : world) (ca cb : cell) :
  a ≠ b ->
  signals w !! a = Some ca -> listeners ca = [e] ->
  signals w !! b = Some cb ->
  closures w !! e = Some (CSetFrom b a f) ->
  (∀ e', e' ∈ listeners cb -> observer w e') ->
  isBatching w = false ->
  Object_is (state ca) next = false ->
  Object_is (state cb) (f next) = false ->
  ∃ n0, ∀ n, n0 ≤ n ->
    ∃ w', exec (S (S (S n))) (CSet a next) w = (w', Normal)
      ∧ since w w' = [EvWrite a next; EvRun e; EvWrite b (f next); EvRestore]
                     ++ (EvRun <$> unique (listeners cb))
      ∧ stateOf w' a = next ∧ stateOf w' b = f next
      ∧ (∀ s, s ≠ a -> s ≠ b -> stateOf w' s = stateOf w s)
      ∧ isBatching w' = false ∧ batchQueue w' = batchQueue w.
Proof.
  intros Hab Ha Hla Hb He Hobs Hbat Hna Hnb.
  exists (1 `max` max_list (depth <$> closures w)). intros n Hn.
  assert (a < length (signals w)) as Hlta by (by eapply lookup_lt_Some).
  assert (b < length (signals w)) as Hltb by (by eapply lookup_lt_Some).
  destruct ca as [va la]. simpl in Hla, Hna. subst la.
  change (exec (S (S (S n))) (CSet a next) w)
    with (set (exec (S (S n))) (S (S n)) a next w).
  unfold set. rewrite Ha. cbn [state listeners]. rewrite Hna.
  set (w1 := emit _ _).
  change (isBatching w1) with (isBatching w). rewrite Hbat.
  unfold batch. change (isBatching w1) with (isBatching w). rewrite Hbat.
  set (w0 := with_batchQueue [] (with_isBatching true w1)).
  assert (signals w0 !! a = Some (Cell next [e])) as Ha0.
  { unfold w0, w1. simpl. by rewrite list_lookup_insert_eq. }
  assert (signals w0 !! b = Some cb) as Hb0.
  { unfold w0, w1. simpl. by rewrite list_lookup_insert_ne. }
  assert (listenersOf w0 a = [e]) as Hl0 by (unfold listenersOf; by rewrite Ha0).
  cbn [forEachListener]. rewrite Hl0. cbn [lookup list_lookup].
  rewrite (execute_derived (S n) e a b f w0 next [e] cb Hab eq_refl He Ha0
             ltac:(by left) Hb0 Hnb).
  set (w2 := World _ _ _ _ _ _).
  assert (listenersOf w2 a = [e]) as Hl2.
  { unfold listenersOf, w2. cbn [signals]. by rewrite list_lookup_insert_ne, Ha0. }
  rewrite Hl2. cbn [lookup list_lookup].
  set (w3 := emit EvRestore _).
  change (batchQueue w2) with ([] ++ listeners cb). rewrite app_nil_l.
  destruct (forEach_observers (S (S n)) (unique (listeners cb)) w3)
    as (sg & ce & -> & E).
  { intros e' He'. apply (proj1 (elem_of_unique _ _)) in He'.
    split; [exact (Hobs e' He')|].
    pose proof (body_depth w e'). change (body w3 e') with (body w e'). lia. }
  eexists. split; [reflexivity|].
  assert (∀ s, stateOf (with_signals sg w) s
               = default VUndefined
                   (state <$> <[b := Cell (f next) (listeners cb)]>
                                (<[a := Cell next [e]]> (signals w)) !! s)) as Hst.
  { intros s. unfold stateOf. simpl. rewrite <- !list_lookup_fmap. by rewrite E. }
  unfold stateOf in *. simpl in *. split_and!.
  - unfold since. simpl. rewrite <- !app_assoc. by rewrite drop_app_length.
  - rewrite Hst, list_lookup_insert_ne, list_lookup_insert_eq by done. done.
  - rewrite Hst, list_lookup_insert_eq by (by rewrite length_insert). done.
  - intros s Hsa Hsb. by rewrite Hst, !list_lookup_insert_ne.
  - done.
  - done.
Qed.

Lemma derived_signal_follows_witness :
  ∃ n0, ∀ n, n0 ≤ n ->
    ∃ w', exec (S (S (S n))) (CSet 0 (VInt 5)) derived_chain = (w', Normal)
      ∧ since derived_chain w'
        = [EvWrite 0 (VInt 5); EvRun 0; EvWrite 1 (VInt 6); EvRestore] ++ (EvRun <$> [1])
      ∧ stateOf w' 0 = VInt 5 ∧ stateOf w' 1 = VInt 6
      ∧ (∀ s, s ≠ 0 -> s ≠ 1 -> stateOf w' s = stateOf derived_chain s)
      ∧ isBatching w' = false ∧ batchQueue w' = batchQueue derived_chain.
Proof.
  apply (derived_signal_follows 0 1 plus_one (VInt 5) 0 derived_chain
           (Cell (VInt 0) [0]) (Cell (VInt 1) [1])).
  - done.
  - reflexivity.
  - reflexivity.
  - reflexivity.
  - reflexivity.
  - intros e' ->%list_elem_of_singleton. reflexivity.
  - reflexivity.
  - reflexivity.
  - reflexivity.
Defined.

End ReactivityTheory.

(* ================================================================== *)
(** * Properties of the reconciler                                      *)
(* ================================================================== *)

Module DomTheory.
Import Dom.

(** ** Strings *)

Lemma lower_upper_ascii c : lower_ascii (upper_ascii c) = lower_ascii c.
Proof. destruct c as [[] [] [] [] [] [] [] []]; reflexivity. Qed.

Lemma toLowerCase_toUpperCase s : toLowerCase (toUpperCase s) = toLowerCase s.
Proof.
  induction s as [|c s IH]; [done|]. unfold toLowerCase, toUpperCase in *. simpl.
  by rewrite lower_upper_ascii, IH.
Qed.

(** ** The document *)



Lemma node_lookup st r n : nodes st !! r = Some n -> node r st = Ok n st.
Proof. intros H. unfold node. by rewrite H. Qed.

Lemma inclusive_ancestor_fresh fuel st a : ∀ x,
  parents_below a (nodes st) -> x < a ->
  inclusive_ancestor fuel st a x = false.
Proof.
  induction fuel as [|fuel IH]; intros x Hp Hx; simpl.
  - rewrite bool_decide_eq_false_2; [done|lia].
  - rewrite bool_decide_eq_false_2 by lia.
    destruct (nodes st !! x) as [n|] eqn:Hn; simpl; [|done].
    destruct (parentNode n) as [p|] eqn:Hpn; [|done].
    apply IH; [done|]. by eapply (Hp x).
Qed.

Lemma index_of_middle (pre post : list nat) x :
  x ∉ pre -> index_of x (pre ++ x :: post) = Some (length pre).
Proof.
  intros Hx. unfold index_of.
  destruct (list_find _ _) as [[i y]|] eqn:Hf; simpl.
  - apply list_find_Some in Hf as (Hi & -> & Hmin). f_equal.
    destruct (decide (i < length pre)).
    + rewrite lookup_app_l in Hi by done. exfalso. apply Hx. by eapply list_elem_of_lookup_2.
    + destruct (decide (i = length pre)); [done|]. exfalso.
      eapply (Hmin (length pre)); [apply list_lookup_middle; done|lia|done].
  - exfalso. apply list_find_None in Hf. rewrite Forall_forall in Hf.
    apply (Hf x); [|done]. apply elem_of_app. right. left.
Qed.

Lemma filter_ne_id (l : list nat) x : x ∉ l -> filter (λ y, y ≠ x) l = l.
Proof.
  induction l as [|y l IH]; [done|]. intros [Hne Hx]%not_elem_of_cons.
  rewrite filter_cons_True by done. f_equal. by apply IH.
Qed.

Lemma filter_ne_middle (pre post : list nat) x :
  x ∉ pre -> x ∉ post -> filter (λ y, y ≠ x) (pre ++ x :: post) = pre ++ post.
Proof.
  intros H1 H2. rewrite filter_app, filter_cons_False; [|by intros Hx].
  by rewrite !filter_ne_id.
Qed.

(** [parent.replaceChild(r, old)] when [old] is a child of [parent] and [r]
    is a detached node that is not a fragment: [r] takes the place of [old]
    among the children and [old] is detached. *)
Lemma replaceChild_child st parent r old pn on rn pre post :
  nodes st !! parent = Some pn -> isText pn = false ->
  nodes st !! old = Some on -> parentNode on = Some parent ->
  nodes st !! r = Some rn -> parentNode rn = None -> payload_of rn ≠ Fragment ->
  inclusive_ancestor (length (nodes st)) st r parent = false ->
  childNodes pn = pre ++ old :: post -> NoDup (childNodes pn) -> r ∉ childNodes pn ->
  r ≠ parent -> r ≠ old -> old ≠ parent ->
  ∃ st', replaceChild parent r old st = Ok old st'
    ∧ body st' = body st ∧ calls st' = calls st
    ∧ length (nodes st') = length (nodes st)
    ∧ nodes st' !! r = Some (DNode (payload_of rn) (childNodes rn) (Some parent))
    ∧ nodes st' !! parent = Some (DNode (payload_of pn) (pre ++ r :: post) (parentNode pn))
    ∧ nodes st' !! old = Some (DNode (payload_of on) (childNodes on) None)
    ∧ ∀ y, y ≠ r -> y ≠ parent -> y ≠ old -> nodes st' !! y = nodes st !! y.
Proof.
  intros Hp Hpt Ho Hop Hr Hrp Hrf Hanc Hcs Hnd Hrc Hrp' Hro Hop'.
  assert ((old ∉ pre) ∧ (old ∉ post)) as [Hpre Hpost].
  { rewrite Hcs in Hnd. apply NoDup_app in Hnd as (_ & Hd & Hnd').
    apply NoDup_cons in Hnd' as [Hx _]. split; [|done].
    intros Hin. apply (Hd _ Hin). left. }
  unfold replaceChild, ensure_parent_can_hold, ensure_child_of, contains, bind.
  rewrite (node_lookup _ _ _ Hp), Hpt, Hanc. simpl.
  rewrite (node_lookup _ _ _ Ho), Hop. rewrite bool_decide_eq_true_2 by done. simpl.
  unfold nextSibling, bind. rewrite (node_lookup _ _ _ Ho), Hop, (node_lookup _ _ _ Hp).
  simpl. rewrite Hcs, (index_of_middle _ _ _ Hpre). simpl.
  replace ((pre ++ old :: post) !! S (length pre)) with (head post).
  2:{ rewrite lookup_app_r by lia. replace (S (length pre) - length pre) with 1 by lia.
      by destruct post. }
  rewrite bool_decide_eq_false_2.
  2:{ intros Hh. apply Hrc. rewrite Hcs. apply elem_of_app. right. right.
      destruct post; simpl in Hh; simplify_eq. left. }
  simpl. unfold detach, bind. rewrite (node_lookup _ _ _ Ho), Hop. simpl.
  unfold insert, bind.
  set (l1 := alter _ old (alter _ parent (nodes st))).
  assert (l1 !! r = Some rn) as Hr1.
  { unfold l1. by rewrite !list_lookup_alter_ne. }
  unfold node at 1. simpl. rewrite Hr1.
  assert ((do detach r then do insert_at parent r (head post) then ret tt)
            (Document l1 (body st) (calls st)) =
          Ok tt (Document
                   (alter (λ n, DNode (payload_of n) (childNodes n) (Some parent)) r
                      (alter (λ pn', DNode (payload_of pn')
                                       (pre ++ r :: post) (parentNode pn')) parent l1))
                   (body st) (calls st))) as Hins.
  { unfold bind, detach, bind. unfold node at 1. simpl. rewrite Hr1, Hrp. simpl.
    unfold insert_at, bind, modify. simpl. f_equal. f_equal.
    f_equal. apply list_alter_ext; [|done]. intros pn' Hpn'.
    assert (pn' = DNode (payload_of pn) (pre ++ post) (parentNode pn)) as ->.
    { unfold l1 in Hpn'. rewrite list_lookup_alter_ne in Hpn' by done.
      rewrite list_lookup_alter_eq, Hp in Hpn'. simpl in Hpn'.
      rewrite Hcs, filter_ne_middle in Hpn' by done. congruence. }
    simpl. f_equal.
    destruct post as [|b post']; simpl.
    - rewrite app_nil_r. by rewrite take_ge, drop_ge by lia.
    - assert (b ∉ pre).
      { rewrite Hcs in Hnd. apply NoDup_app in Hnd as (_ & Hd & _).
        intros Hin. apply (Hd _ Hin). right. left. }
      rewrite index_of_middle by done. simpl.
      by rewrite take_app_length, drop_app_length. }
  destruct (payload_of rn) eqn:Hpay; try done; cbv beta iota; rewrite Hins; simpl;
    (eexists; split; [reflexivity|]; simpl; unfold l1 in *; split_and!; try done;
     [ by rewrite !length_alter
     | rewrite list_lookup_alter_eq, list_lookup_alter_ne, Hr1 by done; simpl;
       by rewrite Hpay
     | rewrite list_lookup_alter_ne, list_lookup_alter_eq by done;
       by rewrite list_lookup_alter_ne, list_lookup_alter_eq, Hp by done
     | rewrite !list_lookup_alter_ne by done;
       by rewrite list_lookup_alter_eq, list_lookup_alter_ne, Ho by done
     | intros y ???; by rewrite !list_lookup_alter_ne by done ]).
Qed.


Lemma inclusive_ancestor_descends fuel st a : ∀ x,
  inclusive_ancestor fuel st a x = true -> descends (nodes st) a x.
Proof.
  induction fuel as [|fuel IH]; intros x; simpl.
  - case_bool_decide; [subst; constructor|done].
  - case_bool_decide; [subst; constructor|].
    destruct (nodes st !! x) as [n|] eqn:Hn; simpl; [|done].
    destruct (parentNode n) as [p|] eqn:Hp; [|done].
    intros Hrec. apply IH in Hrec. by econstructor.
Qed.

Lemma descends_app l new a x :
  parents_below (length l) l -> x < length l ->
  descends (l ++ new) a x -> descends l a x.
Proof.
  intros Hpb Hx Hd. induction Hd as [|x n p Hn Hp Hd IH]; [constructor|].
  rewrite lookup_app_l in Hn by done.
  econstructor; [done..|]. apply IH. by eapply (Hpb x).
Qed.

Lemma parents_below_app l new :
  parents_below (length l) l -> parents_below (length l) (l ++ new).
Proof.
  intros Hpb y m p Hlt Hy Hp. rewrite lookup_app_l in Hy by done. by eapply (Hpb y).
Qed.

(** [parent.appendChild(r)] for a detached node [r] that is not a
    fragment: [r] becomes the last child. *)
Lemma appendChild_detached st parent r pn rn :
  nodes st !! parent = Some pn -> isText pn = false ->
  nodes st !! r = Some rn -> parentNode rn = None -> payload_of rn ≠ Fragment ->
  inclusive_ancestor (length (nodes st)) st r parent = false -> r ≠ parent ->
  ∃ st', appendChild parent (Some r) st = Ok r st'
    ∧ body st' = body st ∧ calls st' = calls st
    ∧ length (nodes st') = length (nodes st)
    ∧ nodes st' !! r = Some (DNode (payload_of rn) (childNodes rn) (Some parent))
    ∧ nodes st' !! parent = Some (DNode (payload_of pn) (childNodes pn ++ [r]) (parentNode pn))
    ∧ ∀ y, y ≠ r -> y ≠ parent -> nodes st' !! y = nodes st !! y.
Proof.
  intros Hp Hpt Hr Hrp Hrf Hanc Hne.
  unfold appendChild, insertBefore, ensure_parent_can_hold, contains, bind.
  rewrite (node_lookup _ _ _ Hp), Hpt, Hanc. simpl.
  unfold insert, bind. rewrite (node_lookup _ _ _ Hr).
  assert ((do detach r then do insert_at parent r None then ret tt) st =
          Ok tt (Document
                   (alter (λ n, DNode (payload_of n) (childNodes n) (Some parent)) r
                      (alter (λ pn', DNode (payload_of pn')
                                       (childNodes pn' ++ [r]) (parentNode pn')) parent
                             (nodes st)))
                   (body st) (calls st))) as Hins.
  { unfold bind, detach, bind. rewrite (node_lookup _ _ _ Hr), Hrp. simpl.
    unfold insert_at, bind, modify. simpl. do 3 f_equal.
    apply list_alter_ext; [|done]. intros pn' _. f_equal.
    by rewrite take_ge, drop_ge by lia. }
  destruct (payload_of rn) eqn:Hpay; try done; cbv beta iota;
    change (insert_all parent [r] None st)
      with ((do detach r then do insert_at parent r None then ret tt) st);
    rewrite Hins; simpl;
    (eexists; split; [reflexivity|]; simpl; split_and!; try done;
     [ by rewrite !length_alter
     | rewrite list_lookup_alter_eq, list_lookup_alter_ne, Hr by done; simpl;
       by rewrite Hpay
     | by rewrite list_lookup_alter_ne, list_lookup_alter_eq, Hp by done
     | intros y ??; by rewrite !list_lookup_alter_ne by done ]).
Qed.


Lemma inclusive_ancestor_refl fuel st a : inclusive_ancestor fuel st a a = true.
Proof. destruct fuel; simpl; by rewrite bool_decide_eq_true_2. Qed.

Lemma patch_primitive parent oldNode v st :
  isNewText (VPrim v) = true ->
  patch (Some parent) oldNode (VPrim v) st = patchText parent oldNode v st.
Proof. by destruct v. Qed.

Lemma patchText_on_text parent old v st on s0 :
  nodes st !! old = Some on -> payload_of on = Text s0 ->
  patchText parent (Some old) v st =
    if String.eqb s0 (toString v) then Ok (Some old) st
    else (let* newText := createTextNode (toString v) in
          let* attached := contains parent old in
          do (if attached then replaceChild parent newText old
              else appendChild parent (Some newText)) then
          ret (Some newText)) st.
Proof.
  intros Ho Hpay. unfold patchText. unfold bind at 1 2.
  rewrite (node_lookup _ _ _ Ho), Hpay. simpl. by destruct (String.eqb _ _).
Qed.




(** ** Keyed children *)

Lemma getKeyedNodes_from_sound rs : ∀ keyed st keyed' st',
  getKeyedNodes_from keyed rs st = Ok keyed' st' ->
  st' = st
  ∧ ∀ k r, keyed' !! k = Some r ->
      keyed !! k = Some r
      ∨ (r ∈ rs ∧ ∃ n, nodes st !! r = Some n ∧ isElement n = true
                      ∧ getAttribute n "key" = Some k).
Proof.
  induction rs as [|r0 rs IH]; intros keyed st keyed' st'; simpl.
  - unfold ret. intros [= -> ->]. split; [done|]. by left.
  - unfold bind, node. destruct (nodes st !! r0) as [n|] eqn:Hn; [|done].
    intros H. apply IH in H as [-> H]. split; [done|].
    intros k r Hk. destruct (H k r Hk) as [Hold|(Hin & Hrest)].
    + destruct (isElement n) eqn:He; [|by left].
      destruct (getAttribute n "key") as [key|] eqn:Hkey; [|by left].
      destruct (decide (key = k)) as [->|Hne].
      * rewrite lookup_insert_eq in Hold. simplify_eq. right. split; [left|]. eauto.
      * rewrite lookup_insert_ne in Hold by done. by left.
    + right. split; [by right|done].
Qed.

(** The index built by [getKeyedNodes] maps a key only to an element of the
    snapshot that carries this key as its [key] attribute. *)
Lemma getKeyedNodes_sound rs st keyed st' :
  getKeyedNodes rs st = Ok keyed st' ->
  st' = st
  ∧ ∀ k r, keyed !! k = Some r ->
      r ∈ rs ∧ ∃ n, nodes st !! r = Some n ∧ isElement n = true
                    ∧ getAttribute n "key" = Some k.
Proof.
  intros H. apply getKeyedNodes_from_sound in H as [-> H]. split; [done|].
  intros k r Hk. destruct (H k r Hk) as [Hempty|?]; [|done].
  by rewrite lookup_empty in Hempty.
Qed.

Lemma keyOf_unkeyed child :
  (∀ t attrs children hk, child ≠ VObj t (Some attrs) children hk) ->
  ∀ k, keyOf child ≠ VString k.
Proof.
  intros H k. destruct child as [v|l|t [attrs|] children hk]; simpl; try done.
  exfalso. by eapply H.
Qed.

Lemma keyOf_VObj t attrs children hk k :
  keyOf (VObj t (Some attrs) children hk) = VString k ->
  ∃ i, attrs !! i = Some ("key", VString k) ∧ ∀ j v, attrs !! j = Some ("key", v) -> i ≤ j.
Proof.
  unfold keyOf. destruct (list_find _ attrs) as [[i [key v]]|] eqn:Hf; simpl; [|done].
  intros ->. apply list_find_Some in Hf as (Hi & Hk & Hmin). simpl in Hk. subst key.
  exists i. split; [done|]. intros j v Hj.
  destruct (decide (i ≤ j)); [done|]. exfalso. eapply (Hmin j); [exact Hj|lia|done].
Qed.




(** ** The round trip *)

Lemma bind_ok {A B} (m : M A) (k : A -> M B) st a st' :
  m st = Ok a st' -> bind m k st = k a st'.
Proof. intros H. unfold bind. by rewrite H. Qed.

Lemma bind_assoc {A B C} (m : M A) (k1 : A -> M B) (k2 : B -> M C) st :
  bind (bind m k1) k2 st = bind m (fun a => bind (k1 a) k2) st.
Proof. unfold bind. by destruct (m st). Qed.

Lemma bind_ret {A B} (a : A) (k : A -> M B) st : bind (ret a) k st = k a st.
Proof. reflexivity. Qed.

Ltac mnorm := repeat first [rewrite bind_assoc | rewrite bind_ret].
Ltac mstep H := mnorm; rewrite (bind_ok _ _ _ _ _ H); mnorm.

(** ** Bare and plain descriptions *)

Lemma bare_VObj t attrs children hk :
  bare (VObj (TagName t) attrs children hk) = true ->
  toLowerCase t = t ∧ String.eqb t "body" = false ∧ attrs = Some []
  ∧ all_bare children = true.
Proof.
  simpl. fold all_bare. intros H.
  repeat (apply andb_prop in H as [H ?]).
  split_and!; try done.
  - by apply String.eqb_eq.
  - by destruct (String.eqb t "body").
  - by destruct attrs as [[|]|].
Qed.

Lemma plain_VObj t attrs children hk :
  plain (VObj (TagName t) attrs children hk) = true ->
  toLowerCase t = t ∧ String.eqb t "body" = false ∧ attrs = Some [] ∧ onMount hk = None
  ∧ all_plain children = true.
Proof.
  simpl. fold all_plain. intros H.
  repeat (apply andb_prop in H as [H ?]).
  split_and!; try done.
  - by apply String.eqb_eq.
  - by destruct (String.eqb t "body").
  - by destruct attrs as [[|]|].
  - by destruct (onMount hk).
Qed.


Lemma plain_bare n : ∀ d, vsize d ≤ n -> plain d = true -> bare d = true.
Proof.
  induction n as [|n IH]; intros d Hn H; [destruct d; simpl in Hn; lia|].
  destruct d as [v|items|[t|f] attrs children own]; try done.
  simpl in H |- *. fold all_plain in H. fold all_bare.
  repeat (apply andb_prop in H as [H ?]).
  repeat (apply andb_true_intro; split); try done.
  simpl in Hn. fold sum_vsize in Hn.
  match goal with Hall : all_plain children = true |- _ => revert Hall end.
  assert (sum_vsize children ≤ n) as Hs by lia. revert Hs. clear -IH.
  induction children as [|c children IHc]; simpl; [done|]. intros Hs Hall.
  apply andb_prop in Hall as [Hc Hall].
  apply andb_true_intro. split; [|apply IHc; [lia|done]].
  destruct (present c); simpl in *; [|done]. apply IH; [lia|done].
Qed.

Lemma all_plain_bare children : all_plain children = true -> all_bare children = true.
Proof.
  induction children as [|c children IH]; simpl; [done|]. intros Hall.
  apply andb_prop in Hall as [Hc Hall].
  apply andb_true_intro. split; [|by apply IH].
  destruct (present c); simpl in *; [|done]. by apply (plain_bare (vsize c)).
Qed.

Lemma named_VObj t attrs children hk :
  named (VObj (TagName t) attrs children hk) = true ->
  attributeName t = true ∧ all_named children = true.
Proof. simpl. fold all_named. by intros [??]%andb_prop. Qed.

Lemma all_named_elem c children : all_named children = true -> c ∈ children -> named c = true.
Proof.
  induction children as [|c' children IH]; intros Hall Hin; [by apply elem_of_nil in Hin|].
  simpl in Hall. apply andb_prop in Hall as [Hc Hall].
  apply elem_of_cons in Hin as [->|Hin]; [done|by apply IH].
Qed.

Lemma attributeName_valid s : attributeName s = true -> validName s = true.
Proof.
  destruct s as [|c s]; [done|]. simpl. intros [Hc Hs]%andb_prop.
  rewrite Hc. simpl. apply forallb_forall. intros x Hx.
  rewrite forallb_forall in Hs. by rewrite (Hs x Hx).
Qed.

Lemma document_createElement_named t st :
  attributeName t = true ->
  document_createElement t st = alloc (Element (toUpperCase (toLowerCase t)) ∅ ∅) st.
Proof. intros H. unfold document_createElement. by rewrite (attributeName_valid _ H). Qed.

(** The call of the [onMount] hook changes no node. *)
Lemma hook_spec own el st :
  ∃ st', (match onMount own with
          | Some f => record (CallOnMount f el)
          | None => ret tt
          end) st = Ok tt st'
         ∧ nodes st' = nodes st ∧ body st' = body st.
Proof. destruct (onMount own); by eexists. Qed.

Lemma rendered_VObj l r t attrs children hk :
  rendered l r (VObj (TagName t) attrs children hk) ↔
  ∃ T a pr cs p, l !! r = Some (DNode (Element T a pr) cs p) ∧ toLowerCase T = t
                 ∧ each_rendered l r cs children.
Proof. reflexivity. Qed.

Lemma vsize_VObj tg attrs children hk :
  vsize (VObj tg attrs children hk) = S (sum_vsize children).
Proof. reflexivity. Qed.

Lemma keyOf_bare d : bare d = true -> nullish (keyOf d) = true.
Proof.
  destruct d as [v|items|[t|f] attrs children hk]; try done.
  intros (_ & _ & -> & _)%bare_VObj. reflexivity.
Qed.

Lemma comparisonTarget_bare keyed cs i d :
  bare d = true -> comparisonTarget keyed cs i d = cs !! i.
Proof. intros H%keyOf_bare. unfold comparisonTarget. by rewrite H. Qed.

Section Stable.
Variable st : dom.

Lemma getKeyedNodes_from_total cs : ∀ keyed,
  (∀ r, r ∈ cs -> is_Some (nodes st !! r)) ->
  ∃ keyed', getKeyedNodes_from keyed cs st = Ok keyed' st.
Proof.
  induction cs as [|r cs IH]; intros keyed H; simpl; [by eexists|].
  destruct (H r) as [n Hn]; [left|].
  mstep (node_lookup _ _ _ Hn). apply IH. intros r' Hr'. apply H. by right.
Qed.

Lemma each_rendered_valid r cs children :
  each_rendered (nodes st) r cs children -> ∀ r', r' ∈ cs -> is_Some (nodes st !! r').
Proof.
  revert cs. induction children as [|c children IH]; intros cs; simpl.
  - intros -> r' Hr'. by apply elem_of_nil in Hr'.
  - destruct (present c); [|apply IH].
    destruct cs as [|r0 cs]; [done|]. intros (_ & Hr0 & Hrest) r' Hr'.
    apply elem_of_cons in Hr' as [->|Hr']; [|by eapply IH].
    destruct c as [v|?|[t|f] ? ? ?]; simpl in Hr0; try done.
    + destruct Hr0 as (p & ->). by eexists.
    + destruct Hr0 as (T & a & pr & cs' & p & -> & _). by eexists.
Qed.

Lemma reinsert_in_place el n cs :
  nodes st !! el = Some n ->
  ∀ i, drop i (childNodes n) = cs ->
  reinsert el i (Some <$> cs) st = Ok tt st.
Proof.
  intros Hel. induction cs as [|r cs IH]; intros i Hd; simpl; [done|].
  mstep (node_lookup _ _ _ Hel).
  assert (childNodes n !! i = Some r) as Hi.
  { assert (drop i (childNodes n) !! 0 = Some r) as H0 by (by rewrite Hd).
    by rewrite lookup_drop, Nat.add_0_r in H0. }
  rewrite Hi. rewrite bool_decide_eq_true_2 by (split; [by eexists|done]).
  mnorm. apply IH. rewrite (drop_S _ _ _ Hi) in Hd. by simplify_eq.
Qed.

Lemma trim_nothing el n fuel :
  nodes st !! el = Some n -> trim fuel el (length (childNodes n)) st = Ok tt st.
Proof.
  intros Hel. destruct fuel; simpl; [done|].
  mstep (node_lookup _ _ _ Hel). by rewrite Nat.ltb_irrefl.
Qed.

(** Patching again the children that are already rendered: every child is
    compared with the node at its position and comes back unchanged. *)
Lemma reconcile_loop_in_place el keyed cs children :
  (∀ c r, c ∈ children -> present c = true -> bare c = true ->
          rendered (nodes st) r c ->
          patch_with None (Some el) (Some r) c st = Ok (Some r) st) ->
  all_bare children = true ->
  ∀ i rest, drop i cs = rest -> each_rendered (nodes st) el rest children ->
  reconcile_loop (patch_with None) el keyed cs i children st = Ok (Some <$> rest) st.
Proof.
  intros IH. induction children as [|c children IHl]; intros Hall i rest Hd Hr;
    simpl in Hr |- *.
  - by rewrite Hr.
  - simpl in Hall. apply andb_prop in Hall as [Hc Hall].
    destruct (present c) eqn:Hp.
    + destruct rest as [|r rest]; [done|]. destruct Hr as (_ & Hr & Hrest).
      simpl in Hc.
      assert (cs !! i = Some r) as Hi.
      { assert (drop i cs !! 0 = Some r) as H0 by (by rewrite Hd).
        by rewrite lookup_drop, Nat.add_0_r in H0. }
      rewrite (comparisonTarget_bare _ _ _ _ Hc), Hi.
      mstep (IH c r ltac:(left) Hp Hc Hr).
      assert (reconcile_loop (patch_with None) el keyed cs (S i) children st
              = Ok (Some <$> rest) st) as Hrec.
      { apply IHl; try done.
        - intros c' r' Hc'. apply IH. by right.
        - rewrite (drop_S _ _ _ Hi) in Hd. by simplify_eq. }
      by mstep Hrec.
    + apply IHl; try done. intros c' r' Hc'. apply IH. by right.
Qed.
End Stable.

Lemma sum_vsize_elem c children : c ∈ children -> vsize c ≤ sum_vsize children.
Proof.
  induction 1 as [c l|c c' l _ IH]; simpl; lia.
Qed.

(** Patching a bare description onto its own rendering changes nothing. *)
Lemma patch_rendered_in_place n : ∀ d st c r hk,
  vsize d ≤ n -> bare d = true -> rendered (nodes st) r d ->
  patch_with hk (Some c) (Some r) d st = Ok (Some r) st.
Proof.
  induction n as [|n IH]; intros d st c r hk Hn Hplain Hr.
  { destruct d; simpl in Hn; lia. }
  destruct d as [v|items|[t|f] attrs children own]; try done.
  - (* text *)
    destruct Hr as (p & Hr). simpl in Hplain. unfold textual in Hplain.
    apply andb_prop in Hplain as [Hnn Hobj].
    cbn [patch_with]. rewrite (negb_true_iff _) in Hnn. rewrite Hnn.
    assert (patchText c (Some r) v st = Ok (Some r) st) as Ht.
    { rewrite (patchText_on_text _ _ _ _ _ _ Hr eq_refl). by rewrite String.eqb_refl. }
    by destruct v.
  - (* element *)
    apply bare_VObj in Hplain as (Hlow & Hbody & -> & Hall).
    apply rendered_VObj in Hr as (T & a & pr & cs & p & Hel & HT & Hcs).
    rewrite vsize_VObj in Hn.
    cbn [patch_with].
    assert (shouldReplace r (VObj (TagName t) (Some []) children own) st = Ok false st)
      as Hsr.
    { unfold shouldReplace. mstep (node_lookup _ _ _ Hel).
      cbn [isText payload_of isNewText Bool.eqb negb]. by rewrite HT, String.eqb_refl. }
    mstep Hsr.
    unfold updateElement. cbn [applyAttrs]. mnorm.
    unfold reconcileChildren. mstep (node_lookup _ _ _ Hel). cbn [childNodes].
    destruct (getKeyedNodes_from_total st cs ∅ (each_rendered_valid st r cs children Hcs))
      as (keyed & Hk).
    unfold getKeyedNodes. mstep Hk.
    assert (reconcile_loop (patch_with None) r keyed cs 0 children st
            = Ok (Some <$> cs) st) as Hloop.
    { apply reconcile_loop_in_place; try done.
      intros c' r' Hc' Hp' Hpl' Hr'. apply IH; try done.
      apply sum_vsize_elem in Hc'. lia. }
    mstep Hloop.
    mstep (reinsert_in_place st r _ cs Hel 0 eq_refl).
    mstep (node_lookup _ _ _ Hel). cbn [childNodes]. rewrite length_fmap.
    by mstep (trim_nothing st r _ (length cs) Hel).
Qed.


(** *** Mounting *)

Lemma parents_below_alloc l p :
  parents_below (length l) l -> parents_below (S (length l)) (l ++ [DNode p [] None]).
Proof.
  intros Hpb y n q Hy Hn Hq.
  destruct (decide (y < length l)) as [Hlt|Hge].
  - rewrite lookup_app_l in Hn by done. pose proof (Hpb y n q Hlt Hn Hq). lia.
  - assert (y = length l) as -> by lia. rewrite list_lookup_middle in Hn by done.
    by simplify_eq.
Qed.

Lemma appendChild_detached_wf st parent r pn rn :
  nodes st !! parent = Some pn -> isText pn = false ->
  nodes st !! r = Some rn -> parentNode rn = None -> payload_of rn ≠ Fragment ->
  inclusive_ancestor (length (nodes st)) st r parent = false -> r ≠ parent ->
  parents_below (length (nodes st)) (nodes st) ->
  ∃ st', appendChild parent (Some r) st = Ok r st'
    ∧ length (nodes st') = length (nodes st)
    ∧ nodes st' !! r = Some (DNode (payload_of rn) (childNodes rn) (Some parent))
    ∧ nodes st' !! parent = Some (DNode (payload_of pn) (childNodes pn ++ [r]) (parentNode pn))
    ∧ (∀ y, y ≠ r -> y ≠ parent -> nodes st' !! y = nodes st !! y)
    ∧ parents_below (length (nodes st')) (nodes st').
Proof.
  intros Hp Hpt Hr Hrp Hrf Hanc Hne Hpb.
  destruct (appendChild_detached st parent r pn rn Hp Hpt Hr Hrp Hrf Hanc Hne)
    as (st' & Happ & _ & _ & Hlen & Hr' & Hp' & Hrest).
  exists st'. split_and!; try done.
  intros y n q Hy Hn Hq. rewrite Hlen in Hy |- *.
  destruct (decide (y = r)) as [->|Hyr].
  - rewrite Hr' in Hn. simplify_eq. simpl in Hq. simplify_eq. by eapply lookup_lt_Some.
  - destruct (decide (y = parent)) as [->|Hyp].
    + rewrite Hp' in Hn. simplify_eq. simpl in Hq. by eapply (Hpb parent).
    + rewrite Hrest in Hn by done. by eapply (Hpb y).
Qed.

Lemma each_rendered_frame l l' r cs children :
  (∀ c r', c ∈ children -> rendered l r' c ->
           (∀ y, r' ≤ y -> is_Some (l !! y) -> l' !! y = l !! y) -> rendered l' r' c) ->
  (∀ y, r < y -> is_Some (l !! y) -> l' !! y = l !! y) ->
  each_rendered l r cs children -> each_rendered l' r cs children.
Proof.
  intros IH Hfr. revert cs. induction children as [|c children IHl]; intros cs; simpl; [done|].
  destruct (present c).
  - destruct cs as [|r' cs]; [done|]. intros (Hlt & Hr' & Hrest). split_and!; [done| |].
    + apply IH; [left|done|]. intros y Hy. apply Hfr. lia.
    + apply IHl; [|done]. intros c' r'' Hc'. apply IH. by right.
  - apply IHl. intros c' r'' Hc'. apply IH. by right.
Qed.

Lemma rendered_frame n : ∀ d l l' r,
  vsize d ≤ n -> rendered l r d ->
  (∀ y, r ≤ y -> is_Some (l !! y) -> l' !! y = l !! y) -> rendered l' r d.
Proof.
  induction n as [|n IH]; intros d l l' r Hn Hr Hfr.
  { destruct d; simpl in Hn; lia. }
  destruct d as [v|items|[t|f] attrs children own]; try done.
  - destruct Hr as (p & Hr). exists p. rewrite Hfr; [done..|by eexists].
  - apply rendered_VObj in Hr as (T & a & pr & cs & p & Hel & HT & Hcs).
    apply rendered_VObj. exists T, a, pr, cs, p. split_and!; [|done|].
    + rewrite Hfr; [done..|by eexists].
    + rewrite vsize_VObj in Hn. eapply each_rendered_frame; [| |exact Hcs].
      * intros c r' Hc. apply IH. apply sum_vsize_elem in Hc. lia.
      * intros y Hy. apply Hfr. lia.
Qed.


Lemma alloc_spec p st :
  ∃ st', alloc p st = Ok (length (nodes st)) st'
    ∧ nodes st' = nodes st ++ [DNode p [] None]
    ∧ length (nodes st') = S (length (nodes st))
    ∧ nodes st' !! length (nodes st) = Some (DNode p [] None)
    ∧ (∀ y, y < length (nodes st) -> nodes st' !! y = nodes st !! y)
    ∧ (parents_below (length (nodes st)) (nodes st) ->
       parents_below (length (nodes st')) (nodes st')).
Proof.
  eexists. split; [reflexivity|]. simpl. split_and!.
  - done.
  - rewrite length_app. simpl. lia.
  - by rewrite list_lookup_middle.
  - intros y Hy. by rewrite lookup_app_l.
  - intros Hpb. rewrite length_app, Nat.add_1_r. by apply parents_below_alloc.
Qed.

(** A text is mounted as a fresh text node at the end of the container. *)
Lemma mount_text st c cn v :
  textual v = true ->
  nodes st !! c = Some cn -> isText cn = false ->
  parents_below (length (nodes st)) (nodes st) ->
  ∃ st1, patch_with None (Some c) None (VPrim v) st = Ok (Some (length (nodes st))) st1
         ∧ mounted st c cn (VPrim v) st1.
Proof.
  intros Htx Hc Hct Hpb. set (r := length (nodes st)).
  assert (c < r) as Hcr by (by eapply lookup_lt_Some).
  destruct (alloc_spec (Text (toString v)) st) as (st_b & Hnew & _ & Hlen_b & Hr_b & Hold_b & Hpb_b).
  fold r in Hnew, Hlen_b, Hr_b, Hold_b.
  assert (nodes st_b !! c = Some cn) as Hc_b by (by rewrite Hold_b).
  destruct (appendChild_detached_wf st_b c r cn _ Hc_b Hct Hr_b eq_refl)
    as (st_c & Happ & Hlen_c & Hr_c & Hc_c & Hrest_c & Hpb_c); [done| |lia|by apply Hpb_b|].
  { apply inclusive_ancestor_fresh; [|done].
    intros y n p Hy Hn Hp. rewrite Hold_b in Hn by done. by eapply (Hpb y). }
  exists st_c. split.
  - unfold textual in Htx. apply andb_prop in Htx as [Hnn Hobj].
    cbn [patch_with]. rewrite (negb_true_iff _) in Hnn. rewrite Hnn.
    assert (patchText c None v st = Ok (Some r) st_c) as Ht.
    { unfold patchText. mnorm. cbn beta iota. unfold createTextNode.
      mstep Hnew. by mstep Happ. }
    by destruct v.
  - unfold mounted. fold r. split_and!.
    + by exists (Some c).
    + done.
    + intros y Hy Hne. rewrite Hrest_c by lia. by apply Hold_b.
    + lia.
    + done.
Qed.

(** The first loop of [reconcileChildren] on an element that had no child
    when the loop started: every present child is mounted at the end. *)
Lemma reconcile_loop_mount el E q children :
  (∀ c, c ∈ children -> present c = true -> bare c = true ->
        ∀ st cn, nodes st !! el = Some cn -> isText cn = false ->
                 parents_below (length (nodes st)) (nodes st) ->
                 ∃ st1, patch_with None (Some el) None c st
                        = Ok (Some (length (nodes st))) st1
                        ∧ mounted st el cn c st1) ->
  all_bare children = true ->
  isText (DNode E [] q) = false ->
  ∀ i st done,
    nodes st !! el = Some (DNode E done q) ->
    parents_below (length (nodes st)) (nodes st) ->
    ∃ st' new,
      reconcile_loop (patch_with None) el ∅ [] i children st = Ok (Some <$> new) st'
      ∧ nodes st' !! el = Some (DNode E (done ++ new) q)
      ∧ each_rendered (nodes st') el new children
      ∧ (∀ y, y < length (nodes st) -> y ≠ el -> nodes st' !! y = nodes st !! y)
      ∧ length (nodes st) ≤ length (nodes st')
      ∧ parents_below (length (nodes st')) (nodes st').
Proof.
  intros IH Hall HE. induction children as [|c children IHl]; intros i st done Hel Hpb.
  - exists st, []. simpl. rewrite app_nil_r. by split_and!.
  - simpl in Hall. apply andb_prop in Hall as [Hc Hall].
    assert (∀ c', c' ∈ children -> present c' = true -> bare c' = true ->
        ∀ st cn, nodes st !! el = Some cn -> isText cn = false ->
                 parents_below (length (nodes st)) (nodes st) ->
                 ∃ st1, patch_with None (Some el) None c' st
                        = Ok (Some (length (nodes st))) st1
                        ∧ mounted st el cn c' st1) as IH'.
    { intros c' Hc'. apply IH. by right. }
    cbn [reconcile_loop each_rendered]. destruct (present c) eqn:Hp.
    + simpl in Hc.
      destruct (IH c ltac:(left) Hp Hc st _ Hel HE Hpb)
        as (st1 & Hpatch & Hr1 & Hel1 & Hfr1 & Hlen1 & Hpb1).
      simpl in Hel1.
      destruct (IHl IH' Hall (S i) st1 _ Hel1 Hpb1)
        as (st' & new & Hloop & Hel' & Hcs & Hfr' & Hlen' & Hpb').
      exists st', (length (nodes st) :: new). split_and!.
      * rewrite (comparisonTarget_bare _ _ _ _ Hc), lookup_nil.
        mstep Hpatch. by mstep Hloop.
      * by rewrite <- app_assoc in Hel'.
      * by eapply lookup_lt_Some.
      * eapply (rendered_frame (vsize c)); [done|exact Hr1|].
        intros y Hy Hsome. apply Hfr'; [by apply lookup_lt_is_Some|].
        apply lookup_lt_Some in Hel. lia.
      * done.
      * intros y Hy Hne. rewrite Hfr' by (done || lia). by apply Hfr1.
      * lia.
      * done.
    + by apply IHl.
Qed.


(** Mounting a bare description with well-formed tags in a container that
    can hold children: the rendering is allocated after every node of the
    heap and appended to the container; nothing else changes. *)
Lemma patch_mount_bare n : ∀ d st c cn,
  vsize d ≤ n -> bare d = true -> named d = true ->
  nodes st !! c = Some cn -> isText cn = false ->
  parents_below (length (nodes st)) (nodes st) ->
  ∃ st1, patch_with None (Some c) None d st = Ok (Some (length (nodes st))) st1
         ∧ mounted st c cn d st1.
Proof.
  induction n as [|n IH]; intros d st c cn Hn Hbare Hnamed Hc Hct Hpb.
  { destruct d; simpl in Hn; lia. }
  destruct d as [v|items|[t|f] attrs children own]; try done.
  { by apply mount_text. }
  apply bare_VObj in Hbare as (Hlow & Hbody & -> & Hall).
  apply named_VObj in Hnamed as (Hname & Hnames).
  rewrite vsize_VObj in Hn.
  set (el := length (nodes st)).
  set (E := Element (toUpperCase (toLowerCase t)) ∅ ∅).
  assert (c < el) as Hcel by (by eapply lookup_lt_Some).
  destruct (alloc_spec E st) as (st_0 & Hnew & _ & Hlen_0 & Hel_0 & Hold_0 & Hpb_0).
  fold el in Hnew, Hlen_0, Hel_0, Hold_0.
  destruct (hook_spec own el st_0) as (st_a & Hhook & Hnodes_a & _).
  assert (length (nodes st_a) = S el) as Hlen_a by (by rewrite Hnodes_a).
  assert (nodes st_a !! el = Some (DNode E [] None)) as Hel_a by (by rewrite Hnodes_a).
  assert (∀ y, y < el -> nodes st_a !! y = nodes st !! y) as Hold_a.
  { intros y Hy. rewrite Hnodes_a. by apply Hold_0. }
  assert (parents_below (length (nodes st_a)) (nodes st_a)) as Hpb_a.
  { rewrite Hnodes_a. by apply Hpb_0. }
  (* the children are mounted in the new element *)
  destruct (reconcile_loop_mount el E None children) with (i := 0) (st := st_a) (done := @nil nat)
    as (st_k & cs & Hloop & Hel_k & Hcs & Hfr_k & Hlen_k & Hpb_k); try done.
  { intros c' Hc' _ Hpl' st' cn'. apply IH; [|done|by eapply all_named_elem].
    apply sum_vsize_elem in Hc'. lia. }
  simpl in Hel_k.
  (* the new element is appended to the container *)
  assert (nodes st_k !! c = Some cn) as Hc_k.
  { rewrite Hfr_k by lia. by rewrite Hold_a. }
  destruct (appendChild_detached_wf st_k c el cn _ Hc_k Hct Hel_k eq_refl)
    as (st_d & Happ & Hlen_d & Hel_d & Hc_d & Hrest_d & Hpb_d); [done| |lia|done|].
  { apply inclusive_ancestor_fresh; [|done].
    intros y m p Hy Hm Hp. rewrite Hfr_k, Hold_a in Hm by lia. by eapply (Hpb y). }
  exists st_d. split.
  - cbn [patch_with]. mnorm. cbn beta iota. unfold replaceNode, createElement.
    rewrite Hbody. cbn [default from_option id].
    assert (document_createElement t st = Ok el st_0) as Hcreate.
    { by rewrite document_createElement_named. }
    mstep Hcreate. mstep Hhook.
    unfold updateElement. cbn [applyAttrs]. mnorm.
    unfold reconcileChildren. mstep (node_lookup _ _ _ Hel_a). cbn [childNodes].
    unfold getKeyedNodes. cbn [getKeyedNodes_from]. mnorm.
    mstep Hloop.
    mstep (reinsert_in_place st_k el _ cs Hel_k 0 eq_refl).
    mstep (node_lookup _ _ _ Hel_k). cbn [childNodes]. rewrite length_fmap.
    mstep (trim_nothing st_k el _ (length cs) Hel_k).
    by mstep Happ.
  - unfold mounted. fold el. split_and!.
    + apply rendered_VObj. eexists _, _, _, cs, _. split_and!; [exact Hel_d| |].
      * by rewrite toLowerCase_toUpperCase, Hlow.
      * eapply each_rendered_frame; [| |exact Hcs].
        -- intros c' r' Hc'. by apply (rendered_frame (vsize c')).
        -- intros y Hy _. apply Hrest_d; lia.
    + done.
    + intros y Hy Hne. rewrite Hrest_d, Hfr_k by lia. by apply Hold_a.
    + lia.
    + done.
Qed.

(** The same for a plain description. *)
Lemma patch_mount_plain d st c cn :
  plain d = true -> named d = true ->
  nodes st !! c = Some cn -> isText cn = false ->
  parents_below (length (nodes st)) (nodes st) ->
  ∃ st1, patch_with None (Some c) None d st = Ok (Some (length (nodes st))) st1
         ∧ mounted st c cn d st1.
Proof.
  intros Hplain. apply (patch_mount_bare (vsize d)); [done|]. by apply (plain_bare (vsize d)).
Qed.

Lemma comparisonTarget_plain keyed cs i d :
  plain d = true -> comparisonTarget keyed cs i d = cs !! i.
Proof. intros H. apply comparisonTarget_bare. by apply (plain_bare (vsize d)). Qed.

(** Patching a plain description onto its own rendering changes nothing. *)
Lemma patch_plain_in_place d st c r hk :
  plain d = true -> rendered (nodes st) r d ->
  patch_with hk (Some c) (Some r) d st = Ok (Some r) st.
Proof.
  intros Hplain. apply (patch_rendered_in_place (vsize d)); [done|].
  by apply (plain_bare (vsize d)).
Qed.

(** [contains] looks at the parent pointers only, and more turns never
    lose an ancestor. *)
Lemma inclusive_ancestor_same_parents fuel st st' a : ∀ x,
  (∀ y, (nodes st' !! y ≫= parentNode) = (nodes st !! y ≫= parentNode)) ->
  inclusive_ancestor fuel st' a x = inclusive_ancestor fuel st a x.
Proof.
  induction fuel as [|fuel IH]; intros x H; simpl; [done|].
  case_bool_decide; [done|]. rewrite H. destruct (_ ≫= _); [by apply IH|done].
Qed.

Lemma inclusive_ancestor_mono fuel st a : ∀ fuel' x,
  fuel ≤ fuel' -> inclusive_ancestor fuel st a x = true ->
  inclusive_ancestor fuel' st a x = true.
Proof.
  induction fuel as [|fuel IH]; intros fuel' x Hle; simpl.
  - case_bool_decide; [|done]. intros _. destruct fuel'; simpl; by rewrite bool_decide_eq_true_2.
  - destruct fuel' as [|fuel']; [lia|]. simpl. case_bool_decide; [done|].
    destruct (_ ≫= _); [|done]. apply IH. lia.
Qed.

(** ** Statements *)

(** C10. Whatever its arguments, [Vnode] returns a description whose hooks
    hold no [onMount]. *)
Theorem Vnode_hooks_empty (t : tag) (attrs : option (option (list (string * value))))
    (children : vnode) :
  ∃ attrs' children', Vnode t attrs children = VObj t attrs' children' (Hooks None).
Proof. eexists _, _. reflexivity. Qed.

(** C6 (amended). For every container and every previous node, [patch] with
    a [null] or [undefined] description returns a new text node with empty
    text, attached nowhere, and changes nothing else. *)
Theorem patch_absent_description (parent : nat) (oldNode : option nat) (st : dom) :
  let placeholder :=
    Ok (Some (length (nodes st)))
       (Document (nodes st ++ [DNode (Text "") [] None]) (body st) (calls st)) in
  patch (Some parent) oldNode (VPrim VNull) st = placeholder
  ∧ patch (Some parent) oldNode (VPrim VUndefined) st = placeholder.
Proof. split; reflexivity. Qed.

(** C6 as stated fails for [false]: [patch] sends it down the text path, and
    the container receives a text node that reads [false]. *)
Lemma patch_false_counterexample :
  patch (Some 1) None (VPrim (VBool false)) page =
    Ok (Some 2)
       (Document [DNode (Element "BODY" ∅ ∅) [1] None;
                  DNode (Element "DIV" ∅ ∅) [2] (Some 0);
                  DNode (Text "false") [] (Some 1)] (Some 0) []).
Proof. vm_compute. reflexivity. Qed.

(** C2 fails on the code for keys that are numbers. [getKeyedNodes] indexes
    the retained children by their attribute [key], a string, and
    [reconcileChildren] asks the index for the key as the description
    gives it: a number is never found, whatever the index holds, and the
    child is compared with the node at its position. The list [A, B, C]
    with the keys [1, 2, 3], rerendered as [C, B, A], keeps its three items
    where they were and rewrites them: the node that was [A] now carries
    the key [3] and the text [C]. With the strings ["1"], ["2"], ["3"] as
    keys the same rerender moves the three nodes and changes nothing else,
    as the claim says. A child without a key is compared with the node at
    its position among the children that are present: in [[false, B]] the
    item [B] is patched onto the first node. *)
Theorem number_keys_are_positional :
  (∀ keyed cs i tg z rest ch hk,
     comparisonTarget keyed cs i (VObj tg (Some (("key", VInt z) :: rest)) ch hk) = cs !! i)
  ∧ (∃ st1 st2,
       patch (Some 1) None (abc (VInt 1) (VInt 2) (VInt 3)) page = Ok (Some 2) st1
       ∧ patch (Some 1) (Some 2) (cba (VInt 1) (VInt 2) (VInt 3)) st1 = Ok (Some 2) st2
       ∧ childrenOf st1 2 = [3; 5; 7] ∧ childrenOf st2 2 = [3; 5; 7]
       ∧ attributeOf st1 3 "key" = Some "1" ∧ textOf st1 <$> childrenOf st1 3 = [Some "A"]
       ∧ attributeOf st2 3 "key" = Some "3" ∧ textOf st2 <$> childrenOf st2 3 = [Some "C"]
       ∧ attributeOf st1 7 "key" = Some "3" ∧ attributeOf st2 7 "key" = Some "1")
  ∧ patch (Some 1) (Some 2) (cba (VString "1") (VString "2") (VString "3")) keyed_list_page
    = Ok (Some 2)
         (Document (<[2 := DNode (Element "UL" ∅ ∅) [7; 5; 3] (Some 1)]>
                      (nodes keyed_list_page))
                   (body keyed_list_page) (calls keyed_list_page))
  ∧ (∃ st1 st2,
       patch (Some 1) None (ul [item "A"]) page = Ok (Some 2) st1
       ∧ patch (Some 1) (Some 2) (ul [VPrim (VBool false); item "B"]) st1 = Ok (Some 2) st2
       ∧ childrenOf st1 2 = [3] ∧ childrenOf st2 2 = [3]
       ∧ textOf st2 <$> childrenOf st2 3 = [Some "B"]).
Proof.
  split_and!.
  - intros keyed cs i tg z rest ch hk. reflexivity.
  - eexists _, _. split_and!; [vm_compute; reflexivity | vm_compute; reflexivity
                               | reflexivity..].
  - vm_compute. reflexivity.
  - eexists _, _. split_and!; [vm_compute; reflexivity | vm_compute; reflexivity
                               | reflexivity..].
Qed.

(** C8 fails on the code for an old text node that lies deeper under the
    container. Patching a string or a number onto a retained text node
    [old]: when the node already holds the same text, [patch] returns it
    and changes nothing. Otherwise it creates a text node [r]: when [old]
    is a child of the container, [r] takes its place among the children and
    [old] is detached; when [old] is not under the container, [r] becomes
    the last child of the container; and when [old] is under the container
    without being its child, [parent.contains(old)] holds, [replaceChild]
    is called and throws [NotFoundError]. *)
Theorem patch_text_node (parent old : nat) (v : value) (st : dom) (on : dnode)
    (s0 : string) :
  isNewText (VPrim v) = true ->
  nodes st !! old = Some on -> payload_of on = Text s0 ->
  (s0 = toString v -> patch (Some parent) (Some old) (VPrim v) st = Ok (Some old) st)
  ∧ (s0 ≠ toString v ->
     ∀ pn, nodes st !! parent = Some pn -> isText pn = false ->
       parents_below (length (nodes st)) (nodes st) ->
       (∀ c, c ∈ childNodes pn -> c < length (nodes st)) ->
       let r := length (nodes st) in
       let fresh := DNode (Text (toString v)) [] (Some parent) in
       (∀ pre post,
          parentNode on = Some parent -> childNodes pn = pre ++ old :: post ->
          NoDup (childNodes pn) ->
          ∃ st', patch (Some parent) (Some old) (VPrim v) st = Ok (Some r) st'
            ∧ nodes st' !! r = Some fresh
            ∧ nodes st' !! parent =
                Some (DNode (payload_of pn) (pre ++ r :: post) (parentNode pn))
            ∧ nodes st' !! old = Some (DNode (Text s0) (childNodes on) None)
            ∧ ∀ y, y ≠ r -> y ≠ parent -> y ≠ old -> nodes st' !! y = nodes st !! y)
       ∧ (¬ descends (nodes st) parent old ->
          ∃ st', patch (Some parent) (Some old) (VPrim v) st = Ok (Some r) st'
            ∧ nodes st' !! r = Some fresh
            ∧ nodes st' !! parent =
                Some (DNode (payload_of pn) (childNodes pn ++ [r]) (parentNode pn))
            ∧ ∀ y, y ≠ r -> y ≠ parent -> nodes st' !! y = nodes st !! y)
       ∧ (parentNode on ≠ Some parent ->
          inclusive_ancestor (length (nodes st)) st parent old = true ->
          patch (Some parent) (Some old) (VPrim v) st = Raise NotFoundError)).
Proof.
  intros Hv Ho Hpay. rewrite (patch_primitive _ _ _ _ Hv).
  rewrite (patchText_on_text _ _ _ _ _ _ Ho Hpay).
  split.
  { intros ->. by rewrite String.eqb_refl. }
  intros Hne pn Hp Hpt Hpb Hcb.
  rewrite (proj2 (String.eqb_neq _ _) Hne).
  cbv zeta. unfold bind at 1 4. unfold createTextNode, alloc.
  set (r := length (nodes st)).
  set (st1 := Document (nodes st ++ [DNode (Text (toString v)) [] None]) (body st) (calls st)).
  assert (parent < r) as Hpr by (by eapply lookup_lt_Some).
  assert (old < r) as Hor by (by eapply lookup_lt_Some).
  assert (nodes st1 !! parent = Some pn) as Hp1 by (simpl; by rewrite lookup_app_l).
  assert (nodes st1 !! old = Some on) as Ho1 by (simpl; by rewrite lookup_app_l).
  assert (nodes st1 !! r = Some (DNode (Text (toString v)) [] None)) as Hr1.
  { simpl. by rewrite list_lookup_middle. }
  assert (inclusive_ancestor (length (nodes st1)) st1 r parent = false) as Hanc.
  { apply inclusive_ancestor_fresh; [|done]. simpl. by apply parents_below_app. }
  assert (old ≠ parent) as Hop.
  { intros ->. rewrite Ho in Hp. simplify_eq. unfold isText in Hpt. by rewrite Hpay in Hpt. }
  split_and!.
  - intros pre post Hparent Hcs Hnd.
    assert (contains parent old st1 = Ok true st1) as Hc.
    { unfold contains. f_equal. simpl. rewrite length_app. simpl.
      rewrite Nat.add_1_r. simpl. rewrite bool_decide_eq_false_2 by done.
      rewrite lookup_app_l, Ho by done. simpl. rewrite Hparent.
      apply inclusive_ancestor_refl. }
    unfold bind at 1. rewrite Hc. unfold bind.
    destruct (replaceChild_child st1 parent r old pn on _ pre post Hp1 Hpt Ho1 Hparent Hr1)
      as (st' & -> & _ & _ & _ & Hr' & Hp' & Ho' & Hrest); try done; try lia.
    { intros Hin. apply Hcb in Hin. lia. }
    exists st'. split_and!; try done.
    + by rewrite Hpay in Ho'.
    + intros y ???. rewrite Hrest by done. simpl.
      destruct (decide (y < r)); [by rewrite lookup_app_l|].
      rewrite !lookup_ge_None_2; [done|lia|rewrite length_app; simpl; lia].
  - intros Hnd.
    assert (contains parent old st1 = Ok false st1) as Hc.
    { unfold contains. f_equal.
      destruct (inclusive_ancestor _ st1 parent old) eqn:Hia; [|done].
      exfalso. apply Hnd. apply inclusive_ancestor_descends in Hia.
      exact (descends_app _ _ _ _ Hpb Hor Hia). }
    unfold bind at 1. rewrite Hc. unfold bind.
    destruct (appendChild_detached st1 parent r pn _ Hp1 Hpt Hr1)
      as (st' & -> & _ & _ & _ & Hr' & Hp' & Hrest); try done; try lia.
    exists st'. split_and!; try done.
    intros y ??. rewrite Hrest by done. simpl.
    destruct (decide (y < r)); [by rewrite lookup_app_l|].
    rewrite !lookup_ge_None_2; [done|lia|rewrite length_app; simpl; lia].
  - intros Hnp Hin.
    assert (contains parent old st1 = Ok true st1) as Hc.
    { unfold contains. f_equal.
      apply (inclusive_ancestor_mono r); [simpl; rewrite length_app; simpl; lia|].
      rewrite <- Hin. apply inclusive_ancestor_same_parents. intros y. simpl.
      destruct (decide (y < r)); [by rewrite lookup_app_l|].
      destruct (decide (y = r)) as [->|]; [by rewrite list_lookup_middle, lookup_ge_None_2|].
      rewrite !lookup_ge_None_2; [done|lia|rewrite length_app; simpl; lia]. }
    assert (replaceChild parent r old st1 = Raise NotFoundError) as Hrep.
    { unfold replaceChild, ensure_parent_can_hold.
      mstep (node_lookup _ _ _ Hp1). rewrite Hpt.
      assert (contains r parent st1 = Ok false st1) as Hcr by (unfold contains; by rewrite Hanc).
      mstep Hcr. unfold ensure_child_of. mstep (node_lookup _ _ _ Ho1).
      by rewrite bool_decide_eq_false_2. }
    unfold bind at 1. cbv beta iota. fold r. fold st1.
    rewrite (bind_ok _ _ _ _ _ Hc). unfold bind. by rewrite Hrep.
Qed.

Lemma patch_text_node_witness :
  patch (Some 1) (Some 2) (VPrim (VInt 5)) counter_page = Ok (Some 2) counter_page
  ∧ (∃ st', patch (Some 1) (Some 2) (VPrim (VInt 6)) counter_page = Ok (Some 3) st'
            ∧ nodes st' !! 3 = Some (DNode (Text "6") [] (Some 1))
            ∧ nodes st' !! 1 = Some (DNode (Element "DIV" ∅ ∅) ([] ++ 3 :: []) (Some 0))
            ∧ nodes st' !! 2 = Some (DNode (Text "5") [] None)
            ∧ ∀ y, y ≠ 3 -> y ≠ 1 -> y ≠ 2 -> nodes st' !! y = nodes counter_page !! y)
  ∧ patch (Some 1) (Some 3) (VPrim (VInt 6)) nested_text_page = Raise NotFoundError.
Proof.
  split_and!.
  - apply (patch_text_node 1 2 (VInt 5) counter_page (DNode (Text "5") [] (Some 1)) "5");
      reflexivity.
  - apply (proj2 (patch_text_node 1 2 (VInt 6) counter_page (DNode (Text "5") [] (Some 1))
                    "5" eq_refl eq_refl eq_refl) ltac:(done)
             (DNode (Element "DIV" ∅ ∅) [2] (Some 0)));
      [reflexivity|reflexivity| | |reflexivity|reflexivity|by apply (bool_decide_unpack _)].
    + intros y n p Hy Hn Hp. unfold counter_page in *. simpl in *.
      destruct y as [|[|[|y]]]; simplify_eq/=; lia.
    + intros c' ->%list_elem_of_singleton. simpl. lia.
  - apply (proj2 (patch_text_node 1 3 (VInt 6) nested_text_page (DNode (Text "5") [] (Some 2))
                    "5" eq_refl eq_refl eq_refl) ltac:(done)
             (DNode (Element "DIV" ∅ ∅) [2] (Some 0)));
      [reflexivity|reflexivity| | |done|reflexivity].
    + intros y n p Hy Hn Hp. unfold nested_text_page in *. simpl in *.
      destruct y as [|[|[|[|y]]]]; simplify_eq/=; lia.
    + intros c' ->%list_elem_of_singleton. simpl. lia.
Defined.

(** The text [5] replaced by [6]: the container holds the new node 3. *)
Example patch_text_changed :
  patch (Some 1) (Some 2) (VPrim (VInt 6)) counter_page =
    Ok (Some 3)
       (Document [DNode (Element "BODY" ∅ ∅) [1] None;
                  DNode (Element "DIV" ∅ ∅) [3] (Some 0);
                  DNode (Text "5") [] None;
                  DNode (Text "6") [] (Some 1)] (Some 0) []).
Proof. vm_compute. reflexivity. Qed.



(** The round trip of the documentation: [Vnode('div', {}, ['a'])] builds
    the [div] (node 2) and its text (node 3) in the container, and the second
    patch returns node 2 and the same document. *)
Example div_a_round_trip :
  ∃ st1,
    patch (Some 1) None div_a page = Ok (Some 2) st1
    ∧ nodes st1 = [DNode (Element "BODY" ∅ ∅) [1] None;
                   DNode (Element "DIV" ∅ ∅) [2] (Some 0);
                   DNode (Element "DIV" ∅ ∅) [3] (Some 1);
                   DNode (Text "a") [] (Some 2)]
    ∧ patch (Some 1) (Some 2) div_a st1 = Ok (Some 2) st1.
Proof. eexists. split_and!; vm_compute; reflexivity. Qed.

(** With an [onMount] hook on the [div] and on an item inside it: the hooks
    are called by the first patch, the second patch calls nothing and
    leaves the document as it was. *)
Example hooked_round_trip :
  ∃ st1,
    patch (Some 1) None hooked_div_a page = Ok (Some 2) st1
    ∧ calls st1 = [CallOnMount 9 2]
    ∧ patch (Some 1) (Some 2) hooked_div_a st1 = Ok (Some 2) st1.
Proof. eexists. split_and!; vm_compute; reflexivity. Qed.

(** A list with an absent item between two items goes through the same
    round trip. *)
Example nested_round_trip :
  let d := Vnode (TagName "ul") (Some (Some []))
             (VArray [Vnode (TagName "li") (Some (Some [])) (VPrim (VString "A"));
                      VPrim (VBool false);
                      Vnode (TagName "li") (Some (Some [])) (VPrim (VInt 2))]) in
  plain d = true
  ∧ ∃ st1, patch (Some 1) None d page = Ok (Some 2) st1
           ∧ patch (Some 1) (Some 2) d st1 = Ok (Some 2) st1.
Proof. split; [reflexivity|]. eexists. split; vm_compute; reflexivity. Qed.


(** ** Descriptions without attributes *)



(** ** The index of keyed children *)

Lemma getKeyedNodes_from_last st rs : ∀ keyed,
  (∀ r, r ∈ rs -> is_Some (nodes st !! r)) ->
  ∃ keyed', getKeyedNodes_from keyed rs st = Ok keyed' st
    ∧ ∀ k, keyed' !! k = match last (filter (λ r, carries_key st k r = true) rs) with
                         | Some r => Some r
                         | None => keyed !! k
                         end.
Proof.
  induction rs as [|r rs IH]; intros keyed Hval; simpl.
  - by exists keyed.
  - destruct (Hval r) as [n Hn]; [left|].
    mstep (node_lookup _ _ _ Hn).
    edestruct IH as (keyed' & -> & Hk); [intros r' Hr'; apply Hval; by right|].
    exists keyed'. split; [done|]. intros k. rewrite Hk.
    assert (carries_key st k r
            = isElement n && bool_decide (getAttribute n "key" = Some k)) as Hck.
    { unfold carries_key. by rewrite Hn. }
    rewrite filter_cons. cbv beta. rewrite Hck.
    destruct (isElement n) eqn:He; simpl.
    + destruct (getAttribute n "key") as [key|] eqn:Hkey.
      * destruct (decide (key = k)) as [->|Hne].
        -- rewrite bool_decide_eq_true_2 by done.
           rewrite decide_True by done. rewrite last_cons.
           destruct (last _); [done|]. by rewrite lookup_insert_eq.
        -- rewrite bool_decide_eq_false_2 by congruence.
           rewrite decide_False by done.
           destruct (last _); [done|]. by rewrite lookup_insert_ne.
      * rewrite bool_decide_eq_false_2 by done. by rewrite decide_False by done.
    + done.
Qed.

(** [getKeyedNodes] walks the whole snapshot and [Map.set] overwrites: a
    key is indexed exactly when some element of the snapshot has it as its
    [key] attribute, and it is mapped to the last such element. Text nodes
    and elements without the attribute are left out. *)
Theorem getKeyedNodes_last_wins (st : dom) (rs : list nat) :
  (∀ r, r ∈ rs -> is_Some (nodes st !! r)) ->
  ∃ keyed, getKeyedNodes rs st = Ok keyed st
    ∧ ∀ k, keyed !! k = last (filter (λ r, carries_key st k r = true) rs).
Proof.
  intros Hval. destruct (getKeyedNodes_from_last st rs ∅ Hval) as (keyed & H & Hk).
  exists keyed. split; [done|]. intros k. rewrite Hk.
  destruct (last _); [done|]. apply lookup_empty.
Qed.

Lemma getKeyedNodes_last_wins_witness :
  ∃ keyed, getKeyedNodes [3; 5; 7] keyed_list_page = Ok keyed keyed_list_page
    ∧ ∀ k, keyed !! k
           = last (filter (λ r, carries_key keyed_list_page k r = true) [3; 5; 7]).
Proof.
  apply (getKeyedNodes_last_wins keyed_list_page [3; 5; 7]).
  intros r Hr. repeat (apply elem_of_cons in Hr as [->|Hr]; [by eexists|]).
  by apply elem_of_nil in Hr.
Defined.

(** ** Errors *)

(** An element description patched over a retained fragment (what [patch]
    returns for an array) throws: a fragment has no [tagName], and
    [shouldReplace] calls [toLowerCase] on it. *)
Theorem element_over_fragment_throws (c o : nat) (on : dnode) (t : string)
    (attrs : option (list (string * value))) (children : list vnode) (hk : hooks)
    (st : dom) :
  nodes st !! o = Some on -> payload_of on = Fragment ->
  patch (Some c) (Some o) (VObj (TagName t) attrs children hk) st = Raise TypeError.
Proof.
  intros Ho Hpay. unfold patch. cbn [patch_with]. unfold bind at 1.
  unfold shouldReplace, bind. rewrite (node_lookup _ _ _ Ho).
  unfold isText. rewrite Hpay. reflexivity.
Qed.

Lemma element_over_fragment_throws_witness :
  patch (Some 1) (Some 2) div_a
        (Document (nodes page ++ [DNode Fragment [] None]) (Some 0) [])
  = Raise TypeError.
Proof.
  apply (element_over_fragment_throws 1 2 (DNode Fragment [] None)); reflexivity.
Defined.

Lemma appendChild_self b st : ∃ e, appendChild b (Some b) st = Raise e.
Proof.
  unfold appendChild, insertBefore, ensure_parent_can_hold, bind at 1 2, node.
  destruct (nodes st !! b) as [n|]; [|by eexists].
  destruct (isText n); [by eexists|].
  unfold bind, contains. rewrite inclusive_ancestor_refl. by eexists.
Qed.

Lemma bind_raises {A B} (m : M A) (k : A -> M B) st :
  (∀ a st', ∃ e, k a st' = Raise e) -> ∃ e, bind m k st = Raise e.
Proof. intros H. unfold bind. destruct (m st); eauto. Qed.

(** A [body] description mounted in [document.body] itself never succeeds:
    [createElement] hands back the existing body, and [replaceNode] then
    appends the body to itself. Whatever the attributes and the children
    are, the call ends in an exception. *)
Theorem body_into_body_throws (st : dom) (b : nat)
    (attrs : option (list (string * value))) (children : list vnode) (hk : hooks) :
  body st = Some b ->
  ∃ e, patch (Some b) None (VObj (TagName "body") attrs children hk) st = Raise e.
Proof.
  intros Hb. unfold patch. cbn [patch_with]. mnorm. cbn beta iota.
  unfold replaceNode, createElement.
  change (String.eqb "body" "body") with true. cbn beta iota.
  assert (document_body st = Ok (Some b) st) as Hdb by (unfold document_body; by rewrite Hb).
  mstep Hdb.
  apply bind_raises. intros _ st1. mnorm. apply bind_raises. intros [] st2. mnorm.
  unfold bind at 1. destruct (appendChild_self b st2) as [e ->]. by eexists.
Qed.

Lemma body_into_body_throws_witness :
  ∃ e, patch (Some 0) None (VObj (TagName "body") (Some []) [] (Hooks None)) page = Raise e.
Proof. apply (body_into_body_throws page 0). reflexivity. Defined.

(** ** Attributes *)

Lemma applyAttr_attributes el key v st st' :
  applyAttr el key v st = Ok tt st' ->
  (∀ name, toLowerCase key ≠ toLowerCase name ->
           attributeOf st' el name = attributeOf st el name)
  ∧ (v ≠ VBool false ->
     ∀ name, is_Some (attributeOf st el name) -> is_Some (attributeOf st' el name)).
Proof.
  unfold applyAttr, bind, node. destruct (nodes st !! el) as [n|] eqn:Hn; [|done].
  assert (∀ c, record c st = Ok tt st' ->
    (∀ name, attributeOf st' el name = attributeOf st el name)) as Hrec.
  { unfold record. intros c [= <-]. done. }
  assert (∀ k w, setProperty el k w st = Ok tt st' ->
    (∀ name, attributeOf st' el name = attributeOf st el name)) as Hprop.
  { unfold setProperty, bind, node, modify. rewrite Hn.
    destruct (payload_of n) as [|tg a pr|] eqn:Hpay; intros k w [= <-] name; try done.
    unfold attributeOf. simpl. rewrite list_lookup_alter_eq, Hn. simpl.
    unfold getAttribute. simpl. by rewrite Hpay. }
  assert (∀ w, setAttribute el key w st = Ok tt st' ->
    (∀ name, toLowerCase key ≠ toLowerCase name ->
             attributeOf st' el name = attributeOf st el name)
    ∧ ∀ name, is_Some (attributeOf st el name) -> is_Some (attributeOf st' el name))
    as Hset.
  { unfold setAttribute, bind, node, modify. rewrite Hn.
    destruct (payload_of n) as [|tg a pr|] eqn:Hpay; intros w; try done.
    destruct (validName key); [|done]. intros [= <-].
    unfold attributeOf. simpl. rewrite list_lookup_alter_eq, Hn. simpl.
    unfold getAttribute. simpl. rewrite Hpay. split.
    - intros name Hne. by rewrite lookup_insert_ne.
    - intros name Hsome. destruct (decide (toLowerCase key = toLowerCase name)) as [->|Hne].
      + rewrite lookup_insert_eq. by eexists.
      + by rewrite lookup_insert_ne. }
  assert (removeAttribute el key st = Ok tt st' ->
    ∀ name, toLowerCase key ≠ toLowerCase name ->
            attributeOf st' el name = attributeOf st el name) as Hrem.
  { unfold removeAttribute, bind, node, modify. rewrite Hn.
    destruct (payload_of n) as [|tg a pr|] eqn:Hpay; intros [= <-]; try done.
    unfold attributeOf. simpl. rewrite list_lookup_alter_eq, Hn. simpl.
    unfold getAttribute. simpl. rewrite Hpay.
    intros name Hne. by rewrite lookup_delete_ne. }
  destruct (String.eqb key "ref").
  { destruct v; try done. intros H. split; intros; by rewrite (Hrec _ H). }
  destruct (String.eqb key "focus" && bool_decide (v = VBool true)).
  { intros H. split; intros; by rewrite (Hrec _ H). }
  destruct (startsWith "on" key && _).
  { intros H. split; intros; by rewrite (Hprop _ _ H). }
  destruct (String.eqb key "value" && _).
  { intros H. split; intros; by rewrite (Hprop _ _ H). }
  destruct (String.eqb key "checked" && _).
  { intros H. split; intros; by rewrite (Hprop _ _ H). }
  case_bool_decide as Ht.
  { intros H. destruct (Hset _ H) as [H1 H2]. split; [done|]. intros _. apply H2. }
  case_bool_decide as Hf.
  { intros H. split; [by apply Hrem|]. by intros []. }
  destruct (negb (nullish v)).
  { intros H. destruct (Hset _ H) as [H1 H2]. split; [done|]. intros _. apply H2. }
  intros [= <-]. by split.
Qed.

(** The loop of [updateElement] over the attributes of a description: an
    attribute of the element that the description does not mention keeps
    its value (it is not cleared), and an attribute disappears only when
    the description gives the value [false] for it. *)
Theorem attributes_outlive_descriptions (el : nat) (attrs : list (string * value))
    (st st' : dom) :
  applyAttrs el attrs st = Ok tt st' ->
  (∀ name, (∀ k v, (k, v) ∈ attrs -> toLowerCase k ≠ toLowerCase name) ->
           attributeOf st' el name = attributeOf st el name)
  ∧ ((∀ k v, (k, v) ∈ attrs -> v ≠ VBool false) ->
     ∀ name, is_Some (attributeOf st el name) -> is_Some (attributeOf st' el name)).
Proof.
  revert st. induction attrs as [|[k v] attrs IH]; intros st; simpl.
  - intros [= <-]. by split.
  - unfold bind at 1. destruct (applyAttr el k v st) as [[] st1|] eqn:H1; [|done].
    intros H. destruct (applyAttr_attributes _ _ _ _ _ H1) as [Ha1 Ha2].
    destruct (IH _ H) as [Hb1 Hb2]. split.
    + intros name Hname. rewrite Hb1, Ha1; [done|..].
      * apply (Hname k v). left.
      * intros k' v' Hin. apply (Hname k' v'). by right.
    + intros Hnf name Hsome. apply Hb2.
      * intros k' v' Hin. apply (Hnf k' v'). by right.
      * apply Ha2; [|done]. apply (Hnf k v). left.
Qed.

Lemma attributes_outlive_descriptions_witness :
  (∀ name, (∀ k v, (k, v) ∈ [("title", VString "t")] -> toLowerCase k ≠ toLowerCase name) ->
           attributeOf (documentOf (applyAttrs 3 [("title", VString "t")] keyed_list_page)
                          keyed_list_page) 3 name
           = attributeOf keyed_list_page 3 name)
  ∧ ((∀ k v, (k, v) ∈ [("title", VString "t")] -> v ≠ VBool false) ->
     ∀ name, is_Some (attributeOf keyed_list_page 3 name) ->
             is_Some (attributeOf (documentOf (applyAttrs 3 [("title", VString "t")]
                                                 keyed_list_page) keyed_list_page) 3 name)).
Proof.
  apply (attributes_outlive_descriptions 3 [("title", VString "t")] keyed_list_page).
  vm_compute. reflexivity.
Defined.

(** ** Arrays *)

(** A rendering stays one when its root is given another parent. *)
Lemma rendered_reparent d l l' r n p' :
  rendered l r d ->
  l !! r = Some n -> l' !! r = Some (DNode (payload_of n) (childNodes n) p') ->
  (∀ y, r < y -> is_Some (l !! y) -> l' !! y = l !! y) ->
  rendered l' r d.
Proof.
  intros Hr Hn Hn' Hfr.
  destruct d as [v|items|[t|f] attrs children own]; try done.
  - destruct Hr as (p & Hr). rewrite Hr in Hn. simplify_eq. by exists p'.
  - apply rendered_VObj in Hr as (T & a & pr & cs & p & Hel & HT & Hcs).
    rewrite Hel in Hn. simplify_eq. simpl in Hn'.
    apply rendered_VObj. exists T, a, pr, cs, p'. split_and!; [done..|].
    eapply each_rendered_frame; [| |exact Hcs].
    + intros c' r' Hc'. by apply (rendered_frame (vsize c')).
    + done.
Qed.

Lemma inclusive_ancestor_root fuel st a x n :
  nodes st !! x = Some n -> parentNode n = None -> a ≠ x ->
  inclusive_ancestor fuel st a x = false.
Proof.
  intros Hx Hp Hne. destruct fuel; simpl; rewrite bool_decide_eq_false_2 by done;
    [done|]. by rewrite Hx; simpl; rewrite Hp.
Qed.

(** [q.appendChild(r)] for a node [r] that is a child of another node [p]:
    [r] leaves the children of [p] and becomes the last child of [q]. *)
Lemma appendChild_move st q r p qn rn pn :
  nodes st !! q = Some qn -> isText qn = false ->
  nodes st !! r = Some rn -> parentNode rn = Some p -> payload_of rn ≠ Fragment ->
  nodes st !! p = Some pn ->
  inclusive_ancestor (length (nodes st)) st r q = false ->
  p ≠ q -> r ≠ q -> r ≠ p ->
  ∃ st', appendChild q (Some r) st = Ok r st'
    ∧ body st' = body st ∧ calls st' = calls st
    ∧ length (nodes st') = length (nodes st)
    ∧ nodes st' !! r = Some (DNode (payload_of rn) (childNodes rn) (Some q))
    ∧ nodes st' !! q = Some (DNode (payload_of qn) (childNodes qn ++ [r]) (parentNode qn))
    ∧ nodes st' !! p = Some (DNode (payload_of pn) (filter (λ x, x ≠ r) (childNodes pn))
                                   (parentNode pn))
    ∧ ∀ y, y ≠ r -> y ≠ q -> y ≠ p -> nodes st' !! y = nodes st !! y.
Proof.
  intros Hq Hqt Hr Hrp Hrf Hp Hanc Hpq Hrq Hrp'.
  unfold appendChild, insertBefore, ensure_parent_can_hold, contains, bind.
  rewrite (node_lookup _ _ _ Hq), Hqt, Hanc. simpl.
  unfold insert, bind. rewrite (node_lookup _ _ _ Hr).
  assert ((do detach r then do insert_at q r None then ret tt) st =
          Ok tt (Document
                   (alter (λ n, DNode (payload_of n) (childNodes n) (Some q)) r
                      (alter (λ qn', DNode (payload_of qn')
                                       (childNodes qn' ++ [r]) (parentNode qn')) q
                         (alter (λ n, DNode (payload_of n) (childNodes n) None) r
                            (alter (λ pn', DNode (payload_of pn')
                                             (filter (λ x, x ≠ r) (childNodes pn'))
                                             (parentNode pn')) p (nodes st)))))
                   (body st) (calls st))) as Hins.
  { unfold bind, detach, bind. rewrite (node_lookup _ _ _ Hr), Hrp. simpl.
    unfold insert_at, bind, modify. simpl. do 3 f_equal.
    apply list_alter_ext; [|done]. intros pn' _. f_equal.
    by rewrite take_ge, drop_ge by lia. }
  destruct (payload_of rn) eqn:Hpay; try done; cbv beta iota;
    change (insert_all q [r] None st)
      with ((do detach r then do insert_at q r None then ret tt) st);
    rewrite Hins; simpl;
    (eexists; split; [reflexivity|]; simpl; split_and!; try done;
     [ by rewrite !length_alter
     | rewrite list_lookup_alter_eq, list_lookup_alter_ne, list_lookup_alter_eq,
         list_lookup_alter_ne, Hr by done; simpl; by rewrite Hpay
     | by rewrite list_lookup_alter_ne, list_lookup_alter_eq, list_lookup_alter_ne,
         list_lookup_alter_ne, Hq by done
     | by rewrite !list_lookup_alter_ne, list_lookup_alter_eq, Hp by done
     | intros y ???; by rewrite !list_lookup_alter_ne by done ]).
Qed.

(** [createElement] on a plain element description: the element is
    allocated after every node of the heap, its children are mounted in it,
    and it is attached nowhere yet. No older node changes. *)
Lemma createElement_plain t children own st :
  toLowerCase t = t -> String.eqb t "body" = false -> onMount own = None ->
  all_plain children = true ->
  attributeName t = true -> all_named children = true ->
  parents_below (length (nodes st)) (nodes st) ->
  ∃ st_k cs,
    createElement (patch_with None) own (VObj (TagName t) (Some []) children own) st
    = Ok (length (nodes st)) st_k
    ∧ nodes st_k !! length (nodes st)
      = Some (DNode (Element (toUpperCase (toLowerCase t)) ∅ ∅) cs None)
    ∧ each_rendered (nodes st_k) (length (nodes st)) cs children
    ∧ (∀ y, y < length (nodes st) -> nodes st_k !! y = nodes st !! y)
    ∧ length (nodes st) < length (nodes st_k)
    ∧ parents_below (length (nodes st_k)) (nodes st_k).
Proof.
  intros Hlow Hbody Hhk Hall Hname Hnames Hpb.
  set (el := length (nodes st)).
  set (E := Element (toUpperCase (toLowerCase t)) ∅ ∅).
  destruct (alloc_spec E st) as (st_a & Hnew & _ & Hlen_a & Hel_a & Hold_a & Hpb_a).
  fold el in Hnew, Hlen_a, Hel_a, Hold_a.
  destruct (reconcile_loop_mount el E None children) with (i := 0) (st := st_a) (done := @nil nat)
    as (st_k & cs & Hloop & Hel_k & Hcs & Hfr_k & Hlen_k & Hpb_k); try done.
  { intros c' Hc' _ Hpl' st' cn'. apply (patch_mount_bare (vsize c')); [done..|].
    by eapply all_named_elem. }
  { by apply all_plain_bare. }
  { by apply Hpb_a. }
  simpl in Hel_k. exists st_k, cs. split_and!; try done.
  - unfold createElement. rewrite Hbody, Hhk.
    assert (document_createElement t st = Ok el st_a) as Hcreate.
    { by rewrite document_createElement_named. }
    mstep Hcreate.
    unfold updateElement. cbn [applyAttrs]. mnorm.
    unfold reconcileChildren. mstep (node_lookup _ _ _ Hel_a). cbn [childNodes].
    unfold getKeyedNodes. cbn [getKeyedNodes_from]. mnorm.
    mstep Hloop.
    mstep (reinsert_in_place st_k el _ cs Hel_k 0 eq_refl).
    mstep (node_lookup _ _ _ Hel_k). cbn [childNodes]. rewrite length_fmap.
    by mstep (trim_nothing st_k el _ (length cs) Hel_k).
  - intros y Hy. rewrite Hfr_k by lia. by apply Hold_a.
  - lia.
Qed.

(** Mounting a plain description, with the root of the rendering in the
    open: it is a child of the container and not a fragment. *)
Lemma patch_mount_root d st c cn :
  plain d = true -> named d = true ->
  nodes st !! c = Some cn -> isText cn = false ->
  parents_below (length (nodes st)) (nodes st) ->
  ∃ st1 rn,
    patch_with None (Some c) None d st = Ok (Some (length (nodes st))) st1
    ∧ mounted st c cn d st1
    ∧ nodes st1 !! length (nodes st) = Some rn
    ∧ parentNode rn = Some c ∧ payload_of rn ≠ Fragment.
Proof.
  intros Hplain Hnamed Hc Hct Hpb. set (r := length (nodes st)).
  assert (c < r) as Hcr by (by eapply lookup_lt_Some).
  destruct (patch_mount_plain d st c cn Hplain Hnamed Hc Hct Hpb)
    as (st1 & Hpatch & Hm). fold r in Hpatch.
  exists st1.
  destruct d as [v|items|[t|f] attrs children own]; try done.
  - (* text *)
    destruct (alloc_spec (Text (toString v)) st)
      as (st_b & Hnew & _ & Hlen_b & Hr_b & Hold_b & Hpb_b).
    fold r in Hnew, Hlen_b, Hr_b, Hold_b.
    assert (nodes st_b !! c = Some cn) as Hc_b by (by rewrite Hold_b).
    destruct (appendChild_detached_wf st_b c r cn _ Hc_b Hct Hr_b eq_refl)
      as (st_c & Happ & Hlen_c & Hr_c & _); [done| |lia|by apply Hpb_b|].
    { apply inclusive_ancestor_fresh; [|done].
      intros y n p Hy Hn Hp. rewrite Hold_b in Hn by done. by eapply (Hpb y). }
    assert (patch_with None (Some c) None (VPrim v) st = Ok (Some r) st_c) as Hpatch'.
    { simpl in Hplain. unfold textual in Hplain. apply andb_prop in Hplain as [Hnn Hobj].
      cbn [patch_with]. rewrite (negb_true_iff _) in Hnn. rewrite Hnn.
      assert (patchText c None v st = Ok (Some r) st_c) as Ht.
      { unfold patchText. mnorm. cbn beta iota. unfold createTextNode.
        mstep Hnew. by mstep Happ. }
      by destruct v. }
    rewrite Hpatch in Hpatch'. simplify_eq. eexists. by split_and!.
  - (* element *)
    apply plain_VObj in Hplain as (Hlow & Hbody & -> & Hhk & Hall).
    apply named_VObj in Hnamed as (Hname & Hnames).
    destruct (createElement_plain t children own st Hlow Hbody Hhk Hall Hname Hnames Hpb)
      as (st_k & cs & Hcreate & Hel_k & Hcs & Hfr_k & Hlen_k & Hpb_k).
    fold r in Hcreate, Hel_k, Hcs, Hfr_k, Hlen_k.
    assert (nodes st_k !! c = Some cn) as Hc_k by (by rewrite Hfr_k).
    destruct (appendChild_detached_wf st_k c r cn _ Hc_k Hct Hel_k eq_refl)
      as (st_d & Happ & Hlen_d & Hel_d & _); [done| |lia|done|].
    { apply inclusive_ancestor_fresh; [|done].
      intros y m p Hy Hm' Hp. rewrite Hfr_k in Hm' by lia. by eapply (Hpb y). }
    assert (patch_with None (Some c) None (VObj (TagName t) (Some []) children own) st
            = Ok (Some r) st_d) as Hpatch'.
    { cbn [patch_with]. mnorm. cbn beta iota. unfold replaceNode.
      cbn [default from_option id]. mstep Hcreate. by mstep Happ. }
    rewrite Hpatch in Hpatch'. simplify_eq. eexists. by split_and!.
Qed.

(** The loop of [patchFragment] over plain children: every present child
    is mounted in the container and then moved into the fragment. *)
Lemma patchFragment_loop_plain c cn frag children :
  all_plain children = true -> all_named children = true -> isText cn = false ->
  ∀ st done,
    nodes st !! c = Some cn -> nodes st !! frag = Some (DNode Fragment done None) ->
    c ≠ frag ->
    (∀ x, x ∈ childNodes cn -> x < length (nodes st)) ->
    parents_below (length (nodes st)) (nodes st) ->
    ∃ st' new,
      patchFragment_loop (patch_with None) frag (Some c) children st = Ok tt st'
      ∧ nodes st' !! frag = Some (DNode Fragment (done ++ new) None)
      ∧ each_rendered (nodes st') frag new children
      ∧ (∀ y, y < length (nodes st) -> y ≠ frag -> nodes st' !! y = nodes st !! y)
      ∧ length (nodes st) ≤ length (nodes st')
      ∧ parents_below (length (nodes st')) (nodes st').
Proof.
  intros Hall Hnames Hct. induction children as [|d children IH];
    intros st done Hc Hfrag Hne Hcs Hpb.
  - exists st, []. simpl. rewrite app_nil_r. by split_and!.
  - simpl in Hall. apply andb_prop in Hall as [Hd Hall].
    simpl in Hnames. apply andb_prop in Hnames as [Hdn Hnames].
    cbn [patchFragment_loop each_rendered]. destruct (present d) eqn:Hp.
    + simpl in Hd. set (r := length (nodes st)).
      assert (c < r) as Hcr by (by eapply lookup_lt_Some).
      assert (frag < r) as Hfr by (by eapply lookup_lt_Some).
      destruct (patch_mount_root d st c cn Hd Hdn Hc Hct Hpb)
        as (st1 & rn & Hpatch & (Hr1 & Hc1 & Hfr1 & Hlen1 & Hpb1) & Hrn & Hrp & Hrf).
      fold r in Hpatch, Hr1, Hc1, Hfr1, Hlen1, Hrn.
      assert (nodes st1 !! frag = Some (DNode Fragment done None)) as Hfrag1.
      { by rewrite Hfr1 by done. }
      destruct (appendChild_move st1 frag r c _ rn _ Hfrag1 eq_refl Hrn Hrp Hrf Hc1)
        as (st2 & Happ & _ & _ & Hlen2 & Hr2 & Hfrag2 & Hc2 & Hrest2); try done; try lia.
      { eapply inclusive_ancestor_root; [exact Hfrag1|done|lia]. }
      simpl in Hfrag2, Hc2.
      assert (filter (λ x, x ≠ r) (childNodes cn ++ [r]) = childNodes cn) as Hfilter.
      { rewrite filter_app, filter_cons_False, filter_nil, app_nil_r by (by intros H).
        apply filter_ne_id. intros Hin. apply Hcs in Hin. lia. }
      rewrite Hfilter in Hc2.
      assert (nodes st2 !! c = Some cn) as Hc2' by (rewrite Hc2; by destruct cn).
      assert (parents_below (length (nodes st2)) (nodes st2)) as Hpb2.
      { intros y n p Hy Hn Hpn. rewrite Hlen2 in Hy |- *.
        destruct (decide (y = r)) as [->|Hyr].
        { rewrite Hr2 in Hn. simplify_eq. simpl in Hpn. simplify_eq. lia. }
        destruct (decide (y = frag)) as [->|Hyf].
        { rewrite Hfrag2 in Hn. by simplify_eq. }
        destruct (decide (y = c)) as [->|Hyc].
        { rewrite Hc2' in Hn. simplify_eq. pose proof (Hpb c n p Hcr Hc Hpn). lia. }
        rewrite Hrest2 in Hn by done. by eapply (Hpb1 y). }
      destruct (IH Hall Hnames st2 (done ++ [r]) Hc2' Hfrag2 Hne)
        as (st' & new & Hloop & Hfrag' & Hnew & Hfr' & Hlen' & Hpb'); [|done|].
      { intros x Hx. apply Hcs in Hx. lia. }
      exists st', (r :: new). split_and!.
      * mstep Hpatch. by mstep Happ.
      * by rewrite <- app_assoc in Hfrag'.
      * done.
      * eapply (rendered_frame (vsize d)); [done| |].
        -- eapply (rendered_reparent d (nodes st1)); [exact Hr1|exact Hrn|exact Hr2|].
           intros y Hy _. apply Hrest2; lia.
        -- intros y Hy Hsome. apply Hfr'; [|lia].
           apply lookup_lt_is_Some in Hsome. lia.
      * done.
      * intros y Hy Hyf. rewrite Hfr' by (done || lia).
        destruct (decide (y = c)) as [->|Hyc]; [by rewrite Hc2'|].
        rewrite Hrest2 by lia. by apply Hfr1.
      * lia.
      * done.
    + by apply IH.
Qed.

(** An array of plain descriptions whose tags are names, patched into a
    container: the children are rendered into a new fragment, which [patch]
    returns and attaches nowhere. Every child passes through the container
    and is taken out of it again, so that the container, like every other
    node that existed, ends as it was: nothing of the array shows in it.
    The previous node is not looked at. *)
Theorem array_leaves_container_untouched (children : list vnode) (st : dom) (c : nat)
    (cn : dnode) (old : option nat) :
  all_plain children = true -> all_named children = true ->
  nodes st !! c = Some cn -> isText cn = false ->
  (∀ x, x ∈ childNodes cn -> x < length (nodes st)) ->
  parents_below (length (nodes st)) (nodes st) ->
  ∃ st1 cs,
    patch (Some c) old (VArray children) st = Ok (Some (length (nodes st))) st1
    ∧ nodes st1 !! length (nodes st) = Some (DNode Fragment cs None)
    ∧ each_rendered (nodes st1) (length (nodes st)) cs children
    ∧ ∀ y, y < length (nodes st) -> nodes st1 !! y = nodes st !! y.
Proof.
  intros Hall Hnames Hc Hct Hcs Hpb. set (frag := length (nodes st)).
  assert (c < frag) as Hcf by (by eapply lookup_lt_Some).
  destruct (alloc_spec Fragment st) as (st_a & Hnew & _ & Hlen_a & Hfrag_a & Hold_a & Hpb_a).
  fold frag in Hnew, Hlen_a, Hfrag_a, Hold_a.
  destruct (patchFragment_loop_plain c cn frag children Hall Hnames Hct st_a [])
    as (st1 & cs & Hloop & Hfrag1 & Hr1 & Hfr1 & _ & _);
    [by rewrite Hold_a|done|lia| |by apply Hpb_a|].
  { intros x Hx. apply Hcs in Hx. lia. }
  simpl in Hfrag1. exists st1, cs. split_and!; try done.
  - unfold patch. cbn [patch_with]. unfold patchFragment.
    assert (createDocumentFragment st = Ok frag st_a) as Hcreate by exact Hnew.
    mstep Hcreate. by mstep Hloop.
  - intros y Hy. rewrite Hfr1 by lia. by apply Hold_a.
Qed.

Lemma array_leaves_container_untouched_witness :
  ∃ st1 cs,
    patch (Some 1) None (VArray [VPrim (VString "a"); VPrim VNull; div_a]) page
    = Ok (Some (length (nodes page))) st1
    ∧ nodes st1 !! length (nodes page) = Some (DNode Fragment cs None)
    ∧ each_rendered (nodes st1) (length (nodes page)) cs
        [VPrim (VString "a"); VPrim VNull; div_a]
    ∧ ∀ y, y < length (nodes page) -> nodes st1 !! y = nodes page !! y.
Proof.
  apply (array_leaves_container_untouched [VPrim (VString "a"); VPrim VNull; div_a]
           page 1 (DNode (Element "DIV" ∅ ∅) [] (Some 0)) None).
  - reflexivity.
  - reflexivity.
  - reflexivity.
  - reflexivity.
  - intros x Hx. by apply elem_of_nil in Hx.
  - intros y n p Hy Hn Hp. unfold page in *. simpl in *.
    destruct y as [|[|y]]; simplify_eq/=; lia.
Defined.

(** ** Replacement *)

(** A plain element description whose tags are names, patched over a child
    of the container that cannot be kept (a text node, or an element with
    another tag): the description is rendered afresh, the rendering takes
    the place of the old node among the children of the container, and the
    old node is detached with its subtree left as it was. *)
Theorem element_replaces_in_place (t : string) (attrs : option (list (string * value)))
    (children : list vnode) (own : hooks) (st : dom) (c old : nat) (cn on : dnode)
    (pre post : list nat) :
  let d := VObj (TagName t) attrs children own in
  plain d = true -> named d = true ->
  nodes st !! c = Some cn -> isText cn = false ->
  nodes st !! old = Some on -> parentNode on = Some c -> old ≠ c ->
  match payload_of on with
  | Text _ => True
  | Element T _ _ => toLowerCase T ≠ t
  | Fragment => False
  end ->
  childNodes cn = pre ++ old :: post -> NoDup (childNodes cn) ->
  (∀ x, x ∈ childNodes cn -> x < length (nodes st)) ->
  parents_below (length (nodes st)) (nodes st) ->
  let r := length (nodes st) in
  ∃ st1,
    patch (Some c) (Some old) d st = Ok (Some r) st1
    ∧ rendered (nodes st1) r d
    ∧ nodes st1 !! c = Some (DNode (payload_of cn) (pre ++ r :: post) (parentNode cn))
    ∧ nodes st1 !! old = Some (DNode (payload_of on) (childNodes on) None)
    ∧ ∀ y, y < r -> y ≠ c -> y ≠ old -> nodes st1 !! y = nodes st !! y.
Proof.
  intros d Hplain Hnamed Hc Hct Ho Hop Hoc Hmis Hcs Hnd Hcb Hpb r. subst d.
  apply plain_VObj in Hplain as (Hlow & Hbody & -> & Hhk & Hall).
  apply named_VObj in Hnamed as (Hname & Hnames).
  set (d := VObj (TagName t) (Some []) children own).
  assert (c < r) as Hcr by (by eapply lookup_lt_Some).
  assert (old < r) as Hor by (by eapply lookup_lt_Some).
  assert (shouldReplace old d st = Ok true st) as Hsr.
  { unfold shouldReplace. mstep (node_lookup _ _ _ Ho).
    unfold isText. cbn [isNewText d]. destruct (payload_of on) as [s|T a pr|]; try done.
    cbn [Bool.eqb negb]. by rewrite (proj2 (String.eqb_neq _ _) Hmis). }
  destruct (createElement_plain t children own st Hlow Hbody Hhk Hall Hname Hnames Hpb)
    as (st_k & cs & Hcreate & Hel_k & Hr_k & Hfr_k & Hlen_k & Hpb_k).
  fold r in Hcreate, Hel_k, Hr_k, Hfr_k, Hlen_k.
  assert (nodes st_k !! c = Some cn) as Hc_k by (by rewrite Hfr_k).
  assert (nodes st_k !! old = Some on) as Ho_k by (by rewrite Hfr_k).
  assert (contains c old st_k = Ok true st_k) as Hcont.
  { unfold contains. f_equal. destruct (length (nodes st_k)) as [|fuel]; [lia|].
    simpl. rewrite bool_decide_eq_false_2 by done. rewrite Ho_k. simpl. rewrite Hop.
    apply inclusive_ancestor_refl. }
  destruct (replaceChild_child st_k c r old cn on _ pre post Hc_k Hct Ho_k Hop Hel_k eq_refl)
    as (st1 & Hrep & _ & _ & Hlen1 & Hr1 & Hc1 & Ho1 & Hrest1); try done; try lia.
  { apply inclusive_ancestor_fresh; [|done].
    intros y m p Hy Hm Hp. rewrite Hfr_k in Hm by done. by eapply (Hpb y). }
  { intros Hin. apply Hcb in Hin. lia. }
  exists st1. split_and!; try done.
  - unfold patch, d. cbn [patch_with]. fold d. mstep Hsr. unfold replaceNode.
    cbn [default from_option id]. unfold d. mstep Hcreate. mstep Hcont. by mstep Hrep.
  - eapply (rendered_reparent d (nodes st_k)); [|exact Hel_k|exact Hr1|].
    + apply rendered_VObj. eexists _, _, _, cs, _. split_and!; [exact Hel_k| |done].
      by rewrite toLowerCase_toUpperCase, Hlow.
    + intros y Hy _. apply Hrest1; lia.
  - intros y Hy Hyc Hyo. rewrite Hrest1 by lia. by apply Hfr_k.
Qed.

Lemma element_replaces_in_place_witness :
  let d := VObj (TagName "p") (Some []) [VPrim (VString "x")] (Hooks None) in
  let r := length (nodes counter_page) in
  ∃ st1,
    patch (Some 1) (Some 2) d counter_page = Ok (Some r) st1
    ∧ rendered (nodes st1) r d
    ∧ nodes st1 !! 1 = Some (DNode (Element "DIV" ∅ ∅) ([] ++ r :: []) (Some 0))
    ∧ nodes st1 !! 2 = Some (DNode (Text "5") [] None)
    ∧ ∀ y, y < r -> y ≠ 1 -> y ≠ 2 -> nodes st1 !! y = nodes counter_page !! y.
Proof.
  apply (element_replaces_in_place "p" (Some []) [VPrim (VString "x")] (Hooks None)
           counter_page 1 2 (DNode (Element "DIV" ∅ ∅) [2] (Some 0))
           (DNode (Text "5") [] (Some 1)) [] []).
  - reflexivity.
  - reflexivity.
  - reflexivity.
  - reflexivity.
  - reflexivity.
  - reflexivity.
  - done.
  - exact I.
  - reflexivity.
  - apply NoDup_singleton.
  - intros x ->%list_elem_of_singleton. simpl. lia.
  - intros y n p Hy Hn Hp. unfold counter_page in *. simpl in *.
    destruct y as [|[|[|y]]]; simplify_eq/=; lia.
Defined.

(** A text (anything [patch] sends down the text path) patched over a
    child of the container that is not a text node: a text node is created
    and takes the place of the old node, which is detached. *)
Theorem text_replaces_other_node (v : value) (st : dom) (c old : nat) (cn on : dnode)
    (pre post : list nat) :
  textual v = true ->
  nodes st !! c = Some cn -> isText cn = false ->
  nodes st !! old = Some on -> isText on = false ->
  parentNode on = Some c -> old ≠ c ->
  childNodes cn = pre ++ old :: post -> NoDup (childNodes cn) ->
  (∀ x, x ∈ childNodes cn -> x < length (nodes st)) ->
  parents_below (length (nodes st)) (nodes st) ->
  let r := length (nodes st) in
  ∃ st1,
    patch (Some c) (Some old) (VPrim v) st = Ok (Some r) st1
    ∧ nodes st1 !! r = Some (DNode (Text (toString v)) [] (Some c))
    ∧ nodes st1 !! c = Some (DNode (payload_of cn) (pre ++ r :: post) (parentNode cn))
    ∧ nodes st1 !! old = Some (DNode (payload_of on) (childNodes on) None)
    ∧ ∀ y, y < r -> y ≠ c -> y ≠ old -> nodes st1 !! y = nodes st !! y.
Proof.
  intros Htx Hc Hct Ho Hot Hop Hoc Hcs Hnd Hcb Hpb r.
  assert (c < r) as Hcr by (by eapply lookup_lt_Some).
  assert (old < r) as Hor by (by eapply lookup_lt_Some).
  destruct (alloc_spec (Text (toString v)) st)
    as (st_b & Hnew & _ & Hlen_b & Hr_b & Hold_b & Hpb_b).
  fold r in Hnew, Hlen_b, Hr_b, Hold_b.
  assert (nodes st_b !! c = Some cn) as Hc_b by (by rewrite Hold_b).
  assert (nodes st_b !! old = Some on) as Ho_b by (by rewrite Hold_b).
  assert (contains c old st_b = Ok true st_b) as Hcont.
  { unfold contains. f_equal. destruct (length (nodes st_b)) as [|fuel]; [lia|].
    simpl. rewrite bool_decide_eq_false_2 by done. rewrite Ho_b. simpl. rewrite Hop.
    apply inclusive_ancestor_refl. }
  destruct (replaceChild_child st_b c r old cn on _ pre post Hc_b Hct Ho_b Hop Hr_b eq_refl)
    as (st1 & Hrep & _ & _ & Hlen1 & Hr1 & Hc1 & Ho1 & Hrest1); try done; try lia.
  { apply inclusive_ancestor_fresh; [|done].
    intros y m p Hy Hm Hp. rewrite Hold_b in Hm by done. by eapply (Hpb y). }
  { intros Hin. apply Hcb in Hin. lia. }
  exists st1. split_and!; try done.
  - unfold textual in Htx. apply andb_prop in Htx as [Hnn Hobj].
    unfold patch. cbn [patch_with]. rewrite (negb_true_iff _) in Hnn. rewrite Hnn.
    assert (patchText c (Some old) v st = Ok (Some r) st1) as Ht.
    { unfold patchText. mstep (node_lookup _ _ _ Ho).
      unfold isText in Hot. destruct (payload_of on); [done|..];
        cbn beta iota; unfold createTextNode; mstep Hnew; mstep Hcont; by mstep Hrep. }
    by destruct v.
  - intros y Hy Hyc Hyo. rewrite Hrest1 by lia. by apply Hold_b.
Qed.

Lemma text_replaces_other_node_witness :
  let r := length (nodes keyed_list_page) in
  ∃ st1,
    patch (Some 1) (Some 2) (VPrim (VString "none")) keyed_list_page = Ok (Some r) st1
    ∧ nodes st1 !! r = Some (DNode (Text (toString (VString "none"))) [] (Some 1))
    ∧ nodes st1 !! 1 = Some (DNode (Element "DIV" ∅ ∅) ([] ++ r :: []) (Some 0))
    ∧ nodes st1 !! 2 = Some (DNode (Element "UL" ∅ ∅) [3; 5; 7] None)
    ∧ ∀ y, y < r -> y ≠ 1 -> y ≠ 2 -> nodes st1 !! y = nodes keyed_list_page !! y.
Proof.
  apply (text_replaces_other_node (VString "none") keyed_list_page 1 2
           (DNode (Element "DIV" ∅ ∅) [2] (Some 0))
           (DNode (Element "UL" ∅ ∅) [3; 5; 7] (Some 1)) [] []).
  - reflexivity.
  - reflexivity.
  - reflexivity.
  - reflexivity.
  - reflexivity.
  - reflexivity.
  - done.
  - reflexivity.
  - apply NoDup_singleton.
  - intros x ->%list_elem_of_singleton. simpl. lia.
  - intros y n p Hy Hn Hp. unfold keyed_list_page in *. simpl in *.
    do 9 (destruct y as [|y]; [simplify_eq/=; lia|]). simpl in Hy. lia.
Defined.

(** ** Removal *)

Section Kept.
Variable st : dom.

(** The first loop of [reconcileChildren] over children that are already
    rendered by the first children of the element. *)
Lemma reconcile_loop_kept el keyed cs children :
  all_plain children = true ->
  ∀ i kept,
    each_rendered (nodes st) el kept children ->
    (∀ j r, kept !! j = Some r -> cs !! (i + j) = Some r) ->
    reconcile_loop (patch_with None) el keyed cs i children st = Ok (Some <$> kept) st.
Proof.
  induction children as [|c children IH]; intros Hall i kept Hr Hcs; simpl in Hr |- *.
  - by rewrite Hr.
  - simpl in Hall. apply andb_prop in Hall as [Hc Hall].
    destruct (present c) eqn:Hp.
    + destruct kept as [|r kept]; [done|]. destruct Hr as (_ & Hr & Hrest).
      simpl in Hc.
      assert (cs !! i = Some r) as Hi.
      { specialize (Hcs 0 r eq_refl). by rewrite Nat.add_0_r in Hcs. }
      rewrite (comparisonTarget_plain _ _ _ _ Hc), Hi.
      mstep (patch_plain_in_place c st el r None Hc Hr).
      assert (reconcile_loop (patch_with None) el keyed cs (S i) children st
              = Ok (Some <$> kept) st) as Hrec.
      { apply IH; try done. intros j r' Hj. specialize (Hcs (S j) r' Hj).
        by rewrite Nat.add_succ_r in Hcs. }
      by mstep Hrec.
    + by apply IH.
Qed.

Lemma reinsert_kept el n kept :
  nodes st !! el = Some n ->
  ∀ i, (∀ j r, kept !! j = Some r -> childNodes n !! (i + j) = Some r) ->
  reinsert el i (Some <$> kept) st = Ok tt st.
Proof.
  intros Hel. induction kept as [|r kept IH]; intros i Hcs; simpl; [done|].
  mstep (node_lookup _ _ _ Hel).
  assert (childNodes n !! i = Some r) as Hi.
  { specialize (Hcs 0 r eq_refl). by rewrite Nat.add_0_r in Hcs. }
  rewrite Hi. rewrite bool_decide_eq_true_2 by (split; [by eexists|done]).
  mnorm. apply IH. intros j r' Hj. specialize (Hcs (S j) r' Hj).
  by rewrite Nat.add_succ_r in Hcs.
Qed.
End Kept.

(** [while (el.childNodes.length > len) el.removeChild(el.lastChild)]: the
    children after the first [len] are detached, last first. *)
Lemma trim_surplus el P p kept surplus : ∀ fuel st,
  nodes st !! el = Some (DNode P (kept ++ surplus) p) ->
  NoDup (kept ++ surplus) -> el ∉ surplus ->
  (∀ x, x ∈ surplus -> ∃ xn, nodes st !! x = Some xn ∧ parentNode xn = Some el) ->
  length surplus ≤ fuel ->
  ∃ st',
    trim fuel el (length kept) st = Ok tt st'
    ∧ length (nodes st') = length (nodes st)
    ∧ nodes st' !! el = Some (DNode P kept p)
    ∧ (∀ x xn, x ∈ surplus -> nodes st !! x = Some xn ->
               nodes st' !! x = Some (DNode (payload_of xn) (childNodes xn) None))
    ∧ (∀ y, y ≠ el -> y ∉ surplus -> nodes st' !! y = nodes st !! y).
Proof.
  induction surplus as [|x surplus IH] using rev_ind; intros fuel st Hel Hnd Hne Hsur Hfuel.
  - rewrite app_nil_r in Hel. exists st. split_and!; try done.
    + destruct fuel; simpl; [done|]. mstep (node_lookup _ _ _ Hel). simpl.
      by rewrite Nat.ltb_irrefl.
    + intros y yn Hy. by apply elem_of_nil in Hy.
  - rewrite length_app in Hfuel. simpl in Hfuel. destruct fuel as [|fuel]; [lia|].
    destruct (Hsur x) as (xn & Hx & Hxp); [apply elem_of_app; right; left|].
    assert (x ≠ el) as Hxel.
    { intros ->. apply Hne. apply elem_of_app. right. left. }
    rewrite app_assoc in Hnd.
    assert (x ∉ kept ++ surplus) as Hxk.
    { apply NoDup_app in Hnd as (_ & Hd & _). intros Hin. apply (Hd _ Hin). left. }
    set (l1 := alter (λ n, DNode (payload_of n) (childNodes n) None) x
                 (alter (λ pn, DNode (payload_of pn)
                                 (filter (λ y, y ≠ x) (childNodes pn)) (parentNode pn))
                        el (nodes st))).
    set (st1 := Document l1 (body st) (calls st)).
    assert (removeChild el (Some x) st = Ok x st1) as Hrm.
    { unfold removeChild, ensure_child_of. mstep (node_lookup _ _ _ Hx).
      rewrite Hxp, bool_decide_eq_true_2 by done. mnorm.
      unfold detach. mstep (node_lookup _ _ _ Hx). rewrite Hxp. by mnorm. }
    assert (l1 !! el = Some (DNode P (kept ++ surplus) p)) as Hel1.
    { unfold l1. rewrite list_lookup_alter_ne, list_lookup_alter_eq, Hel by done. simpl.
      f_equal. f_equal. rewrite app_assoc, filter_app, filter_cons_False, filter_nil,
        app_nil_r by (by intros H). by apply filter_ne_id. }
    destruct (IH fuel st1) as (st' & Htrim & Hlen' & Hel' & Hsur' & Hrest'); try done.
    { by apply NoDup_app in Hnd as (? & _). }
    { intros Hin. apply Hne. apply elem_of_app. by left. }
    { intros y Hy. destruct (Hsur y) as (yn & Hyn & Hyp); [apply elem_of_app; by left|].
      exists yn. split; [|done]. simpl. unfold l1.
      rewrite !list_lookup_alter_ne; [done|..].
      - intros ->. apply Hne. apply elem_of_app. by left.
      - intros ->. apply Hxk. apply elem_of_app. by right. }
    { lia. }
    exists st'. split_and!.
    + cbn [trim]. mstep (node_lookup _ _ _ Hel). cbn [childNodes].
      assert ((length kept <? length (kept ++ surplus ++ [x])) = true) as ->.
      { apply Nat.ltb_lt. rewrite !length_app. simpl. lia. }
      rewrite app_assoc, last_snoc. by mstep Hrm.
    + rewrite Hlen'. simpl. unfold l1. by rewrite !length_alter.
    + done.
    + intros y yn Hy Hyn.
      apply elem_of_app in Hy as [Hy|Hy]; [|apply list_elem_of_singleton in Hy as ->].
      * apply Hsur'; [done|]. simpl. unfold l1.
        rewrite !list_lookup_alter_ne; [done|..].
        -- intros ->. apply Hne. apply elem_of_app. by left.
        -- intros ->. apply Hxk. apply elem_of_app. by right.
      * rewrite Hrest'; [|done|].
        -- simpl. unfold l1. rewrite list_lookup_alter_eq, list_lookup_alter_ne, Hyn by done.
           done.
        -- intros Hin. apply Hxk. apply elem_of_app. by right.
    + intros y Hy Hys. rewrite Hrest'; [|done|].
      * simpl. unfold l1. rewrite !list_lookup_alter_ne; [done|done|].
        intros ->. apply Hys. apply elem_of_app. right. left.
      * intros Hin. apply Hys. apply elem_of_app. by left.
Qed.

(** A plain element description patched over an element of the same tag
    whose first children render the children of the description and which
    has further children: the element is kept, the children that render
    the description stay as they are, and the surplus children are
    detached; nothing else changes. *)
Theorem surplus_children_are_removed (t : string) (children : list vnode) (own : hooks)
    (st : dom) (c el : nat) (T : string) (a : gmap string string) (pr : gmap string value)
    (kept surplus : list nat) (p : option nat) :
  plain (VObj (TagName t) (Some []) children own) = true ->
  nodes st !! el = Some (DNode (Element T a pr) (kept ++ surplus) p) ->
  toLowerCase T = t ->
  each_rendered (nodes st) el kept children ->
  NoDup (kept ++ surplus) -> el ∉ surplus ->
  (∀ x, x ∈ surplus -> ∃ xn, nodes st !! x = Some xn ∧ parentNode xn = Some el) ->
  ∃ st1,
    patch (Some c) (Some el) (VObj (TagName t) (Some []) children own) st = Ok (Some el) st1
    ∧ nodes st1 !! el = Some (DNode (Element T a pr) kept p)
    ∧ (∀ x xn, x ∈ surplus -> nodes st !! x = Some xn ->
               nodes st1 !! x = Some (DNode (payload_of xn) (childNodes xn) None))
    ∧ (∀ y, y ≠ el -> y ∉ surplus -> nodes st1 !! y = nodes st !! y).
Proof.
  intros Hplain Hel HT Hkept Hnd Hne Hsur.
  apply plain_VObj in Hplain as (Hlow & Hbody & _ & Hhk & Hall).
  destruct (trim_surplus el (Element T a pr) p kept surplus (length (kept ++ surplus)) st)
    as (st1 & Htrim & _ & Hel1 & Hsur1 & Hrest1); try done.
  { rewrite length_app. lia. }
  exists st1. split_and!; try done.
  unfold patch. cbn [patch_with].
  assert (shouldReplace el (VObj (TagName t) (Some []) children own) st = Ok false st)
    as Hsr.
  { unfold shouldReplace. mstep (node_lookup _ _ _ Hel).
    cbn [isText payload_of isNewText Bool.eqb negb]. by rewrite HT, String.eqb_refl. }
  mstep Hsr.
  unfold updateElement. cbn [applyAttrs]. mnorm.
  unfold reconcileChildren. mstep (node_lookup _ _ _ Hel). cbn [childNodes].
  destruct (getKeyedNodes_from_total st (kept ++ surplus) ∅) as (keyed & Hk).
  { intros r [Hr|Hr]%elem_of_app.
    - by eapply each_rendered_valid.
    - destruct (Hsur r Hr) as (xn & -> & _). by eexists. }
  unfold getKeyedNodes. mstep Hk.
  assert (∀ j r, kept !! j = Some r -> (kept ++ surplus) !! (0 + j) = Some r) as Hpre.
  { intros j r Hj. simpl. by apply lookup_app_l_Some. }
  mstep (reconcile_loop_kept st el keyed (kept ++ surplus) children Hall 0 kept Hkept Hpre).
  mstep (reinsert_kept st el _ kept Hel 0 Hpre).
  mstep (node_lookup _ _ _ Hel). cbn [childNodes]. rewrite length_fmap.
  by mstep Htrim.
Qed.

Lemma surplus_children_are_removed_witness :
  ∃ st1,
    patch (Some 1) (Some 2) (VObj (TagName "ul") (Some []) [] (Hooks None)) keyed_list_page
    = Ok (Some 2) st1
    ∧ nodes st1 !! 2 = Some (DNode (Element "UL" ∅ ∅) [] (Some 1))
    ∧ (∀ x xn, x ∈ [3; 5; 7] -> nodes keyed_list_page !! x = Some xn ->
               nodes st1 !! x = Some (DNode (payload_of xn) (childNodes xn) None))
    ∧ (∀ y, y ≠ 2 -> y ∉ [3; 5; 7] -> nodes st1 !! y = nodes keyed_list_page !! y).
Proof.
  apply (surplus_children_are_removed "ul" [] (Hooks None) keyed_list_page 1 2 "UL" ∅ ∅
           [] [3; 5; 7] (Some 1)).
  - reflexivity.
  - reflexivity.
  - reflexivity.
  - reflexivity.
  - by apply (bool_decide_unpack _).
  - by apply (bool_decide_unpack _).
  - intros x Hx. repeat (apply elem_of_cons in Hx as [->|Hx]; [by eexists|]).
    by apply elem_of_nil in Hx.
Defined.

(** ** Growth *)

Lemma bind_ext {A B} (m : M A) (k1 k2 : A -> M B) st :
  (∀ a st', k1 a st' = k2 a st') -> bind m k1 st = bind m k2 st.
Proof. intros H. unfold bind. destruct (m st); [apply H|done]. Qed.

Lemma bind_ext_l {A B} (m m' : M A) (k : A -> M B) st :
  (∀ st', m st' = m' st') -> bind m k st = bind m' k st.
Proof. intros H. unfold bind. by rewrite H. Qed.

Lemma reconcile_loop_app patch el keyed cs l1 l2 : ∀ i st,
  reconcile_loop patch el keyed cs i (l1 ++ l2) st =
  (let* o1 := reconcile_loop patch el keyed cs i l1 in
   let* o2 := reconcile_loop patch el keyed cs
                (i + length (filter (λ c, present c = true) l1)) l2 in
   ret (o1 ++ o2)) st.
Proof.
  induction l1 as [|c l1 IH]; intros i st; simpl.
  - mnorm. rewrite Nat.add_0_r. unfold bind.
    destruct (reconcile_loop patch el keyed cs i l2 st); reflexivity.
  - rewrite filter_cons. destruct (present c) eqn:Hp.
    + rewrite decide_True by done. simpl. rewrite !bind_assoc.
      apply bind_ext. intros r st1. cbv beta.
      rewrite (bind_ext_l _ _ _ _ (IH (S i))), !bind_assoc.
      apply bind_ext. intros o1 st2. cbv beta. rewrite bind_ret, bind_assoc, Nat.add_succ_r.
      apply bind_ext. intros o2 st3. cbv beta. by rewrite bind_ret.
    + rewrite decide_False by done. apply IH.
Qed.

Lemma each_rendered_length l el cs children :
  each_rendered l el cs children ->
  length cs = length (filter (λ c, present c = true) children).
Proof.
  revert cs. induction children as [|c children IH]; intros cs; simpl.
  - by intros ->.
  - rewrite filter_cons. destruct (present c) eqn:Hp.
    + rewrite decide_True by done. destruct cs as [|r cs]; [done|].
      intros (_ & _ & H). simpl. f_equal. by apply IH.
    + rewrite decide_False by done. apply IH.
Qed.

Lemma each_rendered_app l el cs1 cs2 l1 l2 :
  each_rendered l el cs1 l1 -> each_rendered l el cs2 l2 ->
  each_rendered l el (cs1 ++ cs2) (l1 ++ l2).
Proof.
  revert cs1. induction l1 as [|c l1 IH]; intros cs1; simpl.
  - by intros ->.
  - destruct (present c); [|apply IH].
    destruct cs1 as [|r cs1]; [done|]. intros (? & ? & H1) H2. simpl.
    split_and!; [done..|]. by apply IH.
Qed.

Lemma all_plain_app l1 l2 :
  all_plain (l1 ++ l2) = true -> all_plain l1 = true ∧ all_plain l2 = true.
Proof.
  induction l1 as [|c l1 IH]; simpl; [done|].
  intros [Hc H]%andb_prop. destruct (IH H) as [H1 H2]. by rewrite Hc, H1.
Qed.

(** The first loop of [reconcileChildren] past the old children: every
    present child is mounted at the end of the element. *)
Lemma reconcile_loop_past el E q keyed cs children :
  all_plain children = true -> all_named children = true ->
  isText (DNode E [] q) = false ->
  ∀ i st done,
    length cs ≤ i ->
    nodes st !! el = Some (DNode E done q) ->
    parents_below (length (nodes st)) (nodes st) ->
    ∃ st' new,
      reconcile_loop (patch_with None) el keyed cs i children st = Ok (Some <$> new) st'
      ∧ nodes st' !! el = Some (DNode E (done ++ new) q)
      ∧ each_rendered (nodes st') el new children
      ∧ (∀ y, y < length (nodes st) -> y ≠ el -> nodes st' !! y = nodes st !! y)
      ∧ length (nodes st) ≤ length (nodes st')
      ∧ parents_below (length (nodes st')) (nodes st').
Proof.
  intros Hall Hnames HE.
  induction children as [|c children IHl]; intros i st done Hi Hel Hpb.
  - exists st, []. simpl. rewrite app_nil_r. by split_and!.
  - simpl in Hall. apply andb_prop in Hall as [Hc Hall].
    simpl in Hnames. apply andb_prop in Hnames as [Hcn Hnames].
    cbn [reconcile_loop each_rendered]. destruct (present c) eqn:Hp.
    + simpl in Hc.
      destruct (patch_mount_plain c st el _ Hc Hcn Hel HE Hpb)
        as (st1 & Hpatch & Hr1 & Hel1 & Hfr1 & Hlen1 & Hpb1).
      simpl in Hel1.
      destruct (IHl Hall Hnames (S i) st1 _ ltac:(lia) Hel1 Hpb1)
        as (st' & new & Hloop & Hel' & Hcs & Hfr' & Hlen' & Hpb').
      exists st', (length (nodes st) :: new). split_and!.
      * rewrite (comparisonTarget_plain _ _ _ _ Hc), (lookup_ge_None_2 cs i) by done.
        mstep Hpatch. by mstep Hloop.
      * by rewrite <- app_assoc in Hel'.
      * by eapply lookup_lt_Some.
      * eapply (rendered_frame (vsize c)); [done|exact Hr1|].
        intros y Hy Hsome. apply Hfr'; [by apply lookup_lt_is_Some|].
        apply lookup_lt_Some in Hel. lia.
      * done.
      * intros y Hy Hne. rewrite Hfr' by (done || lia). by apply Hfr1.
      * lia.
      * done.
    + by apply IHl.
Qed.

(** A plain element description patched over an element of the same tag
    whose children render the first children of the description: the
    element and its children are kept as they are, and the further children
    of the description, their tags being names, are rendered and appended
    in order. The result renders the whole description. *)
Theorem new_children_are_appended (t : string) (children1 children2 : list vnode)
    (own : hooks) (st : dom) (c el : nat) (T : string) (a : gmap string string)
    (pr : gmap string value) (kept : list nat) (p : option nat) :
  let d := VObj (TagName t) (Some []) (children1 ++ children2) own in
  plain d = true -> all_named children2 = true ->
  nodes st !! el = Some (DNode (Element T a pr) kept p) ->
  toLowerCase T = t ->
  each_rendered (nodes st) el kept children1 ->
  parents_below (length (nodes st)) (nodes st) ->
  ∃ st1 new,
    patch (Some c) (Some el) d st = Ok (Some el) st1
    ∧ nodes st1 !! el = Some (DNode (Element T a pr) (kept ++ new) p)
    ∧ each_rendered (nodes st1) el new children2
    ∧ rendered (nodes st1) el d
    ∧ (∀ y, y < length (nodes st) -> y ≠ el -> nodes st1 !! y = nodes st !! y).
Proof.
  intros d Hplain Hnames Hel HT Hkept Hpb. subst d.
  apply plain_VObj in Hplain as (Hlow & Hbody & _ & Hhk & Hall).
  apply all_plain_app in Hall as [Hall1 Hall2].
  destruct (getKeyedNodes_from_total st kept ∅ (each_rendered_valid st el kept children1 Hkept))
    as (keyed & Hk).
  assert (∀ j r, kept !! j = Some r -> kept !! (0 + j) = Some r) as Hpre by done.
  pose proof (reconcile_loop_kept st el keyed kept children1 Hall1 0 kept Hkept Hpre) as Hl1.
  destruct (reconcile_loop_past el (Element T a pr) p keyed kept children2 Hall2 Hnames eq_refl
              (0 + length (filter (λ c, present c = true) children1)) st kept)
    as (st1 & new & Hl2 & Hel1 & Hnew & Hfr1 & Hlen1 & Hpb1); try done.
  { by rewrite (each_rendered_length _ _ _ _ Hkept). }
  assert (each_rendered (nodes st1) el (kept ++ new) (children1 ++ children2)) as Hall'.
  { apply each_rendered_app; [|done].
    eapply each_rendered_frame; [| |exact Hkept].
    - intros c' r' Hc'. by apply (rendered_frame (vsize c')).
    - intros y Hy Hsome. apply Hfr1; [by apply lookup_lt_is_Some|lia]. }
  exists st1, new. split_and!; try done.
  - unfold patch. cbn [patch_with].
    assert (shouldReplace el (VObj (TagName t) (Some []) (children1 ++ children2) own) st
            = Ok false st) as Hsr.
    { unfold shouldReplace. mstep (node_lookup _ _ _ Hel).
      cbn [isText payload_of isNewText Bool.eqb negb]. by rewrite HT, String.eqb_refl. }
    mstep Hsr.
    unfold updateElement. cbn [applyAttrs]. mnorm.
    unfold reconcileChildren. mstep (node_lookup _ _ _ Hel). cbn [childNodes].
    unfold getKeyedNodes. mstep Hk.
    rewrite (bind_ext_l _ _ _ _
               (reconcile_loop_app (patch_with None) el keyed kept children1 children2 0)).
    mstep Hl1. mstep Hl2.
    rewrite <- fmap_app.
    mstep (reinsert_in_place st1 el _ (kept ++ new) Hel1 0 eq_refl).
    mstep (node_lookup _ _ _ Hel1). cbn [childNodes]. rewrite length_fmap.
    by mstep (trim_nothing st1 el _ (length (kept ++ new)) Hel1).
  - apply rendered_VObj. by exists T, a, pr, (kept ++ new), p.
Qed.

Lemma new_children_are_appended_witness :
  let d := VObj (TagName "div") (Some []) ([] ++ [VPrim (VString "a"); div_a]) (Hooks None) in
  ∃ st1 new,
    patch (Some 0) (Some 1) d page = Ok (Some 1) st1
    ∧ nodes st1 !! 1 = Some (DNode (Element "DIV" ∅ ∅) ([] ++ new) (Some 0))
    ∧ each_rendered (nodes st1) 1 new [VPrim (VString "a"); div_a]
    ∧ rendered (nodes st1) 1 d
    ∧ (∀ y, y < length (nodes page) -> y ≠ 1 -> nodes st1 !! y = nodes page !! y).
Proof.
  apply (new_children_are_appended "div" [] [VPrim (VString "a"); div_a] (Hooks None)
           page 0 1 "DIV" ∅ ∅ [] (Some 0)).
  - reflexivity.
  - reflexivity.
  - reflexivity.
  - reflexivity.
  - reflexivity.
  - intros y n p Hy Hn Hp. unfold page in *. simpl in *.
    destruct y as [|[|y]]; simplify_eq/=; lia.
Defined.

(** ** The order of the children *)



(** One turn of the second loop of [reconcileChildren] for a child [r]
    that is not yet at its place [i]: it is taken out and put back before
    the node that is at [i]. Only the list of children changes. *)
Lemma insertBefore_sibling st el n r rn pre cur mid post :
  nodes st !! el = Some n -> isText n = false ->
  childNodes n = pre ++ cur :: mid ++ r :: post ->
  NoDup (childNodes n) ->
  nodes st !! r = Some rn -> parentNode rn = Some el -> payload_of rn ≠ Fragment ->
  (∃ cn, nodes st !! cur = Some cn ∧ parentNode cn = Some el) ->
  r ≠ el ->
  inclusive_ancestor (length (nodes st)) st r el = false ->
  insertBefore el (Some r) (Some cur) st
  = Ok r (Document
            (<[el := DNode (payload_of n) (pre ++ r :: cur :: mid ++ post) (parentNode n)]>
               (nodes st))
            (body st) (calls st)).
Proof.
  intros Hel Hnt Hcs Hnd Hr Hrp Hrf (cn & Hcur & Hcp) Hrel Hanc.
  assert (r ≠ cur) as Hrc.
  { intros ->. rewrite Hcs in Hnd. apply NoDup_app in Hnd as (_ & _ & Hnd).
    apply NoDup_cons in Hnd as [Hx _]. apply Hx. apply elem_of_app. right. left. }
  assert ((r ∉ pre) ∧ (r ∉ mid) ∧ (r ∉ post) ∧ (cur ∉ pre)) as (Hrpre & Hrmid & Hrpost & Hcpre).
  { rewrite Hcs in Hnd. apply NoDup_app in Hnd as (_ & Hdis & Hnd).
    apply NoDup_cons in Hnd as [_ Hnd]. apply NoDup_app in Hnd as (_ & Hdis2 & Hnd).
    apply NoDup_cons in Hnd as [Hx _]. split_and!; try done.
    - intros Hin. apply (Hdis _ Hin). right. apply elem_of_app. right. left.
    - intros Hin. apply (Hdis2 _ Hin). left.
    - intros Hin. apply (Hdis _ Hin). left. }
  unfold insertBefore, ensure_parent_can_hold, contains.
  mstep (node_lookup _ _ _ Hel). rewrite Hnt. mnorm. unfold bind at 1. rewrite Hanc.
  unfold ensure_child_of. mstep (node_lookup _ _ _ Hcur).
  rewrite Hcp, bool_decide_eq_true_2 by done. mnorm.
  rewrite bool_decide_eq_false_2 by congruence. mnorm.
  unfold insert. mstep (node_lookup _ _ _ Hr).
  assert (insert_all el [r] (Some cur) st
          = Ok tt (Document
            (<[el := DNode (payload_of n) (pre ++ r :: cur :: mid ++ post) (parentNode n)]>
               (nodes st))
            (body st) (calls st))) as Hins.
  { cbn [insert_all]. unfold detach. mstep (node_lookup _ _ _ Hr). rewrite Hrp.
    unfold insert_at, bind, modify, ret. simpl. f_equal. f_equal.
    apply list_eq. intros y.
    destruct (decide (y = el)) as [->|Hyel].
    - rewrite list_lookup_insert_eq by (by eapply lookup_lt_Some).
      rewrite list_lookup_alter_ne, list_lookup_alter_eq, list_lookup_alter_ne,
        list_lookup_alter_eq, Hel by done. simpl. f_equal. f_equal.
      rewrite Hcs.
      assert (filter (λ x, x ≠ r) (pre ++ cur :: mid ++ r :: post)
              = pre ++ cur :: mid ++ post) as ->.
      { rewrite filter_app, filter_cons_True, filter_app, filter_cons_False
          by (congruence || (by intros H)).
        by rewrite !filter_ne_id. }
      rewrite index_of_middle by done. simpl.
      by rewrite take_app_length, drop_app_length.
    - rewrite list_lookup_insert_ne by done.
      destruct (decide (y = r)) as [->|Hyr].
      + rewrite list_lookup_alter_eq, list_lookup_alter_ne, list_lookup_alter_eq,
          list_lookup_alter_ne, Hr by done. simpl. destruct rn; simpl in *. by subst.
      + by rewrite !list_lookup_alter_ne by done. }
  destruct (payload_of rn) eqn:Hpay; try done; cbv beta iota; by mstep Hins.
Qed.

(** The second loop of [reconcileChildren] when the nodes of [newOrder]
    are the children of the element in another order: it leaves the
    children in the order of [newOrder], and changes nothing else. *)
Lemma reinsert_reaches el P p : ∀ rest done cs st,
  nodes st !! el = Some (DNode P (done ++ cs) p) -> isText (DNode P [] p) = false ->
  cs ≡ₚ rest -> NoDup (done ++ cs) ->
  (∀ r, r ∈ done ++ cs -> ∃ rn, nodes st !! r = Some rn ∧ parentNode rn = Some el
                              ∧ payload_of rn ≠ Fragment ∧ r ≠ el
                              ∧ inclusive_ancestor (length (nodes st)) st r el = false) ->
  reinsert el (length done) (Some <$> rest) st
  = Ok tt (Document (<[el := DNode P (done ++ rest) p]> (nodes st)) (body st) (calls st)).
Proof.
  induction rest as [|r rest IH]; intros done cs st Hel Hnt Hperm Hnd Hall.
  - apply Permutation_nil_r in Hperm as ->. simpl.
    rewrite list_insert_id by done. by destruct st.
  - assert (r ∈ cs) as Hrcs by (rewrite Hperm; left).
    apply list_elem_of_split in Hrcs as (cs1 & cs2 & ->).
    assert (cs1 ++ cs2 ≡ₚ rest) as Hperm'.
    { apply (Permutation_cons_inv (a := r)). rewrite <- Hperm.
      by rewrite Permutation_middle. }
    cbn [fmap list_fmap reinsert]. mstep (node_lookup _ _ _ Hel). cbn [childNodes].
    destruct cs1 as [|cur cs1].
    + (* already in place *)
      rewrite lookup_app_r, Nat.sub_diag by done. simpl.
      rewrite bool_decide_eq_true_2 by (split; [by eexists|done]). mnorm.
      replace (S (length done)) with (length (done ++ [r])) by (rewrite length_app; simpl; lia).
      replace (done ++ r :: rest) with ((done ++ [r]) ++ rest) by (by rewrite <- app_assoc).
      apply (IH (done ++ [r]) cs2); rewrite <- ?app_assoc; try done.
    + rewrite lookup_app_r, Nat.sub_diag by done.
      change (((cur :: cs1) ++ r :: cs2) !! 0) with (Some cur).
      destruct (Hall r) as (rn & Hr & Hrp & Hrf & Hrel & Hanc).
      { apply elem_of_app. right. right. apply elem_of_app. right. left. }
      assert (r ≠ cur) as Hrc.
      { intros ->. apply NoDup_app in Hnd as (_ & _ & Hnd).
        apply NoDup_cons in Hnd as [Hx _]. apply Hx. apply elem_of_app. right. left. }
      rewrite bool_decide_eq_false_2 by (intros [_ [= ?]]; congruence).
      destruct (Hall cur) as (cn & Hcur & Hcp & _).
      { apply elem_of_app. right. left. }
      mstep (insertBefore_sibling st el _ r rn done cur cs1 cs2 Hel Hnt eq_refl Hnd
                 Hr Hrp Hrf (ex_intro _ cn (conj Hcur Hcp)) Hrel Hanc).
      set (st1 := Document _ _ _).
      replace (S (length done)) with (length (done ++ [r])) by (rewrite length_app; simpl; lia).
      assert (nodes st1 !! el = Some (DNode P ((done ++ [r]) ++ cur :: cs1 ++ cs2) p)) as Hel1.
      { unfold st1. simpl. rewrite list_lookup_insert_eq by (by eapply lookup_lt_Some).
        by rewrite <- app_assoc. }
      rewrite (IH (done ++ [r]) (cur :: cs1 ++ cs2) st1 Hel1 Hnt).
      * unfold st1. simpl. rewrite list_insert_insert_eq. by rewrite <- app_assoc.
      * done.
      * rewrite <- app_assoc. simpl.
        assert (done ++ r :: cur :: cs1 ++ cs2 ≡ₚ done ++ (cur :: cs1) ++ r :: cs2) as ->;
          [|done].
        apply Permutation_app_head. apply (Permutation_middle (cur :: cs1) cs2 r).
      * intros x Hx.
        assert (x ∈ done ++ (cur :: cs1) ++ r :: cs2) as Hx'.
        { revert Hx. rewrite <- app_assoc. simpl. rewrite !elem_of_app, !elem_of_cons,
            !elem_of_app, !elem_of_cons. tauto. }
        destruct (Hall x Hx') as (xn & Hxn & Hxp & Hxf & Hxel & Hxanc).
        exists xn. split_and!; try done.
        -- unfold st1. simpl. by rewrite list_lookup_insert_ne.
        -- unfold st1 at 1. simpl. rewrite length_insert.
           rewrite (inclusive_ancestor_same_parents _ st); [done|].
           intros y. unfold st1. simpl.
           destruct (decide (y = el)) as [->|Hy].
           ++ rewrite list_lookup_insert_eq by (by eapply lookup_lt_Some). by rewrite Hel.
           ++ by rewrite list_lookup_insert_ne.
Qed.

Lemma children_sorted_by_reinsert st el P p cs newOrder :
  nodes st !! el = Some (DNode P cs p) -> isText (DNode P [] p) = false ->
  cs ≡ₚ newOrder -> NoDup cs ->
  (∀ r, r ∈ cs ->
        ∃ rn, nodes st !! r = Some rn ∧ parentNode rn = Some el
              ∧ payload_of rn ≠ Fragment ∧ r ≠ el
              ∧ inclusive_ancestor (length (nodes st)) st r el = false) ->
  reinsert el 0 (Some <$> newOrder) st
  = Ok tt (Document (<[el := DNode P newOrder p]> (nodes st)) (body st) (calls st)).
Proof. intros. by apply (reinsert_reaches el P p newOrder [] cs st). Qed.

(** The second loop of [reconcileChildren],
    [newOrder.forEach((node, i) => { if (el.childNodes[i] !== node)
    el.insertBefore(node, el.childNodes[i] || null) })], when [newOrder]
    lists the children of the element in another order: every node that
    is not at its place is moved there, the children end in the order of
    [newOrder], and nothing else in the document changes. *)
Theorem children_end_in_new_order (el : nat) (n : dnode) (newOrder : list nat) (st : dom) :
  nodes st !! el = Some n -> isText n = false ->
  childNodes n ≡ₚ newOrder -> NoDup (childNodes n) ->
  (∀ r, r ∈ childNodes n ->
        ∃ rn, nodes st !! r = Some rn ∧ parentNode rn = Some el
              ∧ payload_of rn ≠ Fragment ∧ r ≠ el
              ∧ inclusive_ancestor (length (nodes st)) st r el = false) ->
  reinsert el 0 (Some <$> newOrder) st
  = Ok tt (Document (<[el := DNode (payload_of n) newOrder (parentNode n)]> (nodes st))
                    (body st) (calls st)).
Proof.
  intros Hel Hnt Hperm Hnd Hall. destruct n as [P cs p]. simpl in *.
  by apply (reinsert_reaches el P p newOrder [] cs st).
Qed.

Lemma children_end_in_new_order_witness :
  reinsert 2 0 (Some <$> [7; 3; 5]) keyed_list_page
  = Ok tt (Document (<[2 := DNode (payload_of (DNode (Element "UL" ∅ ∅) [3; 5; 7] (Some 1)))
                                  [7; 3; 5]
                                  (parentNode (DNode (Element "UL" ∅ ∅) [3; 5; 7] (Some 1)))]>
                       (nodes keyed_list_page))
                    (body keyed_list_page) (calls keyed_list_page)).
Proof.
  apply (children_end_in_new_order 2 (DNode (Element "UL" ∅ ∅) [3; 5; 7] (Some 1))
           [7; 3; 5] keyed_list_page).
  - reflexivity.
  - reflexivity.
  - simpl. symmetry. apply (Permutation_middle [3; 5] [] 7).
  - by apply (bool_decide_unpack _).
  - intros r Hr. simpl in Hr.
    repeat (apply elem_of_cons in Hr as [->|Hr];
            [eexists; split_and!; [reflexivity|reflexivity|done|done|reflexivity]|]).
    by apply elem_of_nil in Hr.
Defined.

(** ** Keyed reorder *)

Lemma last_filter_unique (P : nat -> Prop) `{∀ x, Decision (P x)} (cs : list nat) r :
  r ∈ cs -> P r -> (∀ r', r' ∈ cs -> P r' -> r' = r) -> last (filter P cs) = Some r.
Proof.
  intros Hin HP Huniq.
  assert (r ∈ filter P cs) as Hf by (by apply list_elem_of_filter).
  assert (∀ x, x ∈ filter P cs -> x = r) as Hall.
  { intros x [Hx1 Hx2]%list_elem_of_filter. by apply Huniq. }
  destruct (filter P cs) as [|x l] using rev_ind; [by apply elem_of_nil in Hf|].
  rewrite last_snoc. f_equal. apply Hall. apply elem_of_app. right. left.
Qed.

(** The first loop of [reconcileChildren] over keyed descriptions, each of
    which its node already renders: every description finds its node in
    the index, wherever the node stands, and leaves it as it is. *)
Lemma reconcile_loop_keyed st el keyed cs (pairs : list (vnode * nat)) : ∀ i,
  (∀ d r, (d, r) ∈ pairs ->
          present d = true
          ∧ (∃ k, keyOf d = VString k ∧ keyed !! k = Some r)
          ∧ patch_with None (Some el) (Some r) d st = Ok (Some r) st) ->
  reconcile_loop (patch_with None) el keyed cs i pairs.*1 st = Ok (Some <$> pairs.*2) st.
Proof.
  induction pairs as [|[d r] pairs IH]; intros i Hall; simpl; [done|].
  destruct (Hall d r) as (Hp & (k & Hk & Hidx) & Hpatch); [left|].
  rewrite Hp.
  assert (comparisonTarget keyed cs i d = Some r) as ->.
  { unfold comparisonTarget. rewrite Hk. simpl.
    rewrite bool_decide_eq_true_2 by (by eexists). done. }
  mstep Hpatch.
  assert (reconcile_loop (patch_with None) el keyed cs (S i) pairs.*1 st
          = Ok (Some <$> pairs.*2) st) as Hrec.
  { apply IH. intros d' r' Hin. apply Hall. by right. }
  by mstep Hrec.
Qed.

Lemma keyOf_entry tg attrs ch hk v :
  ("key", v) ∈ attrs -> NoDup attrs.*1 ->
  keyOf (VObj tg (Some attrs) ch hk) = v.
Proof.
  intros Hin Hnd. unfold keyOf.
  induction attrs as [|[k' v'] attrs IH]; [by apply elem_of_nil in Hin|].
  simpl in Hnd. apply NoDup_cons in Hnd as [Hk' Hnd]. cbn [list_find].
  destruct (decide (k' = "key")) as [->|Hne].
  - rewrite decide_True by done. simpl.
    apply elem_of_cons in Hin as [[= ->]|Hin]; [done|].
    exfalso. apply Hk'. apply list_elem_of_fmap. by exists ("key", v).
  - rewrite decide_False by done.
    apply elem_of_cons in Hin as [[= ? ?]|Hin]; [done|].
    specialize (IH Hin Hnd).
    destruct (list_find _ attrs) as [[i kv]|]; simpl in *; done.
Qed.



(** ** Hooks *)

Lemma bind_inv {A B} (m : M A) (k : A -> M B) st b st' :
  bind m k st = Ok b st' -> ∃ a st1, m st = Ok a st1 ∧ k a st1 = Ok b st'.
Proof. unfold bind. destruct (m st) as [a st1|]; [eauto|done]. Qed.

Lemma quiet_ret {A} (a : A) : quiet (ret a).
Proof. by intros st a' st' [= <- <-]. Qed.

Lemma quiet_raise {A} e : quiet (raise e : M A).
Proof. by intros st a st'. Qed.

Lemma quiet_bind {A B} (m : M A) (k : A -> M B) :
  quiet m -> (∀ a, quiet (k a)) -> quiet (bind m k).
Proof.
  intros Hm Hk st b st' (a & st1 & H1 & H2)%bind_inv.
  rewrite (Hk _ _ _ _ H2). by eapply Hm.
Qed.

Lemma quiet_node r : quiet (node r).
Proof. intros st a st'. unfold node. destruct (_ !! _); by intros [= <- <-]. Qed.

Lemma quiet_modify r f : quiet (modify r f).
Proof. by intros st a st' [= <- <-]. Qed.

Lemma quiet_alloc p : quiet (alloc p).
Proof. by intros st a st' [= <- <-]. Qed.

Lemma quiet_contains a b : quiet (contains a b).
Proof. by intros st x st' [= <- <-]. Qed.

Create HintDb quiet.
#[local] Hint Resolve quiet_ret quiet_raise quiet_node quiet_modify quiet_alloc
  quiet_contains : quiet.

Ltac quiet :=
  intros;
  repeat first
    [ apply quiet_bind; [|intros ?]
    | progress eauto with quiet
    | match goal with
      | |- quiet (match ?x with _ => _ end) => destruct x
      | |- quiet (if ?x then _ else _) => destruct x
      end ].

Lemma quiet_nextSibling r : quiet (nextSibling r).
Proof. unfold nextSibling. quiet. Qed.
Lemma quiet_detach r : quiet (detach r).
Proof. unfold detach. quiet. Qed.
Lemma quiet_insert_at p r b : quiet (insert_at p r b).
Proof. unfold insert_at. quiet. Qed.
#[local] Hint Resolve quiet_nextSibling quiet_detach quiet_insert_at : quiet.

Lemma quiet_insert_all p rs b : quiet (insert_all p rs b).
Proof. induction rs; simpl; quiet. Qed.
#[local] Hint Resolve quiet_insert_all : quiet.

Lemma quiet_insert r p b : quiet (insert r p b).
Proof. unfold insert. quiet. Qed.
Lemma quiet_ensure_parent_can_hold p r : quiet (ensure_parent_can_hold p r).
Proof. unfold ensure_parent_can_hold. quiet. Qed.
Lemma quiet_ensure_child_of p c : quiet (ensure_child_of p c).
Proof. unfold ensure_child_of. quiet. Qed.
#[local] Hint Resolve quiet_insert quiet_ensure_parent_can_hold quiet_ensure_child_of : quiet.

Lemma quiet_insertBefore p r c : quiet (insertBefore p r c).
Proof. unfold insertBefore. quiet. Qed.
#[local] Hint Resolve quiet_insertBefore : quiet.
Lemma quiet_appendChild p r : quiet (appendChild p r).
Proof. unfold appendChild. quiet. Qed.
Lemma quiet_replaceChild p r c : quiet (replaceChild p r c).
Proof. unfold replaceChild. quiet. Qed.
Lemma quiet_removeChild p c : quiet (removeChild p c).
Proof. unfold removeChild. quiet. Qed.
#[local] Hint Resolve quiet_appendChild quiet_replaceChild quiet_removeChild : quiet.

Lemma quiet_patchText p o v : quiet (patchText p o v).
Proof. unfold patchText, createTextNode. quiet. Qed.
Lemma quiet_shouldReplace o d : quiet (shouldReplace o d).
Proof. unfold shouldReplace. quiet. Qed.
Lemma quiet_getKeyedNodes rs : quiet (getKeyedNodes rs).
Proof.
  unfold getKeyedNodes. generalize (∅ : gmap string nat).
  induction rs; intros keyed; simpl; quiet.
Qed.
Lemma quiet_reinsert el : ∀ newOrder i, quiet (reinsert el i newOrder).
Proof. induction newOrder; intros i; simpl; quiet. Qed.
Lemma quiet_trim el len : ∀ fuel, quiet (trim fuel el len).
Proof. induction fuel; simpl; quiet. Qed.
#[local] Hint Resolve quiet_patchText quiet_shouldReplace quiet_getKeyedNodes
  quiet_reinsert quiet_trim : quiet.

Section Quiet.
Variable patch : option nat -> option nat -> vnode -> M (option nat).

Lemma quiet_reconcile_loop el keyed cs children :
  (∀ c, c ∈ children -> present c = true -> ∀ p o, quiet (patch p o c)) ->
  ∀ i, quiet (reconcile_loop patch el keyed cs i children).
Proof.
  induction children as [|c children IH]; intros Hq i; simpl; [quiet|].
  destruct (present c) eqn:Hp.
  - apply quiet_bind; [apply Hq; [left|done]|]. intros r.
    apply quiet_bind; [|quiet]. apply IH. intros c' Hc'. apply Hq. by right.
  - apply IH. intros c' Hc'. apply Hq. by right.
Qed.

Lemma quiet_reconcileChildren el children :
  (∀ c, c ∈ children -> present c = true -> ∀ p o, quiet (patch p o c)) ->
  quiet (reconcileChildren patch el children).
Proof.
  intros Hq. unfold reconcileChildren.
  apply quiet_bind; [quiet|]. intros n. apply quiet_bind; [quiet|]. intros keyed.
  apply quiet_bind; [by apply quiet_reconcile_loop|]. intros newOrder. quiet.
Qed.
End Quiet.

Lemma all_plain_elem c children :
  all_plain children = true -> c ∈ children -> present c = true -> plain c = true.
Proof.
  induction children as [|c' children IH]; intros Hall Hin Hp; [by apply elem_of_nil in Hin|].
  simpl in Hall. apply andb_prop in Hall as [Hc Hall].
  apply elem_of_cons in Hin as [->|Hin]; [|by apply IH].
  rewrite Hp in Hc. done.
Qed.

(** A plain description has no hook, no [ref] and no [focus]: patching it
    makes no call. *)
Lemma quiet_patch_plain n : ∀ d p o, vsize d ≤ n -> plain d = true -> quiet (patch_with None p o d).
Proof.
  induction n as [|n IH]; intros d p o Hn Hplain.
  { destruct d; simpl in Hn; lia. }
  destruct p as [c|]; [|destruct d as [| |[]]; simpl; quiet].
  destruct d as [v|items|[t|f] attrs children own]; try done.
  - cbn [patch_with]. unfold createTextNode. quiet.
  - apply plain_VObj in Hplain as (Hlow & Hbody & -> & Hhk & Hall).
    rewrite vsize_VObj in Hn.
    assert (∀ c', c' ∈ children -> present c' = true ->
                  ∀ p o, quiet (patch_with None p o c')) as Hch.
    { intros c' Hc' Hp' p' o'. apply IH.
      - apply sum_vsize_elem in Hc'. lia.
      - by eapply all_plain_elem. }
    assert (∀ el, quiet (updateElement (patch_with None) el (Some []) children)) as Hup.
    { intros el. unfold updateElement. cbn [applyAttrs].
      apply quiet_bind; [quiet|]. intros _. by apply quiet_reconcileChildren. }
    cbn [patch_with]. apply quiet_bind; [quiet|]. intros [|].
    + unfold replaceNode, createElement. rewrite Hbody.
      cbn [default from_option id]. rewrite Hhk. unfold document_createElement.
      apply quiet_bind; [|quiet].
      apply quiet_bind; [|quiet].
      apply quiet_bind; [quiet|]. intros el. apply quiet_bind; [quiet|]. intros _.
      apply quiet_bind; [apply Hup|quiet].
    + destruct o; [|quiet]. apply quiet_bind; [apply Hup|quiet].
Qed.

(** ** The calls out of the reconciler *)

Lemma quiet_setProperty el k v : quiet (setProperty el k v).
Proof. unfold setProperty. quiet. Qed.
Lemma quiet_setAttribute el k v : quiet (setAttribute el k v).
Proof. unfold setAttribute. quiet. Qed.
Lemma quiet_removeAttribute el k : quiet (removeAttribute el k).
Proof. unfold removeAttribute. quiet. Qed.

Lemma applyAttr_calls el k v st st' :
  applyAttr el k v st = Ok tt st' -> calls st' = calls st ++ attrCalls el [(k, v)].
Proof.
  unfold applyAttr, attrCalls. cbn [mbind list_bind fst snd]. rewrite app_nil_r.
  intros H. apply bind_inv in H as (n & st0 & Hn & H).
  unfold node in Hn. destruct (nodes st !! el); [|done]. injection Hn as <- <-.
  destruct (String.eqb k "ref").
  { destruct v; try done. by injection H as <-. }
  destruct (String.eqb k "focus" && bool_decide (v = VBool true)).
  { by injection H as <-. }
  rewrite app_nil_r.
  destruct (startsWith "on" k && _); [by apply (quiet_setProperty _ _ _ _ _ _ H)|].
  destruct (String.eqb k "value" && _); [by apply (quiet_setProperty _ _ _ _ _ _ H)|].
  destruct (String.eqb k "checked" && _); [by apply (quiet_setProperty _ _ _ _ _ _ H)|].
  case_bool_decide; [by apply (quiet_setAttribute _ _ _ _ _ _ H)|].
  case_bool_decide; [by apply (quiet_removeAttribute _ _ _ _ _ H)|].
  destruct (negb (nullish v)); [by apply (quiet_setAttribute _ _ _ _ _ _ H)|].
  by injection H as <-.
Qed.

Lemma attrCalls_cons el kv attrs :
  attrCalls el (kv :: attrs) = attrCalls el [kv] ++ attrCalls el attrs.
Proof. unfold attrCalls. cbn [mbind list_bind]. by rewrite app_nil_r. Qed.

Lemma applyAttrs_calls el attrs : ∀ st st',
  applyAttrs el attrs st = Ok tt st' -> calls st' = calls st ++ attrCalls el attrs.
Proof.
  induction attrs as [|[k v] attrs IH]; intros st st' H.
  - injection H as <-. by rewrite app_nil_r.
  - cbn [applyAttrs] in H. apply bind_inv in H as ([] & st1 & H1 & H).
    rewrite (IH _ _ H), (applyAttr_calls _ _ _ _ _ H1), (attrCalls_cons el (k, v) attrs).
    by rewrite <- app_assoc.
Qed.

(** [updateElement] with plain children makes the calls of the attributes
    and no other. *)
Lemma updateElement_calls attrs children el st st' :
  all_plain children = true ->
  updateElement (patch_with None) el attrs children st = Ok tt st' ->
  calls st' = calls st ++ descriptionCalls el attrs.
Proof.
  intros Hall H. unfold updateElement in H. destruct attrs as [attrs|].
  - apply bind_inv in H as ([] & st1 & Hattrs & Hrec).
    assert (quiet (reconcileChildren (patch_with None) el children)) as Hq.
    { apply quiet_reconcileChildren.
      intros c' Hc' Hp' p' o'. apply (quiet_patch_plain (vsize c')); [done|].
      by eapply all_plain_elem. }
    rewrite (Hq _ _ _ Hrec). by apply applyAttrs_calls.
  - injection H as <-. simpl. by rewrite app_nil_r.
Qed.

(** The calls of one patch of an element description whose children are
    plain: the hook and the attributes when the element is created, the
    attributes alone when the description is patched over an element of
    the same tag. *)
Lemma patch_element_calls t attrs children own c st :
  t ≠ "body" -> all_plain children = true ->
  let d := VObj (TagName t) attrs children own in
  (∀ r st', patch (Some c) None d st = Ok r st' ->
            r = Some (length (nodes st))
            ∧ calls st' = calls st ++ hookCalls own (length (nodes st))
                          ++ descriptionCalls (length (nodes st)) attrs)
  ∧ (∀ o T a pr cs p r st',
       nodes st !! o = Some (DNode (Element T a pr) cs p) -> toLowerCase T = t ->
       patch (Some c) (Some o) d st = Ok r st' ->
       r = Some o ∧ calls st' = calls st ++ descriptionCalls o attrs).
Proof.
  intros Hbody Hall d. apply String.eqb_neq in Hbody.
  split.
  - intros r st' H. unfold patch, d in H. cbn [patch_with] in H.
    rewrite bind_ret in H. cbv beta iota in H.
    apply bind_inv in H as (el & st4 & H & [= <- <-]).
    unfold replaceNode in H. cbn [default from_option id] in H.
    apply bind_inv in H as (el' & st3 & Hcreate & H).
    rewrite bind_ret in H. apply bind_inv in H as (x & st4' & Happ & [= <- <-]).
    unfold createElement in Hcreate. rewrite Hbody in Hcreate.
    apply bind_inv in Hcreate as (el0 & st1 & Hnew & H).
    apply bind_inv in H as ([] & st2 & Hhook & H).
    apply bind_inv in H as ([] & st3' & Hupd & [= <- <-]).
    unfold document_createElement in Hnew. destruct (validName t); [|done].
    injection Hnew as <- <-.
    split; [done|].
    rewrite (quiet_appendChild _ _ _ _ _ Happ), (updateElement_calls _ _ _ _ _ Hall Hupd).
    unfold hookCalls.
    destruct (onMount own); injection Hhook as <-; simpl; [by rewrite <- app_assoc|done].
  - intros o T a pr cs p r st' Ho HT H. unfold patch, d in H. cbn [patch_with] in H.
    assert (shouldReplace o (VObj (TagName t) attrs children own) st = Ok false st)
      as Hsr.
    { unfold shouldReplace. mstep (node_lookup _ _ _ Ho).
      cbn [isText payload_of isNewText Bool.eqb negb]. by rewrite HT, String.eqb_refl. }
    rewrite (bind_ok _ _ _ _ _ Hsr) in H. cbv beta iota in H.
    apply bind_inv in H as ([] & st1 & Hupd & [= <- <-]).
    split; [done|]. by apply (updateElement_calls _ _ _ _ _ Hall Hupd).
Qed.



(** ** Components *)

(** A description whose tag is a function. The function gets the
    attributes and nothing else (the children of the description are
    dropped), and what it returns is patched with the hooks of the
    description in the place of its own: an element description, a
    component or an array as if it had been written with these hooks. A
    function that returns a function has it printed as a text; one that
    returns another object, which has no tag and no attributes, has an
    empty element named [undefined] mounted; one that returns any other
    primitive makes [patch] throw, since no property can be set on it. *)
Theorem component_gets_outer_hooks (f : option (list (string * value)) -> vnode)
    (attrs : option (list (string * value))) (ch : list vnode) (own : hooks)
    (c : nat) (st : dom) :
  let d := VObj (TagFn f) attrs ch own in
  (∀ tg a children inner o,
     f attrs = VObj tg a children inner ->
     patch (Some c) o d st = patch (Some c) o (VObj tg a children own) st)
  ∧ (∀ items o, f attrs = VArray items ->
                patch (Some c) o d st = patch (Some c) o (VArray items) st)
  ∧ (∀ g o, f attrs = VPrim (VFunction g) ->
            patch (Some c) o d st = patch (Some c) o (VPrim (VFunction g)) st)
  ∧ (∀ x, f attrs = VPrim (VObject x) ->
          patch (Some c) None d st
          = patch (Some c) None (VObj (TagName "undefined") None [] own) st)
  ∧ (∀ v o, f attrs = VPrim v ->
            match v with VObject _ | VFunction _ => False | _ => True end ->
            patch (Some c) o d st = Raise TypeError).
Proof.
  intros d. unfold patch, d. split_and!.
  - intros tg a children inner o Hf. cbn [patch_with]. rewrite Hf.
    destruct tg as [t|g]; [done|]. cbn [patch_with]. by destruct (g a) as [[]| |].
  - intros items o Hf. cbn [patch_with]. rewrite Hf. done.
  - intros g o Hf. cbn [patch_with]. rewrite Hf. done.
  - intros x Hf. cbn [patch_with]. rewrite Hf. done.
  - intros v o Hf Hv. cbn [patch_with]. rewrite Hf. by destruct v.
Qed.

(** A component whose description has the hook [5], named by a description
    with the hook [9] and a child: the element is built without the child,
    and the hook that fires is [9]. A component that returns a string
    throws. *)
Lemma component_gets_outer_hooks_witness :
  let f := fun _ : option (list (string * value)) =>
             VObj (TagName "p") (Some []) [] (Hooks (Some 5)) in
  let g := fun _ : option (list (string * value)) => VPrim (VString "text") in
  (∃ st1,
     patch (Some 1) None (VObj (TagFn f) None [VPrim (VString "dropped")] (Hooks (Some 9))) page
     = Ok (Some 2) st1
     ∧ calls st1 = [CallOnMount 9 2]
     ∧ nodes st1 !! 2 = Some (DNode (Element "P" ∅ ∅) [] (Some 1)))
  ∧ patch (Some 1) None (VObj (TagFn g) None [] (Hooks None)) page = Raise TypeError.
Proof.
  intros f g. split.
  - rewrite (proj1 (component_gets_outer_hooks f None [VPrim (VString "dropped")]
                      (Hooks (Some 9)) 1 page)
               (TagName "p") (Some []) [] (Hooks (Some 5)) None eq_refl).
    eexists. split_and!; [vm_compute; reflexivity|reflexivity..].
  - apply (proj2 (proj2 (proj2 (proj2 (component_gets_outer_hooks g None [] (Hooks None)
                                         1 page))))
             (VString "text") None eq_refl I).
Defined.

(** ** Attributes that are set *)

Lemma applyAttr_text el k v st T a pr cs p :
  nodes st !! el = Some (DNode (Element T a pr) cs p) ->
  textAttribute (k, v) = true ->
  applyAttr el k v st
  = Ok tt (Document (<[el := DNode (Element T (<[toLowerCase k := toString v]> a) pr) cs p]>
                       (nodes st)) (body st) (calls st)).
Proof.
  intros Hel Htx. unfold textAttribute in Htx. simpl in Htx.
  apply andb_prop in Htx as [Hname Htx].
  assert (String.eqb k "ref" = false ∧ String.eqb k "value" = false
          ∧ String.eqb k "checked" = false
          ∧ (match v with VFunction _ => true | _ => false end) = false
          ∧ bool_decide (v = VBool true) = false ∧ bool_decide (v = VBool false) = false
          ∧ nullish v = false) as (Hr & Hv & Hc & Hf & Ht & Hfa & Hn).
  { destruct v; try done;
      repeat (apply andb_prop in Htx as [Htx ?]);
      split_and!; try done; by apply negb_true_iff. }
  unfold applyAttr. mstep (node_lookup _ _ _ Hel).
  rewrite Hr, Ht, Hf, Hv, Hc, Hfa, Hn, !andb_false_r. simpl.
  unfold setAttribute. mstep (node_lookup _ _ _ Hel). simpl.
  rewrite (attributeName_valid _ Hname).
  unfold modify. f_equal. f_equal.
  apply list_eq. intros y. destruct (decide (y = el)) as [->|Hy].
  - rewrite list_lookup_alter_eq, list_lookup_insert_eq, Hel by (by eapply lookup_lt_Some).
    done.
  - by rewrite list_lookup_alter_ne, list_lookup_insert_ne.
Qed.

(** The attributes of a description that are strings or numbers, under
    well-formed names that differ also when lower-cased, are all set on
    the element, each to its text; the other attributes of the element, its properties,
    its children and all the other nodes stay as they are. *)
Theorem text_attributes_are_set (el : nat) (attrs : list (string * value)) (st : dom)
    (T : string) (a : gmap string string) (pr : gmap string value) (cs : list nat)
    (p : option nat) :
  nodes st !! el = Some (DNode (Element T a pr) cs p) ->
  (∀ kv, kv ∈ attrs -> textAttribute kv = true) ->
  NoDup (toLowerCase <$> attrs.*1) ->
  ∃ a',
    applyAttrs el attrs st
    = Ok tt (Document (<[el := DNode (Element T a' pr) cs p]> (nodes st)) (body st) (calls st))
    ∧ (∀ k v, (k, v) ∈ attrs -> a' !! toLowerCase k = Some (toString v))
    ∧ (∀ name, name ∉ toLowerCase <$> attrs.*1 -> a' !! name = a !! name).
Proof.
  revert st a. induction attrs as [|[k v] attrs IH]; intros st a Hel Htx Hnd.
  - exists a. simpl. split_and!; [|by intros k v Hin%elem_of_nil|done].
    rewrite list_insert_id by done. by destruct st.
  - simpl in Hnd. apply NoDup_cons in Hnd as [Hk Hnd].
    cbn [applyAttrs].
    rewrite (bind_ok _ _ _ _ _ (applyAttr_text el k v st T a pr cs p Hel
                                   (Htx (k, v) ltac:(left)))).
    set (st1 := Document _ _ _).
    destruct (IH st1 (<[toLowerCase k := toString v]> a)) as (a' & Hrun & Hset & Hrest);
      [|intros kv Hkv; apply Htx; by right|done|].
    { unfold st1. simpl. by rewrite list_lookup_insert_eq by (by eapply lookup_lt_Some). }
    exists a'. split_and!.
    + rewrite Hrun. unfold st1. simpl. by rewrite list_insert_insert_eq.
    + intros k' v' [[= -> ->]|Hin]%elem_of_cons; [|by apply Hset].
      rewrite Hrest by done. by rewrite lookup_insert_eq.
    + intros name Hname. simpl in Hname. apply not_elem_of_cons in Hname as [Hne Hname].
      rewrite Hrest by done. by rewrite lookup_insert_ne.
Qed.

Lemma text_attributes_are_set_witness :
  ∃ a',
    applyAttrs 1 [("class", VString "box"); ("tabIndex", VInt 3)] page
    = Ok tt (Document (<[1 := DNode (Element "DIV" a' ∅) [] (Some 0)]> (nodes page))
                      (body page) (calls page))
    ∧ (∀ k v, (k, v) ∈ [("class", VString "box"); ("tabIndex", VInt 3)] ->
              a' !! toLowerCase k = Some (toString v))
    ∧ (∀ name, name ∉ toLowerCase <$> [("class", VString "box"); ("tabIndex", VInt 3)].*1 ->
               a' !! name = (∅ : gmap string string) !! name).
Proof.
  apply (text_attributes_are_set 1 [("class", VString "box"); ("tabIndex", VInt 3)] page
           "DIV" ∅ ∅ [] (Some 0)).
  - reflexivity.
  - intros kv Hkv.
    repeat (apply elem_of_cons in Hkv as [->|Hkv]; [reflexivity|]).
    by apply elem_of_nil in Hkv.
  - by apply (bool_decide_unpack _).
Defined.

(** ** A description that is absent *)

(** An element description patched against a text node that is attached
    nowhere, as against no node at all. *)
Lemma patch_over_detached t children own st c o s :
  plain (VObj (TagName t) (Some []) children own) = true ->
  named (VObj (TagName t) (Some []) children own) = true ->
  nodes st !! o = Some (DNode (Text s) [] None) -> c ≠ o ->
  parents_below (length (nodes st)) (nodes st) ->
  patch_with None (Some c) (Some o) (VObj (TagName t) (Some []) children own) st
  = patch_with None (Some c) None (VObj (TagName t) (Some []) children own) st.
Proof.
  intros Hplain Hnamed Ho Hne Hpb.
  apply plain_VObj in Hplain as (Hlow & Hbody & _ & Hhk & Hall).
  apply named_VObj in Hnamed as (Hname & Hnames).
  assert (o < length (nodes st)) as Hlt by (by eapply lookup_lt_Some).
  destruct (createElement_plain t children own st Hlow Hbody Hhk Hall Hname Hnames Hpb)
    as (st_k & cs & Hcreate & _ & _ & Hfr & _ & _).
  cbn [patch_with].
  assert (shouldReplace o (VObj (TagName t) (Some []) children own) st = Ok true st) as Hsr.
  { unfold shouldReplace. by mstep (node_lookup _ _ _ Ho). }
  mstep Hsr. cbv beta iota.
  unfold replaceNode. cbn [default from_option id].
  mstep Hcreate.
  assert (contains c o st_k = Ok false st_k) as Hcont.
  { unfold contains.
    by rewrite (inclusive_ancestor_root _ st_k c o (DNode (Text s) [] None))
      by (by rewrite ?Hfr). }
  mstep Hcont. by mstep Hcreate.
Qed.

(** A component that answers [null] or [undefined] does not clear what was
    rendered before. [patch] hands back a new empty text node that is
    attached nowhere and leaves every node as it was, the previous
    rendering included; and a plain element description whose tags are
    names, patched next against that text node, is mounted as a further
    child of the container, behind the children it had. *)
Theorem absent_description_leaves_rendering (v : value) (t : string) (children : list vnode)
    (own : hooks) (c : nat) (cn : dnode) (o : option nat) (st : dom) :
  nullish v = true ->
  plain (VObj (TagName t) (Some []) children own) = true ->
  named (VObj (TagName t) (Some []) children own) = true ->
  nodes st !! c = Some cn -> isText cn = false ->
  parents_below (length (nodes st)) (nodes st) ->
  ∃ st1 st2,
    patch (Some c) o (VPrim v) st = Ok (Some (length (nodes st))) st1
    ∧ nodes st1 = nodes st ++ [DNode (Text "") [] None]
    ∧ patch (Some c) (Some (length (nodes st))) (VObj (TagName t) (Some []) children own) st1
      = Ok (Some (S (length (nodes st)))) st2
    ∧ mounted st1 c cn (VObj (TagName t) (Some []) children own) st2.
Proof.
  intros Hv Hplain Hnamed Hc Hct Hpb.
  destruct (alloc_spec (Text "") st) as (st1 & Hnew & Hnodes & Hlen & Hel & Hold & Hpb1).
  assert (c < length (nodes st)) as Hlt by (by eapply lookup_lt_Some).
  assert (nodes st1 !! c = Some cn) as Hc1 by (by rewrite Hold).
  destruct (patch_mount_plain _ st1 c cn Hplain Hnamed Hc1 Hct (Hpb1 Hpb))
    as (st2 & Hpatch & Hm).
  exists st1, st2. split_and!; [|done| |done].
  - unfold patch. cbn [patch_with]. rewrite Hv.
    assert (createTextNode "" st = Ok (length (nodes st)) st1) as Hcr by exact Hnew.
    by mstep Hcr.
  - assert (c ≠ length (nodes st)) as Hne by lia.
    unfold patch. rewrite (patch_over_detached _ _ _ _ _ _ "" Hplain Hnamed Hel Hne (Hpb1 Hpb)).
    by rewrite Hpatch, Hlen.
Qed.

(** A paragraph is rendered in the container, the description becomes
    [null], and a section is rendered next: the container ends with both
    elements. *)
Lemma absent_description_leaves_rendering_witness :
  ∃ st0 st1 st2,
    patch (Some 1) None (VObj (TagName "p") (Some []) [] (Hooks None)) page = Ok (Some 2) st0
    ∧ patch (Some 1) (Some 2) (VPrim VNull) st0 = Ok (Some 3) st1
    ∧ patch (Some 1) (Some 3) (VObj (TagName "section") (Some []) [] (Hooks None)) st1
      = Ok (Some 4) st2
    ∧ childrenOf st2 1 = [2; 4].
Proof.
  destruct (patch (Some 1) None (VObj (TagName "p") (Some []) [] (Hooks None)) page)
    as [r st0|e] eqn:H0; [|by vm_compute in H0].
  vm_compute in H0. injection H0 as <- <-.
  set (st0 := Document _ _ _).
  destruct (absent_description_leaves_rendering VNull "section" [] (Hooks None) 1
              (DNode (Element "DIV" ∅ ∅) [2] (Some 0)) (Some 2) st0)
    as (st1 & st2 & H1 & Hn1 & H2 & (_ & Hc2 & _)); try reflexivity.
  { intros y n p Hy Hn Hp. unfold st0 in *. simpl in *.
    destruct y as [|[|[|y]]]; simplify_eq/=; lia. }
  exists st0, st1, st2.
  split; [reflexivity|]. split; [exact H1|]. split; [exact H2|].
  unfold childrenOf. rewrite Hc2, Hn1. reflexivity.
Defined.

(** ** The [ref] attribute *)



End DomTheory.

(* ================================================================== *)
(** * Properties of rendering and routing                               *)
(* ================================================================== *)

Module AppTheory.
Import Reactivity Dom App ReactivityTheory DomTheory.

(** ** Components *)

Lemma answer_ext v : ∀ σ σ', (∀ s, σ s = σ' s) -> answer v σ = answer v σ'.
Proof.
  induction v as [d|s k IH|x]; intros σ σ' H; simpl; [done| |done].
  rewrite (H s). by apply IH.
Qed.

Lemma reads_ext v : ∀ σ σ', (∀ s, σ s = σ' s) -> reads v σ = reads v σ'.
Proof.
  induction v as [d|s k IH|x]; intros σ σ' H; simpl; [done| |done].
  rewrite (H s). f_equal. by apply IH.
Qed.

Lemma with_signals_twice sg sg' w : with_signals sg' (with_signals sg w) = with_signals sg' w.
Proof. done. Qed.

Lemma with_signals_id w : with_signals (signals w) w = w.
Proof. by destruct w. Qed.

(** A call of a component changes the listener sets and nothing else; what
    it returns is its answer on the store. An effect that is already
    subscribed to a signal leaves its listeners as they are, and the
    current effect ends up among the listeners of every signal read. *)
Lemma call_spec v : ∀ w,
  ∃ sg, call v w = (with_signals sg w, answer v (stateOf w))
    ∧ state <$> sg = state <$> signals w
    ∧ (∀ s, listenersOf w s `prefix_of` listenersOf (with_signals sg w) s)
    ∧ (∀ e s, currentEffect w = Some e -> e ∈ listenersOf w s ->
              listenersOf (with_signals sg w) s = listenersOf w s)
    ∧ (∀ e s, currentEffect w = Some e -> s ∈ reads v (stateOf w) ->
              is_Some (signals w !! s) -> e ∈ listenersOf (with_signals sg w) s).
Proof.
  induction v as [d|s0 k IH|x]; intros w; simpl.
  - exists (signals w). rewrite with_signals_id. split_and!; try done.
    intros e s _ Hs. by apply elem_of_nil in Hs.
  - destruct (get_signals s0 w) as (sg0 & Hget & E0).
    pose proof (get_extends s0 w) as [Hext _].
    pose proof (get_keeps_subscribed s0 w) as Hkeep.
    assert (∀ e, currentEffect w = Some e -> is_Some (signals w !! s0) ->
                 e ∈ listenersOf (get s0 w).1 s0) as Hsub.
    { intros e Hce [c0 Hc0]. unfold get. rewrite Hc0, Hce. simpl.
      rewrite listenersOf_insert, bool_decide_eq_true_2
        by (split; [done|by eapply lookup_lt_Some]).
      simpl. apply elem_of_set_add. by left. }
    rewrite Hget in Hext, Hkeep, Hsub |- *. simpl in Hext, Hkeep, Hsub.
    destruct (IH (stateOf w s0) (with_signals sg0 w)) as (sg & Hcall & E & Hpre & Hk & Hr).
    rewrite with_signals_twice in Hcall, Hpre, Hk, Hr.
    exists sg. split_and!.
    + rewrite Hcall. f_equal. apply answer_ext. intros s. by apply stateOf_fmap.
    + by rewrite E.
    + intros s. etrans; [apply Hext|apply Hpre].
    + intros e s Hce He. rewrite (Hk e s); [by apply (Hkeep e)|done|]. by rewrite (Hkeep e s).
    + intros e s Hce Hs Hsome.
      assert (∀ s', stateOf (with_signals sg0 w) s' = stateOf w s') as Hst.
      { intros s'. by apply stateOf_fmap. }
      apply elem_of_cons in Hs as [->|Hs].
      * destruct (Hpre s0) as [l' Hl']. rewrite Hl'. apply elem_of_app. left.
        by apply Hsub.
      * apply (Hr e s); [done| |].
        -- by rewrite (reads_ext _ _ _ Hst).
        -- simpl. apply lookup_lt_is_Some. apply lookup_lt_is_Some in Hsome.
           by rewrite <- (length_fmap state sg0), E0, length_fmap.
  - exists (signals w). rewrite with_signals_id. split_and!; try done.
    intros e s _ Hs. by apply elem_of_nil in Hs.
Qed.

Lemma set_add_idem e l : set_add e (set_add e l) = set_add e l.
Proof.
  unfold set_add at 1. rewrite bool_decide_eq_true_2; [done|].
  apply elem_of_set_add. by left.
Qed.

Lemma get_listeners s0 w e s :
  currentEffect w = Some e ->
  listenersOf (get s0 w).1 s = listenersOf w s
  ∨ listenersOf (get s0 w).1 s = set_add e (listenersOf w s).
Proof.
  intros Hce. unfold get. destruct (signals w !! s0) as [c0|] eqn:Hs0; [|by left].
  rewrite Hce. simpl. rewrite listenersOf_insert. case_bool_decide as H; [|by left].
  destruct H as [<- _]. right. unfold listenersOf. by rewrite Hs0.
Qed.

(** A call of a component adds the current effect to listener sets, once,
    and nothing else. *)
Lemma call_listeners v : ∀ w e s,
  currentEffect w = Some e ->
  listenersOf (call v w).1 s = listenersOf w s
  ∨ listenersOf (call v w).1 s = set_add e (listenersOf w s).
Proof.
  induction v as [d|s0 k IH|x]; intros w e s Hce; simpl; [by left| |by left].
  pose proof (get_listeners s0 w e s Hce) as H0.
  pose proof (get_currentEffect s0 w) as Hce0.
  destruct (get s0 w) as [w1 x]. simpl in H0, Hce0.
  destruct (IH x w1 e s) as [H1|H1]; [congruence|..]; rewrite H1.
  - done.
  - destruct H0 as [->| ->]; [by right|]. right. apply set_add_idem.
Qed.

Lemma stateOf_with_signals sg w s :
  state <$> sg = state <$> signals w -> stateOf (with_signals sg w) s = stateOf w s.
Proof. intros E. by apply stateOf_fmap. Qed.

(** One run of a renderer whose component answers with a description that
    [patch] accepts. *)
Lemma execute_spec e a u d r st :
  renderers a !! e = Some u ->
  answer (component u) (stateOf (rx a)) = inl d ->
  patch (container u) (currentDOM u) d (doc a) = Ok r st ->
  ∃ sg,
    execute e a =
      Went (Application
              (World None (batchQueue (rx a)) (isBatching (rx a)) sg (closures (rx a))
                     (trace (rx a) ++ [EvRun e]))
              st (<[e := Renderer (component u) (container u) r]> (renderers a))
              (hash a) (hashchange a)) Normal
    ∧ state <$> sg = state <$> signals (rx a)
    ∧ (∀ s, listenersOf (rx a) s `prefix_of` listenersOf (with_signals sg (rx a)) s)
    ∧ (∀ s, e ∈ listenersOf (rx a) s ->
            listenersOf (with_signals sg (rx a)) s = listenersOf (rx a) s)
    ∧ (∀ s, s ∈ reads (component u) (stateOf (rx a)) -> is_Some (signals (rx a) !! s) ->
            e ∈ listenersOf (with_signals sg (rx a)) s)
    ∧ (∀ s, listenersOf (with_signals sg (rx a)) s = listenersOf (rx a) s
            ∨ listenersOf (with_signals sg (rx a)) s = set_add e (listenersOf (rx a) s)).
Proof.
  intros Hu Hans Hpatch. unfold execute, rerender. cbn [renderers with_rx rx doc]. rewrite Hu.
  pose proof (λ s, call_listeners (component u)
                     (with_currentEffect (Some e) (emit (EvRun e) (rx a))) e s eq_refl) as Hcl.
  destruct (call_spec (component u) (with_currentEffect (Some e) (emit (EvRun e) (rx a))))
    as (sg & Hcall & E & Hpre & Hkeep & Hreads).
  rewrite Hcall in Hcl |- *. simpl in Hcl.
  cbn [stateOf] in *.
  assert (answer (component u)
            (stateOf (with_currentEffect (Some e) (emit (EvRun e) (rx a))))
          = inl d) as ->.
  { rewrite <- Hans. by apply answer_ext. }
  rewrite Hpatch. exists sg. split_and!; try done.
  - intros s He. by apply (Hkeep e s).
  - intros s Hs Hsome. by apply (Hreads e s).
Qed.

(** ** [render] *)

(** [render(component, container)] when the component answers with a plain
    description whose tags are names: the description is rendered as the last child of the
    container, the closure keeps the rendering as its [currentDOM], the
    cursor is cleared, the store is as before, and the new effect is
    subscribed to every signal that the component has read. *)
Theorem render_mounts_and_subscribes (comp : view) (c : nat) (cn : dnode) (a : app)
    (d : vnode) :
  answer comp (stateOf (rx a)) = inl d -> plain d = true -> named d = true ->
  nodes (doc a) !! c = Some cn -> isText cn = false ->
  parents_below (length (nodes (doc a))) (nodes (doc a)) ->
  let e := length (renderers a) in
  let r := length (nodes (doc a)) in
  ∃ a',
    render comp (Some c) a = Went a' Normal
    ∧ rendered (nodes (doc a')) r d
    ∧ nodes (doc a') !! c
      = Some (DNode (payload_of cn) (childNodes cn ++ [r]) (parentNode cn))
    ∧ renderers a' = renderers a ++ [Renderer comp (Some c) (Some r)]
    ∧ currentEffect (rx a') = None
    ∧ (∀ s, stateOf (rx a') s = stateOf (rx a) s)
    ∧ (∀ s, s ∈ reads comp (stateOf (rx a)) -> is_Some (signals (rx a) !! s) ->
            e ∈ listenersOf (rx a') s).
Proof.
  intros Hans Hplain Hnamed Hc Hct Hpb e r.
  destruct (patch_mount_plain d (doc a) c cn Hplain Hnamed Hc Hct Hpb)
    as (st1 & Hpatch & Hr & Hc1 & _).
  set (a0 := Application (rx a) (doc a) (renderers a ++ [Renderer comp (Some c) None])
                         (hash a) (hashchange a)).
  destruct (execute_spec e a0 (Renderer comp (Some c) None) d (Some r) st1)
    as (sg & Hex & E & _ & _ & Hreads & _); try done.
  { unfold a0, e. simpl. by rewrite list_lookup_middle. }
  eexists. split; [exact Hex|]. simpl. split_and!; try done.
  - unfold e. rewrite insert_app_r_alt, Nat.sub_diag by done. done.
  - intros s. unfold stateOf. simpl. by rewrite <- !list_lookup_fmap, E.
Qed.

Lemma render_mounts_and_subscribes_witness :
  let comp := Read 0 (fun v => Give (Vnode (TagName "p") None (VPrim v))) in
  let a := Application two_cells page [] "" [] in
  ∃ a',
    render comp (Some 1) a = Went a' Normal
    ∧ rendered (nodes (doc a')) 2 (Vnode (TagName "p") None (VPrim (VInt 0)))
    ∧ nodes (doc a') !! 1 = Some (DNode (Element "DIV" ∅ ∅) ([] ++ [2]) (Some 0))
    ∧ renderers a' = [] ++ [Renderer comp (Some 1) (Some 2)]
    ∧ currentEffect (rx a') = None
    ∧ (∀ s, stateOf (rx a') s = stateOf (rx a) s)
    ∧ (∀ s, s ∈ reads comp (stateOf (rx a)) -> is_Some (signals (rx a) !! s) ->
            0 ∈ listenersOf (rx a') s).
Proof.
  apply (render_mounts_and_subscribes
           (Read 0 (fun v => Give (Vnode (TagName "p") None (VPrim v)))) 1
           (DNode (Element "DIV" ∅ ∅) [] (Some 0))
           (Application two_cells page [] "" [])
           (Vnode (TagName "p") None (VPrim (VInt 0)))).
  - reflexivity.
  - reflexivity.
  - reflexivity.
  - reflexivity.
  - reflexivity.
  - intros y n p Hy Hn Hp. unfold page in *. simpl in *.
    destruct y as [|[|y]]; simplify_eq/=; lia.
Defined.

(** ** Writes *)

Lemma listenersOf_signals w w' s :
  signals w' = signals w -> listenersOf w' s = listenersOf w s.
Proof. unfold listenersOf. by intros ->. Qed.

(** A changing write, outside a batch, to a signal that one renderer is
    subscribed to. *)
Lemma set_single k s next a c0 e u d r st :
  isBatching (rx a) = false ->
  signals (rx a) !! s = Some c0 -> Object_is (state c0) next = false ->
  listeners c0 = [e] ->
  renderers a !! e = Some u ->
  answer (component u) (update s next (stateOf (rx a))) = inl d ->
  patch (container u) (currentDOM u) d (doc a) = Ok r st ->
  ∃ a',
    set (S k) s next a = Went a' Normal
    ∧ doc a' = st
    ∧ renderers a' = <[e := Renderer (component u) (container u) r]> (renderers a)
    ∧ (∀ s', stateOf (rx a') s' = update s next (stateOf (rx a)) s')
    ∧ (∀ s', listenersOf (rx a) s' `prefix_of` listenersOf (rx a') s')
    ∧ listenersOf (rx a') s = [e]
    ∧ trace (rx a') = trace (rx a) ++ [EvWrite s next; EvRun e; EvRestore]
    ∧ isBatching (rx a') = false ∧ batchQueue (rx a') = batchQueue (rx a)
    ∧ currentEffect (rx a') = None
    ∧ hash a' = hash a ∧ hashchange a' = hashchange a.
Proof.
  intros Hb Hs Hne Hl Hu Hans Hpatch.
  unfold set. rewrite Hs, Hne.
  set (sg1 := <[s := Cell next (listeners c0)]> (signals (rx a))).
  set (w1 := emit (EvWrite s next) (with_signals sg1 (rx a))).
  assert (isBatching w1 = false) as Hb1 by exact Hb. rewrite Hb1.
  unfold batch. cbn [rx with_rx]. rewrite Hb1.
  set (a0 := with_rx (with_batchQueue [] (with_isBatching true w1)) (with_rx w1 a)).
  assert (listenersOf (rx a0) s = [e]) as Hl0.
  { unfold listenersOf, a0, w1, sg1. simpl.
    rewrite list_lookup_insert_eq by (by eapply lookup_lt_Some). done. }
  assert (∀ s', stateOf (rx a0) s' = update s next (stateOf (rx a)) s') as Hst0.
  { intros s'. unfold stateOf, update, a0, w1, sg1. simpl. case_bool_decide as Hss.
    - subst s'. rewrite list_lookup_insert_eq by (by eapply lookup_lt_Some). done.
    - by rewrite list_lookup_insert_ne. }
  destruct (execute_spec e a0 u d r st) as (sg & Hex & E & Hpre & Hkeep & _ & _); try done.
  { rewrite <- Hans. by apply answer_ext. }
  set (a2 := Application _ _ _ _ _) in Hex.
  assert (listenersOf (rx a2) s = [e]) as Hl2.
  { rewrite <- Hl0. rewrite <- (Hkeep s) by (rewrite Hl0; left). done. }
  assert (forEachListener (S k) s 0 a0 = Went a2 Normal) as ->.
  { cbn [forEachListener]. rewrite Hl0. change ([e] !! 0) with (Some e). cbv beta iota.
    rewrite Hex. destruct k; cbn [forEachListener]; by rewrite Hl2. }
  simpl. eexists. split; [done|]. simpl. split_and!; try done.
  - intros s'. rewrite <- Hst0. unfold stateOf. simpl. by rewrite <- !list_lookup_fmap, E.
  - intros s'. etrans; [|apply (Hpre s')].
    assert (listenersOf (rx a0) s' = listenersOf (rx a) s') as ->; [|done].
    unfold listenersOf, a0, w1, sg1. simpl.
    destruct (decide (s = s')) as [<-|Hss].
    + rewrite list_lookup_insert_eq by (by eapply lookup_lt_Some). by rewrite Hs.
    + by rewrite list_lookup_insert_ne.
  - by rewrite <- !app_assoc.
Qed.

(** The document follows the store. A changing write outside a batch to
    a signal that exactly one renderer is subscribed to calls the component
    of this renderer once, on the store that holds the new value, and
    patches its container with the description against the node retained
    from the last run, which becomes the new [currentDOM]. A changing
    write to a signal that nobody is subscribed to leaves the document and
    the renderers alone. *)
Theorem write_rerenders (k : nat) (s : signal) (next : value) (a : app) (c0 : cell) :
  isBatching (rx a) = false ->
  signals (rx a) !! s = Some c0 -> Object_is (state c0) next = false ->
  (listeners c0 = [] ->
   ∃ a', set (S k) s next a = Went a' Normal
     ∧ doc a' = doc a ∧ renderers a' = renderers a
     ∧ ∀ s', stateOf (rx a') s' = update s next (stateOf (rx a)) s')
  ∧ (∀ e u d r st,
       listeners c0 = [e] -> renderers a !! e = Some u ->
       answer (component u) (update s next (stateOf (rx a))) = inl d ->
       patch (container u) (currentDOM u) d (doc a) = Ok r st ->
       ∃ a', set (S k) s next a = Went a' Normal
         ∧ doc a' = st
         ∧ renderers a' = <[e := Renderer (component u) (container u) r]> (renderers a)
         ∧ (∀ s', stateOf (rx a') s' = update s next (stateOf (rx a)) s')
         ∧ trace (rx a') = trace (rx a) ++ [EvWrite s next; EvRun e; EvRestore]).
Proof.
  intros Hb Hs Hne. split.
  - intros Hl. unfold set. rewrite Hs, Hne. cbn [isBatching emit with_signals]. rewrite Hb.
    unfold batch. cbn [rx with_rx isBatching emit with_signals]. rewrite Hb.
    assert (∀ a0, listenersOf (rx a0) s = [] -> forEachListener (S k) s 0 a0 = Went a0 Normal)
      as Hwalk.
    { intros a0 Hl0. cbn [forEachListener]. by rewrite Hl0. }
    rewrite Hwalk.
    2:{ unfold listenersOf. simpl.
        rewrite list_lookup_insert_eq by (by eapply lookup_lt_Some). done. }
    simpl. eexists. split; [done|]. simpl. split_and!; try done.
    intros s'. unfold stateOf, update. simpl. case_bool_decide as Hss.
    + subst s'. rewrite list_lookup_insert_eq by (by eapply lookup_lt_Some). done.
    + by rewrite list_lookup_insert_ne.
  - intros e u d r st Hl Hu Hans Hpatch.
    destruct (set_single k s next a c0 e u d r st Hb Hs Hne Hl Hu Hans Hpatch)
      as (a' & H1 & H2 & H3 & H4 & _ & _ & H5 & _).
    by exists a'.
Qed.

Lemma write_rerenders_witness :
  let comp := Read 0 (fun v => Give (Vnode (TagName "p") None (VPrim v))) in
  let a := match render comp (Some 1) (Application two_cells page [] "" []) with
           | Went a _ => a
           | Broke _ => Application two_cells page [] "" []
           end in
  ∃ a', set 1 0 (VInt 7) a = Went a' Normal
    ∧ doc a' = documentOf (patch (Some 1) (Some 2) (Vnode (TagName "p") None (VPrim (VInt 7)))
                             (doc a)) (doc a)
    ∧ renderers a' = <[0 := Renderer comp (Some 1) (Some 2)]> (renderers a)
    ∧ (∀ s', stateOf (rx a') s' = update 0 (VInt 7) (stateOf (rx a)) s')
    ∧ trace (rx a') = trace (rx a) ++ [EvWrite 0 (VInt 7); EvRun 0; EvRestore].
Proof.
  intros comp a.
  apply (proj2 (write_rerenders 0 0 (VInt 7) a (Cell (VInt 0) [0])
                  eq_refl eq_refl eq_refl)
               0 (Renderer comp (Some 1) (Some 2))
               (Vnode (TagName "p") None (VPrim (VInt 7))) (Some 2)); reflexivity.
Defined.

(** ** Batches *)

Lemma update_same s v σ s' : σ s = v -> update s v σ s' = σ s'.
Proof. intros H. unfold update. case_bool_decide; congruence. Qed.

Lemma written_ext ws : ∀ σ σ', (∀ s, σ s = σ' s) -> ∀ s, written ws σ s = written ws σ' s.
Proof.
  induction ws as [|[s0 v] ws IH]; intros σ σ' H s; simpl; [done|].
  apply IH. intros s'. unfold update. simpl. by case_bool_decide.
Qed.

(** Writes while a batch is open: the values are stored and the listeners
    of every changing write are pushed on the queue; nothing runs. *)
Lemma sets_batching k ws : ∀ a,
  isBatching (rx a) = true ->
  (∀ sv, sv ∈ ws -> is_Some (signals (rx a) !! sv.1)) ->
  ∃ w2, sets k ws a = Went (with_rx w2 a) Normal
    ∧ isBatching w2 = true
    ∧ listeners <$> signals w2 = listeners <$> signals (rx a)
    ∧ (∀ s, stateOf w2 s = written ws (stateOf (rx a)) s)
    ∧ trace w2 = trace (rx a) ++ (write_event <$> changing_writes (signals (rx a)) ws)
    ∧ batchQueue w2 =
        batchQueue (rx a)
        ++ mjoin ((λ sv, listenersOf (rx a) sv.1) <$> changing_writes (signals (rx a)) ws).
Proof.
  induction ws as [|[s v] ws IH]; intros a Hb Hex; simpl.
  - exists (rx a). rewrite !app_nil_r. by destruct a.
  - destruct (Hex (s, v)) as [c Hs]; [left|]. simpl in Hs.
    unfold set. rewrite Hs. destruct (Object_is (state c) v) eqn:Ho.
    + destruct (IH a Hb) as (w2 & -> & Hb2 & Hl2 & Hst2 & Ht2 & Hq2).
      { intros sv Hsv. apply Hex. by right. }
      exists w2. split_and!; try done.
      intros s'. rewrite Hst2. apply written_ext. intros s''. symmetry.
      apply update_same. unfold stateOf. rewrite Hs. simpl.
      unfold Object_is in Ho. by apply bool_decide_eq_true in Ho.
    + cbn [isBatching emit with_signals]. rewrite Hb.
      set (a1 := with_rx _ a).
      destruct (IH a1 Hb) as (w2 & -> & Hb2 & Hl2 & Hst2 & Ht2 & Hq2).
      { intros sv Hsv. unfold a1. simpl. apply lookup_lt_is_Some.
        rewrite length_insert. apply lookup_lt_is_Some. apply Hex. by right. }
      exists w2. split_and!; try done.
      * rewrite Hl2. unfold a1. simpl. rewrite list_fmap_insert. simpl.
        apply list_insert_id. by rewrite list_lookup_fmap, Hs.
      * intros s'. rewrite Hst2. apply written_ext. intros s''.
        unfold stateOf, update, a1. simpl. case_bool_decide as Hss.
        -- subst s''. rewrite list_lookup_insert_eq by (by eapply lookup_lt_Some). done.
        -- by rewrite list_lookup_insert_ne.
      * rewrite Ht2. unfold a1. simpl. by rewrite <- app_assoc.
      * rewrite Hq2. unfold a1. simpl. rewrite <- app_assoc. f_equal.
        assert (listenersOf (rx a) s = listeners c) as -> by (unfold listenersOf; by rewrite Hs).
        f_equal. f_equal. apply list_fmap_ext. intros _ [s' v'] _. simpl.
        unfold listenersOf; simpl.
        destruct (decide (s = s')) as [<-|Hne].
        -- rewrite list_lookup_insert_eq by (by eapply lookup_lt_Some). by rewrite Hs.
        -- by rewrite list_lookup_insert_ne.
Qed.

Lemma unique_constant (q : list effect_id) e :
  q ≠ [] -> (∀ x, x ∈ q -> x = e) -> unique q = [e].
Proof.
  intros Hne Hall.
  pose proof (NoDup_unique q) as Hnd.
  assert (∀ x, x ∈ unique q -> x = e) as Hall'.
  { intros x Hx. apply Hall. by apply elem_of_unique. }
  assert (e ∈ unique q) as He.
  { apply elem_of_unique. destruct q as [|x q]; [done|].
    rewrite <- (Hall x) by left. left. }
  destruct (unique q) as [|x [|y l]].
  - by apply elem_of_nil in He.
  - f_equal. apply Hall'. left.
  - exfalso. apply NoDup_cons in Hnd as [Hx _]. apply Hx.
    rewrite (Hall' x) by left. rewrite (Hall' y) by (right; left). left.
Qed.

(** Several writes in one batch, to signals that one renderer is
    subscribed to: when at least one write changes a value, the component
    is called once, after all the writes, on the final store, and the
    document is patched once. *)
Theorem batch_rerenders_once (k : nat) (ws : list (signal * value)) (a : app)
    (e : effect_id) (u : renderer) (d : vnode) (r : option nat) (st : dom) :
  isBatching (rx a) = false ->
  (∀ sv, sv ∈ ws -> ∃ c0, signals (rx a) !! sv.1 = Some c0 ∧ listeners c0 = [e]) ->
  changing_writes (signals (rx a)) ws ≠ [] ->
  renderers a !! e = Some u ->
  answer (component u) (written ws (stateOf (rx a))) = inl d ->
  patch (container u) (currentDOM u) d (doc a) = Ok r st ->
  ∃ a', batch (sets k ws) a = Went a' Normal
    ∧ doc a' = st
    ∧ renderers a' = <[e := Renderer (component u) (container u) r]> (renderers a)
    ∧ (∀ s, stateOf (rx a') s = written ws (stateOf (rx a)) s)
    ∧ trace (rx a') = trace (rx a)
                      ++ (write_event <$> changing_writes (signals (rx a)) ws)
                      ++ [EvRestore; EvRun e]
    ∧ isBatching (rx a') = false ∧ batchQueue (rx a') = batchQueue (rx a).
Proof.
  intros Hb Hws Hch Hu Hans Hpatch.
  unfold batch. rewrite Hb.
  set (a0 := with_rx (with_batchQueue [] (with_isBatching true (rx a))) a).
  destruct (sets_batching k ws a0 eq_refl) as (w2 & -> & Hb2 & Hl2 & Hst2 & Ht2 & Hq2).
  { intros sv Hsv. destruct (Hws sv Hsv) as (c0 & Hc0 & _). simpl. by rewrite Hc0. }
  simpl in Hl2, Hst2, Ht2, Hq2.
  assert (unique (batchQueue w2) = [e]) as Hq.
  { rewrite Hq2. apply unique_constant.
    - destruct (changing_writes (signals (rx a)) ws) as [|[s v] cw] eqn:Hcw; [done|].
      destruct (Hws (s, v)) as (c0 & Hc0 & Hl0).
      { apply (changing_writes_subseteq ws (signals (rx a))). rewrite Hcw. left. }
      simpl. unfold listenersOf at 1. simpl in Hc0. simpl. rewrite Hc0. simpl.
      rewrite Hl0. done.
    - intros x Hx. apply list_elem_of_join in Hx as (l & Hx & Hl).
      apply list_elem_of_fmap in Hl as ([s v] & -> & Hsv).
      apply changing_writes_subseteq in Hsv. destruct (Hws _ Hsv) as (c0 & Hc0 & Hl0).
      unfold listenersOf in Hx. simpl in Hx, Hc0. rewrite Hc0 in Hx. simpl in Hx.
      rewrite Hl0 in Hx. by apply list_elem_of_singleton in Hx. }
  change (rx (with_rx w2 a0)) with w2. rewrite Hq.
  set (a3 := with_rx _ (with_rx w2 a0)).
  destruct (execute_spec e a3 u d r st) as (sg & Hex & E & _); try done.
  { rewrite <- Hans. apply answer_ext. intros s. unfold a3. simpl.
    change (stateOf (emit EvRestore (with_batchQueue (batchQueue (rx a))
                                       (with_isBatching false w2))) s)
      with (stateOf w2 s). by rewrite Hst2. }
  cbn [forEach]. rewrite Hex. simpl.
  destruct w2 as [ce2 q2 b2 sg2 cl2 tr2]. simpl in *. subst b2.
  eexists. split; [reflexivity|]. simpl. split_and!; try done.
  - intros s. rewrite <- Hst2. unfold stateOf. simpl. by rewrite <- !list_lookup_fmap, E.
  - rewrite Ht2. by rewrite <- !app_assoc.
Qed.

Lemma batch_rerenders_once_witness :
  let comp := Read 0 (fun v => Read 1 (fun v' =>
                Give (Vnode (TagName "p") None (VArray [VPrim v; VPrim v'])))) in
  let a := match render comp (Some 1) (Application two_cells page [] "" []) with
           | Went a _ => a
           | Broke _ => Application two_cells page [] "" []
           end in
  let ws := [(0, VInt 1); (1, VInt 2); (0, VInt 3)] in
  ∃ a', batch (sets 0 ws) a = Went a' Normal
    ∧ doc a' = documentOf (patch (Some 1) (Some 2)
                             (Vnode (TagName "p") None (VArray [VPrim (VInt 3); VPrim (VInt 2)]))
                             (doc a)) (doc a)
    ∧ renderers a' = <[0 := Renderer comp (Some 1) (Some 2)]> (renderers a)
    ∧ (∀ s, stateOf (rx a') s = written ws (stateOf (rx a)) s)
    ∧ trace (rx a') = trace (rx a)
                      ++ (write_event <$> changing_writes (signals (rx a)) ws)
                      ++ [EvRestore; EvRun 0]
    ∧ isBatching (rx a') = false ∧ batchQueue (rx a') = batchQueue (rx a).
Proof.
  intros comp a ws.
  apply (batch_rerenders_once 0 ws a 0 (Renderer comp (Some 1) (Some 2))
           (Vnode (TagName "p") None (VArray [VPrim (VInt 3); VPrim (VInt 2)])) (Some 2)).
  - reflexivity.
  - intros sv Hsv. unfold ws in Hsv.
    repeat (apply elem_of_cons in Hsv as [->|Hsv]; [by eexists|]).
    by apply elem_of_nil in Hsv.
  - discriminate.
  - reflexivity.
  - reflexivity.
  - reflexivity.
Defined.

(** ** The router *)

(** [startRouter(routes, container, fallback)]: a signal is created that
    holds the hash of the location, a listener of [hashchange] is
    registered for it, and the view of the current path is rendered at
    once: the route whose name is the hash without its first character
    (['/'] when nothing is left), or the fallback (the 404 page by default)
    when [routes] has none. The new effect is the only subscriber of the
    new signal. *)
Theorem router_renders_current_route (routes : string -> option view)
    (container : option nat) (fallback : option view) (a : app) (d : vnode)
    (r : option nat) (st : dom) :
  let s := length (signals (rx a)) in
  let e := length (renderers a) in
  let fb := default notFound fallback in
  let v := default fb (routes (pathOf (hash a))) in
  answer v (stateOf (createState (VString (hash a)) (rx a)).1) = inl d ->
  patch container None d (doc a) = Ok r st ->
  ∃ a',
    startRouter routes container fallback a = Went a' Normal
    ∧ doc a' = st
    ∧ renderers a' = renderers a ++ [Renderer (routed routes fb s) container r]
    ∧ hashchange a' = hashchange a ++ [s] ∧ hash a' = hash a
    ∧ stateOf (rx a') s = VString (hash a)
    ∧ listenersOf (rx a') s = [e]
    ∧ currentEffect (rx a') = None.
Proof.
  intros s e fb v Hans Hpatch. unfold startRouter. cbn [createState].
  set (w1 := with_signals (signals (rx a) ++ [Cell (VString (hash a)) []]) (rx a)) in *.
  set (a1 := Application w1 (doc a) (renderers a) (hash a) (hashchange a ++ [s])).
  set (u := Renderer (routed routes fb s) container None).
  set (a0 := Application (rx a1) (doc a1) (renderers a1 ++ [u]) (hash a1) (hashchange a1)).
  assert (stateOf w1 s = VString (hash a)) as Hs1.
  { unfold stateOf, w1, s. simpl. by rewrite list_lookup_middle. }
  assert (listenersOf w1 s = []) as Hl1.
  { unfold listenersOf, w1, s. simpl. by rewrite list_lookup_middle. }
  destruct (execute_spec e a0 u d r st) as (sg & Hex & E & _ & _ & Hreads & Hcl); try done.
  { unfold a0, a1, e. simpl. by rewrite list_lookup_middle. }
  { simpl. rewrite Hs1. exact Hans. }
  assert (e ∈ listenersOf (with_signals sg w1) s) as He.
  { apply (Hreads s).
    - simpl. left.
    - unfold w1, s. simpl. rewrite list_lookup_middle by done. by eexists. }
  exists (Application
            (World None (batchQueue w1) (isBatching w1) sg (closures w1) (trace w1 ++ [EvRun e]))
            st (<[e := Renderer (routed routes fb s) container r]> (renderers a ++ [u]))
            (hash a) (hashchange a ++ [s])).
  split; [exact Hex|]. simpl. split_and!; try done.
  - unfold e. rewrite insert_app_r_alt, Nat.sub_diag by done. done.
  - rewrite <- Hs1. unfold stateOf. simpl. by rewrite <- !list_lookup_fmap, E.
  - change (listenersOf (with_signals sg w1) s = [e]).
    destruct (Hcl s) as [H|H]; simpl in H; rewrite Hl1 in H.
    + rewrite H in He. by apply elem_of_nil in He.
    + exact H.
Qed.

Lemma router_renders_current_route_witness :
  let routes := fun p => if String.eqb p "/" then Some (Give div_a) else None in
  ∃ a',
    startRouter routes (Some 1) None (start page "") = Went a' Normal
    ∧ doc a' = documentOf (patch (Some 1) None div_a page) page
    ∧ renderers a' = [] ++ [Renderer (routed routes notFound 0) (Some 1) (Some 2)]
    ∧ hashchange a' = [] ++ [0] ∧ hash a' = ""
    ∧ stateOf (rx a') 0 = VString ""
    ∧ listenersOf (rx a') 0 = [0]
    ∧ currentEffect (rx a') = None.
Proof.
  intros routes.
  apply (router_renders_current_route routes (Some 1) None (start page "") div_a (Some 2)
           (documentOf (patch (Some 1) None div_a page) page)); reflexivity.
Defined.

(** A [hashchange] event after [startRouter], the router being the only
    subscriber of its signal. When the hash is the one that was rendered
    last, the listener changes nothing. When it is another string, the
    view of the new path (or the fallback) is called and the container is
    patched against the node retained from the last route; this happens
    also when the two hashes name the same path. *)
Theorem router_follows_hashchange (k : nat) (routes : string -> option view)
    (fb : view) (container cur : option nat) (a : app) (s : signal) (e : effect_id)
    (h0 h1 : string) :
  isBatching (rx a) = false ->
  signals (rx a) !! s = Some (Cell (VString h0) [e]) ->
  renderers a !! e = Some (Renderer (routed routes fb s) container cur) ->
  (h1 = h0 -> onHashchange (S k) s (with_hash h1 a) = Went (with_hash h1 a) Normal)
  ∧ (h1 ≠ h0 ->
     ∀ d r st,
       answer (default fb (routes (pathOf h1))) (update s (VString h1) (stateOf (rx a)))
       = inl d ->
       patch container cur d (doc a) = Ok r st ->
       ∃ a', onHashchange (S k) s (with_hash h1 a) = Went a' Normal
         ∧ doc a' = st
         ∧ renderers a' = <[e := Renderer (routed routes fb s) container r]> (renderers a)
         ∧ stateOf (rx a') s = VString h1
         ∧ hash a' = h1).
Proof.
  intros Hb Hs Hu. split.
  - intros ->. unfold onHashchange, set. cbn [rx with_hash hash]. rewrite Hs. simpl.
    unfold Object_is. by rewrite bool_decide_eq_true_2.
  - intros Hne d r st Hans Hpatch.
    destruct (set_single k s (VString h1) (with_hash h1 a) (Cell (VString h0) [e]) e
                (Renderer (routed routes fb s) container cur) d r st Hb Hs)
      as (a' & Hset & Hdoc & Hren & Hst & _ & _ & _ & _ & _ & _ & Hh & _); try done.
    { unfold Object_is. apply bool_decide_eq_false_2. simpl. intros [= H]. by apply Hne. }
    { simpl. unfold update at 1. by rewrite bool_decide_eq_true_2. }
    exists a'. split_and!; try done.
    rewrite Hst. unfold update. by rewrite bool_decide_eq_true_2.
Qed.

Lemma router_follows_hashchange_witness :
  let routes := fun p => if String.eqb p "/" then Some (Give div_a) else None in
  let a := match startRouter routes (Some 1) None (start page "") with
           | Went a _ => a
           | Broke _ => start page ""
           end in
  (EmptyString = "" -> onHashchange 1 0 (with_hash "" a) = Went (with_hash "" a) Normal)
  ∧ ("#/lost" ≠ "" ->
     ∀ d r st,
       answer (default notFound (routes (pathOf "#/lost")))
              (update 0 (VString "#/lost") (stateOf (rx a))) = inl d ->
       patch (Some 1) (Some 2) d (doc a) = Ok r st ->
       ∃ a', onHashchange 1 0 (with_hash "#/lost" a) = Went a' Normal
         ∧ doc a' = st
         ∧ renderers a' = <[0 := Renderer (routed routes notFound 0) (Some 1) r]> (renderers a)
         ∧ stateOf (rx a') 0 = VString "#/lost"
         ∧ hash a' = "#/lost").
Proof.
  intros routes a.
  split.
  - apply (proj1 (router_follows_hashchange 0 routes notFound (Some 1) (Some 2) a 0 0
                    "" "" eq_refl eq_refl eq_refl)).
  - apply (proj2 (router_follows_hashchange 0 routes notFound (Some 1) (Some 2) a 0 0
                    "" "#/lost" eq_refl eq_refl eq_refl)).
Defined.

(** The hashes [""], ["#"] and ["#/"] all name the route ["/"]. When the
    hash becomes ["#/lost"], the 404 page is patched over the page of the
    route ["/"]: both are a [div], so the retained element (node 2) stays
    and takes the class and the three children of the 404 page. *)
Example router_shows_not_found :
  let routes := fun p => if String.eqb p "/" then Some (Give div_a) else None in
  pathOf "" = "/" ∧ pathOf "#" = "/" ∧ pathOf "#/" = "/" ∧ pathOf "#/lost" = "/lost"
  ∧ ∃ a1 a2,
      startRouter routes (Some 1) None (start page "") = Went a1 Normal
      ∧ onHashchange 1 0 (with_hash "#/lost" a1) = Went a2 Normal
      ∧ childrenOf (doc a1) 1 = [2] ∧ childrenOf (doc a2) 1 = [2]
      ∧ attributeOf (doc a2) 2 "class" = Some "error-404-container"
      ∧ length (childrenOf (doc a2) 2) = 3.
Proof.
  intros routes. split_and!; try reflexivity.
  eexists _, _. split_and!; [vm_compute; reflexivity| vm_compute; reflexivity|reflexivity..].
Qed.

End AppTheory.
